(** * RRT* planner with APF-biased sampling ([src/algo/rrt_base.py])

    A shallow embedding of the planner's base class and of the raster
    adapter, and the verification of the properties its specification
    states about them.

    Numbers.  The program computes on Python floats.  They are modelled by
    the real numbers [R]: [np.sqrt] is [sqrt], [np.pi] is [PI], [a // b] and
    [a % b] are the floor division and its remainder, [int] truncates toward
    zero.  Rounding, NaN and signed zeros are outside the model; [+inf],
    which the program uses as a sentinel for costs and potentials, is part
    of it (type [cost]).

    Missing modules.  [PointHeading] ([utils.py]) and the three motion
    variants ([rrt_shortest.py], [rrt_pointturn.py], [rrt_unicycle.py], which
    define [_cost_from_to] and [_path_exists]) are not part of the sources
    at hand.  [PointHeading] is modelled from the specification; the cost
    model is a parameter of the development. *)

From Stdlib Require Import Reals Lra Lia ZArith String Ascii.
From Stdlib Require DecimalString.
From stdpp Require Import base decidable option list gmap strings.

Open Scope R_scope.

(** ** Comparisons of floats are decidable *)

#[global] Instance Rlt_decision (a b : R) : Decision (a < b) := Rlt_dec a b.
#[global] Instance Rle_decision (a b : R) : Decision (a <= b) := Rle_dec a b.
#[global] Instance Rgt_decision (a b : R) : Decision (a > b) := Rgt_dec a b.
#[global] Instance Rge_decision (a b : R) : Decision (a >= b) := Rge_dec a b.
#[global] Instance R_eq_decision : EqDecision R := Req_dec_T.

(** [a // b] followed by [int], and [a % b], for floats and a divisor [b]
    that is not zero (at [b = 0] Python raises; the divisors of the planner
    are [near_threshold] and [meters_per_pixel], and the statements below
    that divide by them take them to be nonzero). *)
Definition floordiv (a b : R) : Z := Zfloor (a / b).
Definition pymod (a b : R) : R := a - b * IZR (Zfloor (a / b)).

(** [int(v)]: truncation toward zero. *)
Definition int_of_float (v : R) : Z :=
  if decide (0 <= v) then Zfloor v else (- Zfloor (- v))%Z.

(** ** Costs and potentials: a float that may be [+inf] *)

Inductive cost : Type :=
| Fin (r : R)
| Inf.

Definition cost_add (a b : cost) : cost :=
  match a, b with
  | Fin u, Fin v => Fin (u + v)
  | _, _ => Inf
  end.

Definition cost_lt (a b : cost) : Prop :=
  match a, b with
  | Fin u, Fin v => u < v
  | Fin _, Inf => True
  | Inf, _ => False
  end.

Definition cost_le (a b : cost) : Prop :=
  match a, b with
  | Fin u, Fin v => u <= v
  | _, Inf => True
  | Inf, Fin _ => False
  end.

#[global] Instance cost_lt_dec (a b : cost) : Decision (cost_lt a b).
Proof. destruct a, b; simpl; apply _. Defined.

#[global] Instance cost_le_dec (a b : cost) : Decision (cost_le a b).
Proof. destruct a, b; simpl; apply _. Defined.

#[global] Instance cost_eq_dec : EqDecision cost.
Proof. solve_decision. Defined.

Definition cost_nonneg (c : cost) : Prop := cost_le (Fin 0) c.

(** ** Exceptions and results *)

Inductive exn : Type :=
| AssertionError (near_threshold max_distance : R)
| KeyError (key : string)
| TreeKeyError
| IndexError
| ValueError
| TypeError
| AttributeError
| ZeroDivisionError
| JSONDecodeError.

(** The outcome of a call: a value, an exception that reaches the caller,
    or a loop that is still running when the fuel is spent. *)
Inductive result (A : Type) : Type :=
| Ok (a : A)
| Raise (e : exn)
| OutOfFuel.
Arguments Ok {A} a.
Arguments Raise {A} e.
Arguments OutOfFuel {A}.

#[global] Instance result_bind : MBind result := fun A B f m =>
  match m with
  | Ok a => f a
  | Raise e => Raise e
  | OutOfFuel => OutOfFuel
  end.

#[global] Instance result_ret : MRet result := fun A a => Ok a.

(** ** Python dictionaries

    A [dict] keeps its keys in insertion order; assigning to a key that is
    present replaces the value in place. *)

Section Dict.
Context {K V : Type} `{EqDecision K}.

Fixpoint dict_get (d : list (K * V)) (k : K) : option V :=
  match d with
  | [] => None
  | (k', v) :: d' => if decide (k' = k) then Some v else dict_get d' k
  end.

Fixpoint dict_set (d : list (K * V)) (k : K) (v : V) : list (K * V) :=
  match d with
  | [] => [(k, v)]
  | (k', v') :: d' =>
      if decide (k' = k) then (k', v) :: d' else (k', v') :: dict_set d' k v
  end.

End Dict.

(** ** Poses *)

(** Modelled from the spec: class [PointHeading] of [utils.py] is missing.
    A pose is [(x, y, z, heading)]; two poses are equal (and hash alike) iff
    their four fields agree.  The constructor takes the position in the
    world convention [(x, z, y)] and a heading that defaults to [0], and
    stores the heading wrapped into [(-PI, PI]]. *)
Record PointHeading : Type := mkPointHeading {
  x : R;
  y : R;
  z : R;
  heading : R
}.

#[global] Instance PointHeading_eq_dec : EqDecision PointHeading.
Proof. solve_decision. Defined.

(** The representative of [h] modulo [2 PI] in [(-PI, PI]]. *)
Definition wrap_heading (h : R) : R :=
  h + 2 * PI * IZR (Zfloor ((PI - h) / (2 * PI))).

(** [PointHeading((px, pz, py), h)] *)
Definition new_PointHeading (px pz py : R) (h : R) : PointHeading :=
  {| x := px; y := py; z := pz; heading := wrap_heading h |}.

(** [pt.heading = h] *)
Definition set_heading (pt : PointHeading) (h : R) : PointHeading :=
  {| x := x pt; y := y pt; z := z pt; heading := h |}.

(** ** The planner object *)

Record RRTStarBase : Type := mkRRTStarBase {
  _near_threshold : R;
  _max_distance : R;
  _max_linear_velocity : R;
  _max_angular_velocity : R;
  _directory : option string;
  tree : list (PointHeading * option PointHeading);
  grid_hash : gmap (Z * Z) (list PointHeading);
  _best_goal_node : option PointHeading;
  _start_iteration : Z;
  _start : option PointHeading;
  _goal : option PointHeading;
  _cost_from_parent : list (PointHeading * cost);
  x_min : option R;
  y_min : option R
}.

(** [RRTStarBase.__init__].  The directories made under [directory] are
    a file-system effect and are left out. *)
Definition RRTStarBase_init
    (max_linear_velocity max_angular_velocity near_threshold max_distance : R)
    (directory : option string) : result RRTStarBase :=
  if decide (near_threshold >= max_distance) then
    Ok {| _near_threshold := near_threshold;
          _max_distance := max_distance;
          _max_linear_velocity := max_linear_velocity;
          _max_angular_velocity := max_angular_velocity;
          _directory := directory;
          tree := [];
          grid_hash := ∅;
          _best_goal_node := None;
          _start_iteration := 0;
          _start := None;
          _goal := None;
          _cost_from_parent := [];
          x_min := None;
          y_min := None |}
  else Raise (AssertionError near_threshold max_distance).

(** ** Headings *)

Definition _validate_heading (heading : R) : R :=
  if decide (heading > PI) then heading - PI * 2
  else if decide (heading < - PI) then heading + PI * 2
  else heading.

Definition _get_heading_error (source target : R) : R :=
  _validate_heading (target - source).

(** ** Distances and the grid hash *)

Definition _euclid_2D (p1 p2 : PointHeading) : R :=
  sqrt ((x p1 - x p2) ^ 2 + (y p1 - y p2) ^ 2).

Section GridHash.
(** [self.x_min], [self.y_min] and [self._near_threshold] *)
Variables (xmin ymin near_threshold : R).

Implicit Type grid : gmap (Z * Z) (list PointHeading).

(** [self.grid_hash[(i, j)]]: a [defaultdict(list)] gives the empty list for
    a key it has not seen (the empty entry it then stores changes no later
    read). *)
Definition bucket grid (ij : Z * Z) : list PointHeading :=
  default [] (grid !! ij).

Definition cell_of (pt : PointHeading) : Z * Z :=
  (floordiv (x pt - xmin) near_threshold, floordiv (y pt - ymin) near_threshold).

Definition add_to_grid_hash grid (pt : PointHeading) : gmap (Z * Z) (list PointHeading) :=
  let i := floordiv (x pt - xmin) near_threshold in
  let j := floordiv (y pt - ymin) near_threshold in
  <[(i, j) := bucket grid (i, j) ++ [pt]]> grid.

Definition _get_near_pts grid (pt : PointHeading) : list PointHeading :=
  let i := floordiv (x pt - xmin) near_threshold in
  let j := floordiv (y pt - ymin) near_threshold in
  let ret := bucket grid (i, j) in
  let left := bool_decide (pymod (x pt - xmin) near_threshold < near_threshold / 2) in
  let down := bool_decide (pymod (y pt - ymin) near_threshold < near_threshold / 2) in
  if left then
    let ret := ret ++ bucket grid (i - 1, j)%Z in
    if down then
      ret ++ bucket grid (i - 1, j - 1)%Z ++ bucket grid (i, j - 1)%Z
    else
      ret ++ bucket grid (i - 1, j + 1)%Z ++ bucket grid (i, j + 1)%Z
  else
    let ret := ret ++ bucket grid (i + 1, j)%Z in
    if down then
      ret ++ bucket grid (i + 1, j - 1)%Z ++ bucket grid (i, j - 1)%Z
    else
      ret ++ bucket grid (i + 1, j + 1)%Z ++ bucket grid (i, j + 1)%Z.

(** The cells appended to [nearby_grids] in round [count] of
    [_closest_tree_pt]: the cell itself in round 0, afterwards the four sides
    of the square ring of radius [count], then its four corners. *)
Definition ring (i j : Z) (count : Z) : list (Z * Z) :=
  if decide (count > 0)%Z then
    flat_map (fun c => [(i + count, j + c); (i - count, j + c);
                        (i + c, j + count); (i + c, j - count)]%Z)
             (seqZ (- count + 1) (2 * count - 1))
    ++ [(i + count, j + count); (i + count, j - count);
        (i - count, j + count); (i - count, j - count)]%Z
  else [(i, j)].

(** [min(l, key=key)] for a nonempty [a :: l]: the first element whose key
    is least. *)
Fixpoint min_by {A : Type} (key : A -> R) (a : A) (l : list A) : A :=
  match l with
  | [] => a
  | b :: l' => min_by key (if decide (key b < key a) then b else a) l'
  end.

(** The [while not neighbors] loop of [_closest_tree_pt], entered with
    [count] rounds done. *)
Fixpoint closest_loop (fuel : nat) grid (pt : PointHeading) (i j count : Z)
  : result PointHeading :=
  match fuel with
  | O => OutOfFuel
  | S fuel' =>
      let nearby_grids := ring i j count in
      let neighbors := flat_map (bucket grid) nearby_grids in
      match neighbors with
      | [] => closest_loop fuel' grid pt i j (count + 1)
      | n :: ns => Ok (min_by (fun q => _euclid_2D pt q) n ns)
      end
  end.

Definition _closest_tree_pt (fuel : nat) grid (pt : PointHeading) : result PointHeading :=
  let i := floordiv (x pt - xmin) near_threshold in
  let j := floordiv (y pt - ymin) near_threshold in
  closest_loop fuel grid pt i j 0.

(** The candidates gathered in round [count] of [_closest_tree_pt]. *)
Definition candidates grid (i j count : Z) : list PointHeading :=
  flat_map (bucket grid) (ring i j count).

(** Every pose of the grid lies in the bucket of its own cell. *)
Definition grid_ok grid : Prop :=
  forall ij q, q ∈ bucket grid ij -> cell_of q = ij.

(** [q] is stored in the grid hash. *)
Definition stored grid (q : PointHeading) : Prop :=
  exists ij, q ∈ bucket grid ij.

End GridHash.

(** ** Field updates of the planner object *)

Definition set_tree (self : RRTStarBase) (t : list (PointHeading * option PointHeading))
  : RRTStarBase :=
  {| _near_threshold := _near_threshold self; _max_distance := _max_distance self;
     _max_linear_velocity := _max_linear_velocity self;
     _max_angular_velocity := _max_angular_velocity self;
     _directory := _directory self; tree := t; grid_hash := grid_hash self;
     _best_goal_node := _best_goal_node self; _start_iteration := _start_iteration self;
     _start := _start self; _goal := _goal self;
     _cost_from_parent := _cost_from_parent self;
     x_min := x_min self; y_min := y_min self |}.

Definition set_cost_from_parent (self : RRTStarBase) (c : list (PointHeading * cost))
  : RRTStarBase :=
  {| _near_threshold := _near_threshold self; _max_distance := _max_distance self;
     _max_linear_velocity := _max_linear_velocity self;
     _max_angular_velocity := _max_angular_velocity self;
     _directory := _directory self; tree := tree self; grid_hash := grid_hash self;
     _best_goal_node := _best_goal_node self; _start_iteration := _start_iteration self;
     _start := _start self; _goal := _goal self;
     _cost_from_parent := c;
     x_min := x_min self; y_min := y_min self |}.

Definition set_grid_hash (self : RRTStarBase) (g : gmap (Z * Z) (list PointHeading))
  : RRTStarBase :=
  {| _near_threshold := _near_threshold self; _max_distance := _max_distance self;
     _max_linear_velocity := _max_linear_velocity self;
     _max_angular_velocity := _max_angular_velocity self;
     _directory := _directory self; tree := tree self; grid_hash := g;
     _best_goal_node := _best_goal_node self; _start_iteration := _start_iteration self;
     _start := _start self; _goal := _goal self;
     _cost_from_parent := _cost_from_parent self;
     x_min := x_min self; y_min := y_min self |}.

Definition set_best_goal_node (self : RRTStarBase) (n : option PointHeading) : RRTStarBase :=
  {| _near_threshold := _near_threshold self; _max_distance := _max_distance self;
     _max_linear_velocity := _max_linear_velocity self;
     _max_angular_velocity := _max_angular_velocity self;
     _directory := _directory self; tree := tree self; grid_hash := grid_hash self;
     _best_goal_node := n; _start_iteration := _start_iteration self;
     _start := _start self; _goal := _goal self;
     _cost_from_parent := _cost_from_parent self;
     x_min := x_min self; y_min := y_min self |}.

Definition set_start_iteration (self : RRTStarBase) (n : Z) : RRTStarBase :=
  {| _near_threshold := _near_threshold self; _max_distance := _max_distance self;
     _max_linear_velocity := _max_linear_velocity self;
     _max_angular_velocity := _max_angular_velocity self;
     _directory := _directory self; tree := tree self; grid_hash := grid_hash self;
     _best_goal_node := _best_goal_node self; _start_iteration := n;
     _start := _start self; _goal := _goal self;
     _cost_from_parent := _cost_from_parent self;
     x_min := x_min self; y_min := y_min self |}.

Definition set_start (self : RRTStarBase) (p : option PointHeading) : RRTStarBase :=
  {| _near_threshold := _near_threshold self; _max_distance := _max_distance self;
     _max_linear_velocity := _max_linear_velocity self;
     _max_angular_velocity := _max_angular_velocity self;
     _directory := _directory self; tree := tree self; grid_hash := grid_hash self;
     _best_goal_node := _best_goal_node self; _start_iteration := _start_iteration self;
     _start := p; _goal := _goal self;
     _cost_from_parent := _cost_from_parent self;
     x_min := x_min self; y_min := y_min self |}.

Definition set_goal (self : RRTStarBase) (p : option PointHeading) : RRTStarBase :=
  {| _near_threshold := _near_threshold self; _max_distance := _max_distance self;
     _max_linear_velocity := _max_linear_velocity self;
     _max_angular_velocity := _max_angular_velocity self;
     _directory := _directory self; tree := tree self; grid_hash := grid_hash self;
     _best_goal_node := _best_goal_node self; _start_iteration := _start_iteration self;
     _start := _start self; _goal := p;
     _cost_from_parent := _cost_from_parent self;
     x_min := x_min self; y_min := y_min self |}.

Definition set_offsets (self : RRTStarBase) (xm ym : option R) : RRTStarBase :=
  {| _near_threshold := _near_threshold self; _max_distance := _max_distance self;
     _max_linear_velocity := _max_linear_velocity self;
     _max_angular_velocity := _max_angular_velocity self;
     _directory := _directory self; tree := tree self; grid_hash := grid_hash self;
     _best_goal_node := _best_goal_node self; _start_iteration := _start_iteration self;
     _start := _start self; _goal := _goal self;
     _cost_from_parent := _cost_from_parent self;
     x_min := xm; y_min := ym |}.

(** Reading an attribute that is still [None] where a pose or a float is
    needed ends in a [TypeError]. *)
Definition require {A : Type} (o : option A) : result A :=
  match o with
  | Some a => Ok a
  | None => Raise TypeError
  end.

(** ** The tree: paths, costs, insertion and rewiring *)

Section Planner.

(** [self._cost_from_to(a, b, return_heading, consider_end_heading)] of the
    motion variant in use: the traversal time from [a] to [b] and the
    heading on arrival (a caller that does not ask for the heading gets the
    time alone). *)
Variable _cost_from_to : PointHeading -> PointHeading -> bool -> bool -> cost * R.

(** [self._path_exists(a, b)] of the motion variant in use. *)
Variable _path_exists : PointHeading -> PointHeading -> bool.

(** The [while pt != self._start] loop of [_get_path_to_start]; [path]
    starts with [pt].  A pose that is no key of the tree, or a [None] parent
    below the start, ends in a [KeyError]. *)
Fixpoint path_loop (fuel : nat) (t : list (PointHeading * option PointHeading))
    (start pt : PointHeading) (path : list PointHeading) : result (list PointHeading) :=
  match fuel with
  | O => OutOfFuel
  | S fuel' =>
      if decide (pt = start) then Ok path
      else match dict_get t pt with
           | Some (Some parent) => path_loop fuel' t start parent (parent :: path)
           | Some None => Raise TreeKeyError
           | None => Raise TreeKeyError
           end
  end.

Definition _get_path_to_start (fuel : nat) (self : RRTStarBase) (pt : PointHeading)
  : result (list PointHeading) :=
  start ← require (_start self);
  path_loop fuel (tree self) start pt [pt].

(** The [for parent, child in zip(path[:-1], path[1:])] loop of
    [_cost_from_start]: [parent] is the pose before [children]. *)
Fixpoint sum_edges (cache : list (PointHeading * cost)) (total : cost)
    (parent : PointHeading) (children : list PointHeading)
  : cost * list (PointHeading * cost) :=
  match children with
  | [] => (total, cache)
  | child :: rest =>
      let '(c, cache') :=
        match dict_get cache child with
        | Some c => (c, cache)
        | None =>
            let c := (_cost_from_to parent child false true).1 in
            (c, dict_set cache child c)
        end in
      sum_edges cache' (cost_add total c) child rest
  end.

Definition _cost_from_start (fuel : nat) (self : RRTStarBase) (pt : PointHeading)
  : result (cost * RRTStarBase) :=
  path ← _get_path_to_start fuel self pt;
  match path with
  | [] => Ok (Fin 0, self)
  | first :: rest =>
      let '(total, cache) := sum_edges (_cost_from_parent self) (Fin 0) first rest in
      Ok (total, set_cost_from_parent self cache)
  end.

(** "Find valid neighbors" of [generate_tree]. *)
Definition valid_neighbors (self : RRTStarBase) (xm ym : R) (rand_pt : PointHeading)
  : list PointHeading :=
  filter (fun pt => _euclid_2D rand_pt pt < _near_threshold self
                    /\ (x rand_pt, y rand_pt) <> (x pt, y pt)
                    /\ _path_exists pt rand_pt = true)
         (_get_near_pts xm ym (_near_threshold self) (grid_hash self) rand_pt).

(** "Find best parent from valid neighbors": the loop over
    [enumerate(nearby_nodes)], entered at index [idx] with the least cost so
    far [min_cost] and, once some node was taken, its
    [(best_final_heading, best_parent_idx, best_cost_from_parent)]. *)
Fixpoint choose_parent (fuel : nat) (self : RRTStarBase) (rand_pt : PointHeading)
    (nodes : list PointHeading) (idx : nat) (min_cost : cost)
    (best : option (R * nat * cost))
  : result (cost * option (R * nat * cost) * RRTStarBase) :=
  match nodes with
  | [] => Ok (min_cost, best, self)
  | pt :: rest =>
      let '(cost_from_parent, final_heading) := _cost_from_to pt rand_pt true false in
      '(from_start, self') ← _cost_from_start fuel self pt;
      let new_cost := cost_add from_start cost_from_parent in
      if decide (cost_lt new_cost min_cost)
      then choose_parent fuel self' rand_pt rest (S idx) new_cost
             (Some (final_heading, idx, cost_from_parent))
      else choose_parent fuel self' rand_pt rest (S idx) min_cost best
  end.

(** "Add+connect new node to graph": the three assignments under [try]. *)
Definition insert_node (self : RRTStarBase) (xm ym : R)
    (rand_pt parent : PointHeading) (best_cost_from_parent : cost) : RRTStarBase :=
  let self := set_tree self (dict_set (tree self) rand_pt (Some parent)) in
  let self := set_cost_from_parent self
                (dict_set (_cost_from_parent self) rand_pt best_cost_from_parent) in
  set_grid_hash self (add_to_grid_hash xm ym (_near_threshold self) (grid_hash self) rand_pt).

(** One round of the "Rewire" loop. *)
Definition rewire_step (fuel : nat) (self : RRTStarBase) (rand_pt pt : PointHeading)
  : result RRTStarBase :=
  start ← require (_start self);
  if decide (pt = start) then Ok self
  else
    let cost_from_new_pt := (_cost_from_to rand_pt pt false true).1 in
    '(from_start, self) ← _cost_from_start fuel self rand_pt;
    let new_cost := cost_add from_start cost_from_new_pt in
    '(old_cost, self) ← _cost_from_start fuel self pt;
    if bool_decide (cost_lt new_cost old_cost) && _path_exists rand_pt pt then
      let self := set_tree self (dict_set (tree self) pt (Some rand_pt)) in
      Ok (set_cost_from_parent self (dict_set (_cost_from_parent self) pt cost_from_new_pt))
    else Ok self.

Fixpoint rewire (fuel : nat) (self : RRTStarBase) (rand_pt : PointHeading)
    (nearby_nodes : list PointHeading) : result RRTStarBase :=
  match nearby_nodes with
  | [] => Ok self
  | pt :: rest =>
      self' ← rewire_step fuel self rand_pt pt;
      rewire fuel self' rand_pt rest
  end.

(** The part of one pass through the body of [while not success] that
    changes the tree, from "Find valid neighbors" to the end of "Rewire",
    for the sample [rand_pt].  [None] stands for [continue]: nothing was
    inserted and another sample is drawn.  (The raster adapter's
    [_add_node_in_info_map] touches the info map only.) *)
Definition connect (fuel : nat) (self : RRTStarBase) (rand_pt : PointHeading)
  : result (option RRTStarBase) :=
  xm ← require (x_min self);
  ym ← require (y_min self);
  let nearby_nodes := valid_neighbors self xm ym rand_pt in
  match nearby_nodes with
  | [] => Ok None
  | _ :: _ =>
      '(min_cost, best, self) ← choose_parent fuel self rand_pt nearby_nodes 0 Inf None;
      match min_cost, best with
      | Fin _, Some (best_final_heading, best_parent_idx, best_cost_from_parent) =>
          let rand_pt := set_heading rand_pt best_final_heading in
          match nearby_nodes !! best_parent_idx with
          | None => Ok None
          | Some parent =>
              let nearby_nodes := delete best_parent_idx nearby_nodes in
              let self := insert_node self xm ym rand_pt parent best_cost_from_parent in
              self ← rewire fuel self rand_pt nearby_nodes;
              Ok (Some self)
          end
      | _, _ => Ok None
      end
  end.

(** The first statements of [generate_tree]: the tree is rooted at the
    start pose.  [offsets] is what the adapter's [_set_offsets] leaves in
    [x_min] and [y_min]. *)
Definition root_tree (self : RRTStarBase) (start_position : R * R * R)
    (start_heading : R) (goal_position : R * R * R) (offsets : R * R) : RRTStarBase :=
  let '(sx, sz, sy) := start_position in
  let '(gx, gz, gy) := goal_position in
  let start := new_PointHeading sx sz sy start_heading in
  let self := set_start self (Some start) in
  let self := set_goal self (Some (new_PointHeading gx gz gy 0)) in
  let self := set_tree self (dict_set (tree self) start None) in
  let self := set_cost_from_parent self (dict_set (_cost_from_parent self) start (Fin 0)) in
  let self := set_offsets self (Some offsets.1) (Some offsets.2) in
  set_grid_hash self
    (add_to_grid_hash offsets.1 offsets.2 (_near_threshold self) (grid_hash self) start).

(** *** The tree invariant *)

(** [walk t start p rest]: following the parent links from [p] reaches
    [start] after [length rest] steps; [start :: rest] is the path from the
    start to [p] that [_get_path_to_start] builds. *)
Inductive walk (t : list (PointHeading * option PointHeading)) (start : PointHeading)
  : PointHeading -> list PointHeading -> Prop :=
| walk_start : walk t start start []
| walk_step p q rest :
    p <> start -> dict_get t p = Some (Some q) -> walk t start q rest ->
    walk t start p (rest ++ [p]).

(** The poses mapped to [None]. *)
Definition roots (t : list (PointHeading * option PointHeading)) : list PointHeading :=
  (filter (fun e => e.2 = None) t).*1.

(** The start is mapped to [None], it is the one pose that is, and the
    parent links lead from every pose of the tree to the start. *)
Definition tree_ok (t : list (PointHeading * option PointHeading)) (start : PointHeading)
  : Prop :=
  dict_get t start = Some None /\
  roots t = [start] /\
  forall p, is_Some (dict_get t p) -> exists rest, walk t start p rest.

(** The cost of an edge as [_cost_from_start] reads it: the cached cost, or
    the cost model's where none is cached. *)
Definition edge_cost (cache : list (PointHeading * cost)) (parent child : PointHeading)
  : cost :=
  match dict_get cache child with
  | Some c => c
  | None => (_cost_from_to parent child false true).1
  end.

(** The sum of the edge costs along a path, added up from the start. *)
Fixpoint walk_cost (cache : list (PointHeading * cost)) (total : cost)
    (parent : PointHeading) (children : list PointHeading) : cost :=
  match children with
  | [] => total
  | child :: rest =>
      walk_cost cache (cost_add total (edge_cost cache parent child)) child rest
  end.

(** [path_cost t cache start p c]: [p] is linked to the start and the costs
    of the edges on the way add up to [c]. *)
Definition path_cost (t : list (PointHeading * option PointHeading))
    (cache : list (PointHeading * cost)) (start p : PointHeading) (c : cost) : Prop :=
  exists rest, walk t start p rest /\ walk_cost cache (Fin 0) start rest = c.

(** Consecutive poses of a path are linked in the tree. *)
Fixpoint chain (t : list (PointHeading * option PointHeading)) (parent : PointHeading)
    (children : list PointHeading) : Prop :=
  match children with
  | [] => True
  | child :: rest => dict_get t child = Some (Some parent) /\ chain t child rest
  end.

(** Two caches agree when they give every edge of the tree the same cost. *)
Definition cache_agree (t : list (PointHeading * option PointHeading))
    (cache cache' : list (PointHeading * cost)) : Prop :=
  forall child parent,
    dict_get t child = Some (Some parent) ->
    edge_cost cache' parent child = edge_cost cache parent child.

Definition cache_nonneg (cache : list (PointHeading * cost)) : Prop :=
  forall p c, dict_get cache p = Some c -> cost_nonneg c.

(** The state the loop of [generate_tree] keeps: the tree is rooted at the
    start, the grid hash stores poses of the tree only, and no cached edge
    cost is negative. *)
Definition planner_ok (self : RRTStarBase) : Prop :=
  exists start xm ym,
    _start self = Some start /\ x_min self = Some xm /\ y_min self = Some ym /\
    tree_ok (tree self) start /\
    (forall q, stored (grid_hash self) q -> is_Some (dict_get (tree self) q)) /\
    cache_nonneg (_cost_from_parent self).


(** ** "Update best path every so often" *)

(** The loop over [enumerate(self._get_near_pts(self._goal))]: the
    entries [(cost, idx, pt)] appended to [min_costs]. *)
Fixpoint goal_costs (fuel : nat) (self : RRTStarBase) (goal : PointHeading)
    (pts : list PointHeading) (idx : nat) (min_costs : list (cost * nat * PointHeading))
  : result (list (cost * nat * PointHeading) * RRTStarBase) :=
  match pts with
  | [] => Ok (min_costs, self)
  | pt :: rest =>
      if bool_decide (_euclid_2D pt goal < _near_threshold self) && _path_exists pt goal then
        '(from_start, self') ← _cost_from_start fuel self pt;
        let c := cost_add from_start (_cost_from_to pt goal false false).1 in
        goal_costs fuel self' goal rest (S idx) (min_costs ++ [(c, idx, pt)])
      else goal_costs fuel self goal rest (S idx) min_costs
  end.

(** [a < b] for two entries of [min_costs]: by cost, and by index where the
    costs are equal.  (The indices of two entries differ, so the poses are
    never compared.) *)
Definition entry_lt (a b : cost * nat * PointHeading) : Prop :=
  cost_lt a.1.1 b.1.1 \/ (a.1.1 = b.1.1 /\ (a.1.2 < b.1.2)%nat).

#[global] Instance entry_lt_dec (a b : cost * nat * PointHeading) : Decision (entry_lt a b).
Proof. unfold entry_lt. apply _. Defined.

(** [min(min_costs)] for a nonempty [e :: l]: the first least entry. *)
Fixpoint min_entry (e : cost * nat * PointHeading) (l : list (cost * nat * PointHeading))
  : cost * nat * PointHeading :=
  match l with
  | [] => e
  | e' :: l' => min_entry (if decide (entry_lt e' e) then e' else e) l'
  end.

(** The block under [if iteration % 50 == 0 or iteration %
    visualize_iterations == 0]. *)
Definition update_best_goal (fuel : nat) (self : RRTStarBase)
    (iteration visualize_iterations : Z) : result RRTStarBase :=
  due ← (if decide (iteration `mod` 50 = 0)%Z then Ok true
         else if decide (visualize_iterations = 0%Z) then Raise ZeroDivisionError
         else Ok (bool_decide (iteration `mod` visualize_iterations = 0)%Z));
  if due : bool then
    match _goal self with
    | None => Raise AttributeError
    | Some goal =>
        xm ← require (x_min self);
        ym ← require (y_min self);
        let near := _get_near_pts xm ym (_near_threshold self) (grid_hash self) goal in
        '(min_costs, self) ← goal_costs fuel self goal near 0 [];
        match min_costs with
        | [] => Ok self
        | e :: l => Ok (set_best_goal_node self (Some (min_entry e l).2))
        end
    end
  else Ok self.

(** ** A cost model for the examples *)

(** [np.arctan2(dy, dx)] *)
Definition arctan2 (dy dx : R) : R :=
  if decide (0 < dx) then atan (dy / dx)
  else if decide (dx < 0) then
    (if decide (0 <= dy) then atan (dy / dx) + PI else atan (dy / dx) - PI)
  else if decide (0 < dy) then PI / 2
  else if decide (dy < 0) then - (PI / 2)
  else 0.

(** Modelled from the spec: the "shortest" motion variant
    ([rrt_shortest.py] is missing).  The cost is the Euclidean distance over
    the maximal linear velocity, the heading on arrival is the bearing of
    the segment. *)
Definition shortest_cost_from_to (max_linear_velocity : R) (a b : PointHeading)
    (return_heading consider_end_heading : bool) : cost * R :=
  (Fin (_euclid_2D a b / max_linear_velocity), arctan2 (y b - y a) (x b - x a)).

(** A map without obstacles: every segment is free. *)
Definition open_field (a b : PointHeading) : bool := true.

(** ** Example planners *)

(** The start pose [(1, 0)] with heading [0], and a pose one metre to its
    left that was reached from the start, so with heading [PI]. *)
Definition ex_start : PointHeading := mkPointHeading 1 0 0 0.
Definition ex_left : PointHeading := mkPointHeading 0 0 0 PI.

(** The planner after [ex_left] was inserted below the start: cells of 4 m,
    unit velocity, both poses in cell [(0, 0)]. *)
Definition ex_planner : RRTStarBase :=
  {| _near_threshold := 4;
     _max_distance := 1;
     _max_linear_velocity := 1;
     _max_angular_velocity := 1;
     _directory := Some "out"%string;
     tree := [(ex_start, None); (ex_left, Some ex_start)];
     grid_hash := {[ (0, 0)%Z := [ex_start; ex_left] ]};
     _best_goal_node := None;
     _start_iteration := 0;
     _start := Some ex_start;
     _goal := Some (mkPointHeading 9 0 0 0);
     _cost_from_parent := [(ex_start, Fin 0); (ex_left, Fin 1)];
     x_min := Some 0;
     y_min := Some 0 |}.

(** A sample at the position of the start (as the APF sampler returns when
    the cell of the window centre has the least potential), with the default
    heading. *)
Definition ex_sample_at_start : PointHeading := mkPointHeading 1 0 0 0.

(** A sample two metres to the right of the start. *)
Definition ex_sample_right : PointHeading := mkPointHeading 3 0 0 0.


(** A pose at [(3, 0)] that was reached through [ex_left], at cost [3] for
    that edge, and a pose at [(2, 0)] that was just inserted below the
    start. *)
Definition ex_far : PointHeading := mkPointHeading 3 0 0 0.
Definition ex_new : PointHeading := mkPointHeading 2 0 0 0.

Definition ex_planner_rewire : RRTStarBase :=
  insert_node (insert_node ex_planner 0 0 ex_far ex_left (Fin 3)) 0 0 ex_new ex_start (Fin 1).

(** ** Example grids *)

(** A query at [(1, 1)], a stored pose 3 m to its right, in the next cell,
    and a stored pose 1 m to its right. *)
Definition ex_query : PointHeading := mkPointHeading 1 1 0 0.
Definition ex_stored_next_cell : PointHeading := mkPointHeading 4 1 0 0.
Definition ex_stored_close : PointHeading := mkPointHeading 2 1 0 0.

(** ** The raster adapter [RRTStarPNG] *)

(** [round(v)] of a float: to the nearest integer, a tie to the even one. *)
Definition py_round (v : R) : Z :=
  let f := Zfloor v in
  if decide (v - IZR f < 1 / 2) then f
  else if decide (v - IZR f > 1 / 2) then (f + 1)%Z
  else if Z.even f then f else (f + 1)%Z.

(** The configuration object [params]. *)
Record Params : Type := mkParams {
  MAX_LINEAR_VELOCITY : R;
  MAX_ANGULAR_VELOCITY : R;
  NEAR_THRESHOLD : R;
  MAX_DISTANCE : R;
  OUT_DIR : option string;
  METERS_PER_PIXEL : R;
  AGENT_RADIUS : R
}.

Record RRTStarPNG : Type := mkRRTStarPNG {
  base : RRTStarBase;
  _map : list (list Z);
  _map_height : R;
  _map_width : R;
  (** [meters_per_pixel], which the lambdas [_scale_x] and [_scale_y] hold *)
  meters_per_pixel : R;
  _info_map : list (list Z);
  _local_map_size : Z;
  _cell_size : R;
  (** set by [generate_tree] *)
  _iteration_count : Z;
  _visualize_iterations : Z
}.

(** [cv2.blur(img, (r, r))], the box filter of OpenCV. *)
Variable cv2_blur : list (list Z) -> Z -> result (list (list Z)).

(** [RRTStarPNG.__init__]; [gray] is the image of the map file as
    [cv2.imread] and [cv2.cvtColor] give it, one list per row.  The two
    counters that [generate_tree] sets later start at [0] and [500], its
    default. *)
Definition RRTStarPNG_init (params : Params) (gray : list (list Z)) : result RRTStarPNG :=
  b ← RRTStarBase_init (MAX_LINEAR_VELOCITY params)
        (MAX_ANGULAR_VELOCITY params * PI / 180)
        (NEAR_THRESHOLD params) (MAX_DISTANCE params) (OUT_DIR params);
  let meters_per_pixel := METERS_PER_PIXEL params in
  let map0 := map (map (fun v => if decide (v > 240)%Z then 255%Z else v)) gray in
  let map1 := map (map (fun v => if decide (v <= 240)%Z then 0%Z else v)) map0 in
  if decide (meters_per_pixel = 0) then Raise ZeroDivisionError
  else
    let blur_radius := py_round (AGENT_RADIUS params / meters_per_pixel) in
    map2 ← cv2_blur map1 blur_radius;
    Ok {| base := set_offsets b (Some 0) (Some 0);
          _map := map2;
          _map_height := INR (length gray) * meters_per_pixel;
          _map_width := INR (length (default [] (head gray))) * meters_per_pixel;
          meters_per_pixel := meters_per_pixel;
          _info_map := map (map (fun v => if decide (v <> 255)%Z then 1%Z else 0%Z)) map2;
          _local_map_size := floordiv (_near_threshold b * 1.2) meters_per_pixel;
          _cell_size := meters_per_pixel;
          _iteration_count := 0;
          _visualize_iterations := 500 |}.

(** [self._scale_x(v)], which is [int(v / meters_per_pixel)]. *)
Definition _scale_x (self : RRTStarPNG) (v : R) : result Z :=
  if decide (meters_per_pixel self = 0) then Raise ZeroDivisionError
  else Ok (int_of_float (v / meters_per_pixel self)).

(** One axis of a numpy index: [i] counts from the end when negative, and
    is out of bounds outside [-n, n). *)
Definition np_axis (n : nat) (i : Z) : result nat :=
  if decide (0 <= i < Z.of_nat n)%Z then Ok (Z.to_nat i)
  else if decide (- Z.of_nat n <= i < 0)%Z then Ok (Z.to_nat (i + Z.of_nat n))
  else Raise IndexError.

(** [a[i, j]] for a two-dimensional array given by its rows. *)
Definition np_item2 {A : Type} (a : list (list A)) (i j : Z) : result A :=
  r ← np_axis (length a) i;
  match a !! r with
  | None => Raise IndexError
  | Some row =>
      c ← np_axis (length row) j;
      match row !! c with
      | None => Raise IndexError
      | Some v => Ok v
      end
  end.

(** [RRTStarPNG._is_navigable] *)
Definition _is_navigable (self : RRTStarPNG) (pt : PointHeading) : result bool :=
  px ← _scale_x self (x pt);
  py ← _scale_x self (y pt);
  match np_item2 (_map self) py px with
  | Ok v => Ok (bool_decide (v = 255%Z))
  | Raise IndexError => Ok false
  | Raise e => Raise e
  | OutOfFuel => OutOfFuel
  end.

(** A 1x1 white map at one metre per pixel, an agent of radius one metre
    (so a box filter of size 1, which changes nothing), and a pose five
    metres to the right of the map. *)
Definition ex_params : Params :=
  {| MAX_LINEAR_VELOCITY := 1; MAX_ANGULAR_VELOCITY := 90;
     NEAR_THRESHOLD := 4; MAX_DISTANCE := 1; OUT_DIR := None;
     METERS_PER_PIXEL := 1; AGENT_RADIUS := 1 |}.
Definition ex_gray : list (list Z) := [[255%Z]].
Definition ex_blur (img : list (list Z)) (r : Z) : result (list (list Z)) := Ok img.
Definition ex_off_map : PointHeading := mkPointHeading 5 0 0 0.

(** ** The APF sampler *)

(** A two-dimensional numpy array: its shape and its entries. *)
Record ndarray (A : Type) : Type := mkArray {
  shape0 : nat;
  shape1 : nat;
  item : nat -> nat -> A
}.
Arguments mkArray {A} _ _ _.
Arguments shape0 {A} _.
Arguments shape1 {A} _.
Arguments item {A} _ _ _.

(** [scipy.ndimage.distance_transform_edt(a)]: for every cell the
    distance, in cells, to the nearest cell of [a] that is zero. *)
Variable distance_transform_edt : ndarray Z -> nat -> nat -> R.

(** The cells of an array of shape [(h, w)] in row-major order. *)
Definition row_major (h w : nat) : list (nat * nat) :=
  flat_map (fun r => map (fun c => (r, c)) (seq 0 w)) (seq 0 h).

Definition cost_min (a b : cost) : cost := if decide (cost_lt b a) then b else a.

(** [np.min] over the cells [cells], started from [m]. *)
Definition np_min (U : nat * nat -> cost) (m : cost) (cells : list (nat * nat)) : cost :=
  foldl (fun acc rc => cost_min acc (U rc)) m cells.

(** The repulsive potential of a cell at distance [rho]:
    [0.5 * eta * (1.0 / rho - 1.0 / rho0) ** 2] where [rho <= rho0], else
    [0].  At [rho = 0] numpy's [1.0 / rho] is [+inf], and so is the
    potential for a positive [eta] and a positive [rho0], as they are at
    the one call site.  (For [eta < 0] numpy gives [-inf], for [eta = 0]
    [nan], and at [rho0 = 0] Python's [1.0 / rho0] raises; the statements on
    the value of the potential take the gains and radii to be positive.) *)
Definition repulsive (eta rho0 rho : R) : cost :=
  if decide (rho <= rho0) then
    if decide (rho = 0) then Inf
    else Fin (0.5 * eta * (1 / rho - 1 / rho0) ^ 2)
  else Fin 0.

(** The attractive potential at distance [sigma] from the goal. *)
Definition attractive (xi sigma0 sigma : R) : cost :=
  if decide (sigma <= sigma0) then Fin (0.5 * xi * sigma ^ 2)
  else Fin (xi * sigma0 * (sigma - 0.5 * sigma0)).

Section APF.
Variables (self : RRTStarPNG) (local_map : ndarray Z).
Variables (local_map_center_pos goal_pos_global : R * R).
Variables (eta xi rho0 sigma0 eta_node rho0_node : R).

Definition map_origin : R * R :=
  (local_map_center_pos.1 - IZR (_local_map_size self `div` 2) * _cell_size self,
   local_map_center_pos.2 - IZR (_local_map_size self `div` 2) * _cell_size self).

Definition x_coords (c : nat) : R := map_origin.1 + INR c * _cell_size self.
Definition y_coords (r : nat) : R := map_origin.2 + INR r * _cell_size self.

(** [1 - np.isin(local_map, [label]).astype(int)] *)
Definition complement_of (label : Z) : ndarray Z :=
  mkArray (shape0 local_map) (shape1 local_map)
    (fun r c => if decide (item local_map r c = label) then 0%Z else 1%Z).

Definition rho_obs (r c : nat) : R :=
  distance_transform_edt (complement_of 1) r c * _cell_size self.
Definition rho_node (r c : nat) : R :=
  distance_transform_edt (complement_of 2) r c * _cell_size self.

Definition sigma (r c : nat) : R :=
  sqrt ((x_coords c - goal_pos_global.1) ^ 2 + (y_coords r - goal_pos_global.2) ^ 2).

Definition dist_to_center (r c : nat) : R :=
  sqrt ((x_coords c - local_map_center_pos.1) ^ 2
        + (y_coords r - local_map_center_pos.2) ^ 2).

(** [U_total] after the cells beyond [self._max_distance] were set to
    [np.inf]. *)
Definition U_total (rc : nat * nat) : cost :=
  if decide (dist_to_center rc.1 rc.2 > _max_distance (base self)) then Inf
  else cost_add (cost_add (repulsive eta rho0 (rho_obs rc.1 rc.2))
                          (repulsive eta_node rho0_node (rho_node rc.1 rc.2)))
                (attractive xi sigma0 (sigma rc.1 rc.2)).

(** The image of the field that is written on a visualization tick.  What
    is written is left out; the path of the file is joined from
    [self._directory], which has to be a string. *)
Definition dump_field : result () :=
  if decide (_visualize_iterations self = 0%Z) then Raise ZeroDivisionError
  else if decide (_iteration_count self `mod` _visualize_iterations self = 0)%Z then
    match _directory (base self) with
    | None => Raise TypeError
    | Some _ => Ok ()
    end
  else Ok ().

Definition _sample_point_by_local_map : result (R * R) :=
  let cells := row_major (shape0 local_map) (shape1 local_map) in
  if forallb (fun rc => bool_decide (U_total rc = Inf)) cells then Ok local_map_center_pos
  else
    _ ← dump_field;
    let min_U_total := np_min U_total Inf cells in
    match list_find (fun rc => U_total rc = min_U_total) cells with
    | Some (_, (r, c)) => Ok (x_coords c, y_coords r)
    | None => Raise IndexError
    end.

End APF.

(** ** Checkpoints *)

(** Python's [str.format] of a float, and [float] of a string (which
    raises [ValueError] on a string that is no number). *)
Variable float_str : R -> string.
Variable float_of_str : string -> result R.

(** Modelled from the spec: [PointHeading._str_key] of [utils.py] is missing.
    The pose key has the form ["{x}_{y}_{z}_{heading}"]. *)
Definition _str_key (pt : PointHeading) : string :=
  float_str (x pt) +:+ "_" +:+ float_str (y pt) +:+ "_" +:+ float_str (z pt)
  +:+ "_" +:+ float_str (heading pt).

(** [s.split(sep)] for a one-character separator; [word] holds, reversed,
    the characters read since the last separator. *)
Fixpoint split_on (sep : ascii) (word : list ascii) (s : string) : list string :=
  match s with
  | EmptyString => [string_of_list_ascii (rev word)]
  | String a s' =>
      if decide (a = sep) then string_of_list_ascii (rev word) :: split_on sep [] s'
      else split_on sep (a :: word) s'
  end.

Definition _str_to_pt (pt_str : string) : result PointHeading :=
  match split_on "_"%char [] pt_str with
  | [sx; sy; sz; sh] =>
      px ← float_of_str sx;
      pz ← float_of_str sz;
      py ← float_of_str sy;
      h ← float_of_str sh;
      Ok (new_PointHeading px pz py h)
  | _ => Raise ValueError
  end.

(** The values of the checkpoint document, and the document: a Python
    [dict] with string keys, as [json.load] returns it and [json.dump]
    takes it. *)
Inductive json : Type :=
| JString (s : string)
| JNumber (c : cost)
| JArray (l : list string)
| JObject (o : list (string * string)).

(** [doc[key]] *)
Definition doc_get (doc : list (string * json)) (key : string) : result json :=
  match dict_get doc key with
  | Some v => Ok v
  | None => Raise (KeyError key)
  end.

(** [s == v] for a string [s] and a value [v] of the document: a string
    equals no value of another type. *)
Definition str_eq_json (s : string) (v : json) : bool :=
  match v with
  | JString s' => bool_decide (s = s')
  | _ => false
  end.

(** [self._str_to_pt(v)] for a value [v] of the document: only a string
    has the attribute [split]. *)
Definition _str_to_pt_json (v : json) : result PointHeading :=
  match v with
  | JString s => _str_to_pt s
  | _ => Raise AttributeError
  end.

(** [doc[key].items()] *)
Definition doc_items (doc : list (string * json)) (key : string)
  : result (list (string * string)) :=
  match dict_get doc key with
  | Some (JObject o) => Ok o
  | Some _ => Raise AttributeError
  | None => Raise (KeyError key)
  end.

(** [open(json_path)] followed by [json.load]: the document of the file,
    or the exception that reading or parsing it raises. *)
Variable json_load : string -> result (list (string * json)).

(** [int(osp.basename(path).split("_")[0])] *)
Variable get_num_iterations : string -> result Z.

(** [self._set_offsets()] of the adapter: the offsets it leaves in [x_min]
    and [y_min]. *)
Variable _set_offsets : RRTStarBase -> R * R.

(** [sorted(paths, key=get_num_iterations)[-1]]: the sort is stable, so the
    last path among those with the greatest key; [best] is the latest so
    far, with its key. *)
Fixpoint latest_json (best : Z * string) (paths : list string) : result string :=
  match paths with
  | [] => Ok best.2
  | path :: rest =>
      k ← get_num_iterations path;
      if decide (best.1 <= k)%Z then latest_json (k, path) rest
      else latest_json best rest
  end.

(** The loop over [latest_string_tree["graph"].items()]. *)
Fixpoint load_graph (self : RRTStarBase) (doc : list (string * json))
    (start_str : json) (items : list (string * string)) : result RRTStarBase :=
  match items with
  | [] => Ok self
  | (k, v) :: rest =>
      pt ← _str_to_pt k;
      best ← doc_get doc "best_goal_node";
      let self := if str_eq_json k best then set_best_goal_node self (Some pt) else self in
      if decide (v = ""%string) then load_graph self doc start_str rest
      else
        parent ← (if str_eq_json v start_str then Ok (_start self)
                  else pt_v ← _str_to_pt v; Ok (Some pt_v));
        xm ← require (x_min self);
        ym ← require (y_min self);
        let self := set_tree self (dict_set (tree self) pt parent) in
        let self := set_grid_hash self
                      (add_to_grid_hash xm ym (_near_threshold self) (grid_hash self) pt) in
        load_graph self doc start_str rest
  end.

(** [_load_tree_from_json(json_path)]; [existing_jsons] is what [glob.glob]
    finds in the checkpoint directory. *)
Definition _load_tree_from_json (self : RRTStarBase) (json_path : option string)
    (existing_jsons : list string) : result RRTStarBase :=
  selected ← match json_path with
             | Some path => Ok (Some path)
             | None =>
                 match _directory self with
                 | None => Raise AttributeError
                 | Some _ =>
                     match existing_jsons with
                     | [] => Ok None
                     | path :: rest =>
                         k ← get_num_iterations path;
                         latest ← latest_json (k, path) rest;
                         Ok (Some latest)
                     end
                 end
             end;
  match selected with
  | None => Ok self
  | Some json_path =>
      latest_string_tree ← json_load json_path;
      start_str ← doc_get latest_string_tree "start";
      self ← match _start self with
             | None => start ← _str_to_pt_json start_str; Ok (set_start self (Some start))
             | Some _ => Ok self
             end;
      goal_str ← doc_get latest_string_tree "goal";
      self ← match _goal self with
             | None => goal ← _str_to_pt_json goal_str; Ok (set_goal self (Some goal))
             | Some _ => Ok self
             end;
      let self := match x_min self with
                  | None => set_offsets self (Some (_set_offsets self).1)
                              (Some (_set_offsets self).2)
                  | Some _ => self
                  end in
      items ← doc_items latest_string_tree "graph";
      self ← load_graph self latest_string_tree start_str items;
      n ← get_num_iterations json_path;
      Ok (set_start_iteration self (n + 1))
  end.

(** The loop of [_string_tree] over [self.tree.items()]. *)
Fixpoint string_graph (start : PointHeading) (items : list (PointHeading * option PointHeading))
    (graph : list (string * string)) : result (list (string * string)) :=
  match items with
  | [] => Ok graph
  | (k, v) :: rest =>
      if decide (k = start) then string_graph start rest (dict_set graph (_str_key k) ""%string)
      else match v with
           | Some parent => string_graph start rest (dict_set graph (_str_key k) (_str_key parent))
           | None => Raise AttributeError
           end
  end.

(** [_get_best_path] *)
Definition _get_best_path (fuel : nat) (self : RRTStarBase) : result (list PointHeading) :=
  match _best_goal_node self with
  | None => Ok []
  | Some node =>
      path ← _get_path_to_start fuel self node;
      goal ← require (_goal self);
      Ok (path ++ [goal])
  end.

(** [_string_tree]; the key of the cost is [cost_key], ["best_path_time"]. *)
Definition _string_tree (fuel : nat) (self : RRTStarBase)
  : result (list (string * json) * RRTStarBase) :=
  start ← require (_start self);
  graph ← string_graph start (tree self) [];
  goal ← require (_goal self);
  '(best, best_cost, self) ←
    match _best_goal_node self with
    | Some node =>
        '(from_start, self) ← _cost_from_start fuel self node;
        Ok (_str_key node, cost_add from_start (_cost_from_to node goal false false).1, self)
    | None => Ok (""%string, Fin (-1), self)
    end;
  path ← _get_best_path fuel self;
  Ok ([("start"%string, JString (_str_key start));
       ("goal"%string, JString (_str_key goal));
       ("best_goal_node"%string, JString best);
       ("best_path_time"%string, JNumber best_cost);
       ("best_path_raw"%string, JArray (map _str_key path));
       ("graph"%string, JObject graph)], self).

(** The entry of the checkpoint's ["graph"] for an entry of the tree: the
    root maps to the empty string. *)
Definition graph_entry (start : PointHeading) (e : PointHeading * option PointHeading)
  : string * string :=
  (_str_key e.1,
   if decide (e.1 = start) then ""%string
   else match e.2 with
        | Some parent => _str_key parent
        | None => ""%string
        end).

(** The entries of the tree but the root's. *)
Definition non_root (start : PointHeading) (t : list (PointHeading * option PointHeading))
  : list (PointHeading * option PointHeading) :=
  filter (fun e => e.1 <> start) t.

(** A planner as [RRTStarBase.__init__] leaves it. *)
Definition ex_fresh : RRTStarBase :=
  {| _near_threshold := 4; _max_distance := 1;
     _max_linear_velocity := 1; _max_angular_velocity := 1;
     _directory := Some "out"%string;
     tree := []; grid_hash := ∅; _best_goal_node := None; _start_iteration := 0;
     _start := None; _goal := None; _cost_from_parent := [];
     x_min := None; y_min := None |}.

(** A pose whose key is read back as the pose itself. *)
Definition key_ok (p : PointHeading) : Prop := _str_to_pt (_str_key p) = Ok p.

(** The best goal node that the loop over the graph leaves: the pose whose
    key is the document's, once the loop has met it. *)
Definition best_after (old best : option PointHeading)
    (items : list (PointHeading * option PointHeading)) : option PointHeading :=
  match best with
  | Some b => if decide (b ∈ items.*1) then Some b else old
  | None => old
  end.

Definition best_key (best : option PointHeading) : string :=
  match best with
  | Some b => _str_key b
  | None => ""%string
  end.

(** The document that [_string_tree] builds from the fields of the planner. *)
Definition checkpoint_doc (start goal : PointHeading) (best : option PointHeading)
    (best_cost : cost) (raw : list string)
    (t : list (PointHeading * option PointHeading)) : list (string * json) :=
  [("start"%string, JString (_str_key start));
   ("goal"%string, JString (_str_key goal));
   ("best_goal_node"%string, JString (best_key best));
   ("best_path_time"%string, JNumber best_cost);
   ("best_path_raw"%string, JArray raw);
   ("graph"%string, JObject (map (graph_entry start) t))].

(** ** Example window *)

(** A free window of 4 x 4 cells, and a stand-in for scipy's distance
    transform on it: every cell is three cells away from the next zero. *)
Definition ex_window : ndarray Z := mkArray 4 4 (fun _ _ => 0%Z).
Definition ex_edt (a : ndarray Z) (r c : nat) : R := 3.

(** The planner that [RRTStarPNG.__init__] builds from [ex_params], which
    name no output directory, and the one-pixel map [ex_gray]. *)
Definition ex_png : RRTStarPNG :=
  {| base := {| _near_threshold := 4; _max_distance := 1;
                _max_linear_velocity := 1;
                _max_angular_velocity := 90 * PI / 180;
                _directory := None;
                tree := []; grid_hash := ∅; _best_goal_node := None;
                _start_iteration := 0; _start := None; _goal := None;
                _cost_from_parent := []; x_min := Some 0; y_min := Some 0 |};
     _map := [[255%Z]];
     _map_height := INR 1 * 1;
     _map_width := INR 1 * 1;
     meters_per_pixel := 1;
     _info_map := [[0%Z]];
     _local_map_size := 4;
     _cell_size := 1;
     _iteration_count := 0;
     _visualize_iterations := 500 |}.

(** ** Example checkpoints *)

(** A stand-in for [str] and [float] on the floats that are integers: the
    decimal digits of the integer. *)
Definition ex_float_str (r : R) : string :=
  DecimalString.NilZero.string_of_int (Z.to_int (Zfloor r)).

Definition ex_float_of_str (s : string) : result R :=
  match DecimalString.NilZero.int_of_string s with
  | Some d => Ok (IZR (Z.of_int d))
  | None => Raise ValueError
  end.

(** The planner after [ex_new] was inserted below the start and chosen as
    the best goal node. *)
Definition ex_goal : PointHeading := mkPointHeading 9 0 0 0.

Definition ex_saved : RRTStarBase :=
  {| _near_threshold := 4;
     _max_distance := 1;
     _max_linear_velocity := 1;
     _max_angular_velocity := 1;
     _directory := Some "out"%string;
     tree := [(ex_start, None); (ex_new, Some ex_start)];
     grid_hash := {[ (0, 0)%Z := [ex_start; ex_new] ]};
     _best_goal_node := Some ex_new;
     _start_iteration := 0;
     _start := Some ex_start;
     _goal := Some ex_goal;
     _cost_from_parent := [(ex_start, Fin 0); (ex_new, Fin 1)];
     x_min := Some 0;
     y_min := Some 0 |}.

(** The checkpoint directory holds one file, written at iteration 7. *)
Definition ex_num_iterations (path : string) : result Z := Ok 7%Z.
Definition ex_offsets (self : RRTStarBase) : R * R := (0, 0).

(** ** Steering *)

(** [RRTStarBase._max_point]: [p2] itself when it is within
    [self._max_distance] of [p1], else the pose at that distance from [p1]
    on the way to [p2], at the height of [p1] and with the default heading.
    (With a negative [_max_distance] and two poses at one position the
    division is by zero, which numpy answers with [nan]: the statements
    about [_max_point] take [_max_distance] to be nonnegative.) *)
Definition _max_point (self : RRTStarBase) (p1 p2 : PointHeading) : PointHeading * bool :=
  let euclid_dist := _euclid_2D p1 p2 in
  if decide (euclid_dist <= _max_distance self) then (p2, false)
  else
    let new_x := x p1 + ((x p2 - x p1) * _max_distance self / euclid_dist) in
    let new_y := y p1 + ((y p2 - y p1) * _max_distance self / euclid_dist) in
    let new_z := z p1 in
    (new_PointHeading new_x new_z new_y 0, true).

(** The number of occurrences of a character in a string. *)
Fixpoint count_char (c : ascii) (s : string) : nat :=
  match s with
  | EmptyString => 0
  | String a s' => (if decide (a = c) then 1 else 0) + count_char c s'
  end.

(** The planner that the first statements of [generate_tree] leave for the
    start [ex_start] and the goal [ex_goal], before a checkpoint is
    loaded. *)
Definition ex_rooted : RRTStarBase :=
  {| _near_threshold := 4;
     _max_distance := 1;
     _max_linear_velocity := 1;
     _max_angular_velocity := 1;
     _directory := Some "out"%string;
     tree := [(ex_start, None)];
     grid_hash := {[ (0, 0)%Z := [ex_start] ]};
     _best_goal_node := None;
     _start_iteration := 0;
     _start := Some ex_start;
     _goal := Some ex_goal;
     _cost_from_parent := [(ex_start, Fin 0)];
     x_min := Some 0;
     y_min := Some 0 |}.

(** The example planner with its goal at the position of the start. *)
Definition ex_planner_near_goal : RRTStarBase := set_goal ex_planner (Some ex_sample_at_start).

(** ** The local map and the info map of the raster adapter *)

(** [self._scale_y(v)], the same scaling as [_scale_x]. *)
Definition _scale_y (self : RRTStarPNG) (v : R) : result Z :=
  if decide (meters_per_pixel self = 0) then Raise ZeroDivisionError
  else Ok (int_of_float (v / meters_per_pixel self)).

(** [m.shape[1]] of a two-dimensional array given by its rows. *)
Definition shape_1 (m : list (list Z)) : nat := length (default [] (head m)).

(** [a[r, c] = v] for indices that are in bounds. *)
Definition arr_set (a : ndarray Z) (r c : nat) (v : Z) : ndarray Z :=
  mkArray (shape0 a) (shape1 a)
    (fun r' c' => if decide (r' = r /\ c' = c) then v else item a r' c').

Definition set_info_map (self : RRTStarPNG) (m : list (list Z)) : RRTStarPNG :=
  {| base := base self; _map := _map self; _map_height := _map_height self;
     _map_width := _map_width self; meters_per_pixel := meters_per_pixel self;
     _info_map := m; _local_map_size := _local_map_size self;
     _cell_size := _cell_size self; _iteration_count := _iteration_count self;
     _visualize_iterations := _visualize_iterations self |}.

(** The loop [for map_j in range(j_start, j_end)] of [_get_local_map], for
    the row [map_i]. *)
Fixpoint local_map_row (info : list (list Z)) (local_map : ndarray Z)
    (i_start j_start map_i : Z) (js : list Z) : result (ndarray Z) :=
  match js with
  | [] => Ok local_map
  | map_j :: js' =>
      v ← (if decide (map_i < 0 \/ Z.of_nat (length info) <= map_i
                      \/ map_j < 0 \/ Z.of_nat (shape_1 info) <= map_j)%Z
           then Ok 1%Z
           else np_item2 info map_i map_j);
      r ← np_axis (shape0 local_map) (map_i - i_start);
      c ← np_axis (shape1 local_map) (map_j - j_start);
      local_map_row info (arr_set local_map r c v) i_start j_start map_i js'
  end.

(** The loop [for map_i in range(i_start, i_end)]. *)
Fixpoint local_map_rows (info : list (list Z)) (local_map : ndarray Z)
    (i_start j_start : Z) (rows js : list Z) : result (ndarray Z) :=
  match rows with
  | [] => Ok local_map
  | map_i :: rows' =>
      local_map ← local_map_row info local_map i_start j_start map_i js;
      local_map_rows info local_map i_start j_start rows' js
  end.

(** [RRTStarPNG._get_local_map]; [np.zeros] refuses a negative size. *)
Definition _get_local_map (self : RRTStarPNG) (local_map_center_pos : R * R)
  : result (ndarray Z) :=
  if decide (_local_map_size self < 0)%Z then Raise ValueError
  else
    let local_map :=
      mkArray (Z.to_nat (_local_map_size self)) (Z.to_nat (_local_map_size self))
        (fun _ _ => 0%Z) in
    let half_local_map_size := (_local_map_size self `div` 2)%Z in
    sy ← _scale_y self local_map_center_pos.2;
    sx ← _scale_x self local_map_center_pos.1;
    let i_start := (sy - half_local_map_size)%Z in
    let i_end := (sy + half_local_map_size)%Z in
    let j_start := (sx - half_local_map_size)%Z in
    let j_end := (sx + half_local_map_size)%Z in
    local_map_rows (_info_map self) local_map i_start j_start
      (seqZ i_start (i_end - i_start)) (seqZ j_start (j_end - j_start)).

(** [RRTStarPNG._add_node_in_info_map] *)
Definition _add_node_in_info_map (self : RRTStarPNG) (node_pos : R * R) : result RRTStarPNG :=
  px ← _scale_x self node_pos.1;
  py ← _scale_y self node_pos.2;
  r ← np_axis (length (_info_map self)) py;
  match _info_map self !! r with
  | None => Raise IndexError
  | Some row =>
      c ← np_axis (length row) px;
      Ok (set_info_map self (<[r := <[c := 2%Z]> row]> (_info_map self)))
  end.

(** The info map seen from the local map: an obstacle outside the map, the
    entry of the info map inside. *)
Definition info_cell (info : list (list Z)) (i j : Z) : Z :=
  if decide (i < 0 \/ Z.of_nat (length info) <= i
             \/ j < 0 \/ Z.of_nat (shape_1 info) <= j)%Z
  then 1%Z
  else default 0%Z (row ← info !! Z.to_nat i; row !! Z.to_nat j).

(** Every row of the array has the length of the first. *)
Definition rectangular (m : list (list Z)) : Prop :=
  Forall (fun row => length row = shape_1 m) m.
(** ** Refining a path *)

(** [self._get_intermediate_pts(pt, new_pt, precision, resolution)], which
    the motion variants define. *)
Variable _get_intermediate_pts :
  PointHeading -> PointHeading -> Z -> R -> result (list PointHeading).

(** The loop of [make_path_finer] over [zip(path[:-1], path[1:])]. *)
Fixpoint finer_loop (pairs : list (PointHeading * PointHeading))
    (all_pts : list PointHeading) (precision : Z) (resolution : R)
  : result (list PointHeading) :=
  match pairs with
  | [] => Ok all_pts
  | (pt, new_pt) :: pairs =>
      mid ← _get_intermediate_pts pt new_pt precision resolution;
      finer_loop pairs (((all_pts ++ [pt]) ++ mid) ++ [new_pt]) precision resolution
  end.

(** [make_path_finer] *)
Definition make_path_finer (path : list PointHeading) (precision : Z) (resolution : R)
  : result (list PointHeading) :=
  finer_loop (zip (removelast path) (tail path)) [] precision resolution.

(** ** More examples for the raster adapter *)

(** [ex_png] on the iteration [1], which is no visualization tick. *)
Definition ex_png_iteration_1 : RRTStarPNG :=
  {| base := base ex_png; _map := _map ex_png;
     _map_height := _map_height ex_png; _map_width := _map_width ex_png;
     meters_per_pixel := meters_per_pixel ex_png; _info_map := _info_map ex_png;
     _local_map_size := _local_map_size ex_png; _cell_size := _cell_size ex_png;
     _iteration_count := 1;
     _visualize_iterations := _visualize_iterations ex_png |}.

(** A stand-in for scipy's distance transform that is [0] on the zero
    entries of its input, and three cells elsewhere. *)
Definition ex_edt_zero (a : ndarray Z) (r c : nat) : R :=
  if decide (item a r c = 0%Z) then 0 else 3.

(** A pose one metre before the first row of the map. *)
Definition ex_before_map : PointHeading := mkPointHeading 0 (-1) 0 0.

(** A stand-in for [_get_intermediate_pts]: the midpoint of the two poses. *)
Definition ex_intermediate_pts (pt new_pt : PointHeading) (precision : Z) (resolution : R)
  : result (list PointHeading) :=
  Ok [mkPointHeading ((x pt + x new_pt) / 2) ((y pt + y new_pt) / 2) (z pt) (heading pt)].


(** * Part II. Verification *)

(** A proof depends on the parameters its statement names, and on the
    assumptions made about them. *)
#[local] Set Default Proof Using "Type".

(** ** Headings *)

(** C9 as stated fails: a heading two turns away is brought back by one
    turn only, and stays outside [(-PI, PI]]. *)
Lemma validate_heading_4pi_out_of_range :
  _validate_heading (4 * PI) = 2 * PI /\
  ~ (- PI < _validate_heading (4 * PI) <= PI).
Proof.
  pose proof PI_RGT_0 as Hpi.
  assert (E : _validate_heading (4 * PI) = 2 * PI).
  { unfold _validate_heading. destruct (decide (4 * PI > PI)); lra. }
  split; [exact E | rewrite E; lra].
Qed.

(** C9, amended: [_validate_heading] adds [-2 PI], [0] or [2 PI], so its
    result is always congruent to its argument modulo [2 PI]; the result lies
    in [(-PI, PI]] exactly when the argument lies in [(-3 PI, 3 PI]] and is
    not [-PI]. *)
Theorem validate_heading_single_wrap (h : R) :
  (exists k : Z, (-1 <= k <= 1)%Z /\ _validate_heading h = h + IZR k * (2 * PI)) /\
  (- PI < _validate_heading h <= PI <-> (- (3 * PI) < h <= 3 * PI /\ h <> - PI)).
Proof.
  pose proof PI_RGT_0 as Hpi. unfold _validate_heading.
  destruct (decide (h > PI)) as [H1|H1].
  - split; [exists (-1)%Z; split; [lia | lra] |].
    split; [intros ?; split; [lra | intros ->; lra] | intros [? _]; lra].
  - destruct (decide (h < - PI)) as [H2|H2].
    + split; [exists 1%Z; split; [lia | lra] |].
      split; [intros ?; split; [lra | intros ->; lra] | intros [? _]; lra].
    + split; [exists 0%Z; split; [lia | lra] |].
      split.
      * intros ?; split; [lra | intros ->; lra].
      * intros [? Hne]. split; [| lra].
        destruct (Rtotal_order (- PI) h) as [?|[E|?]]; [lra | congruence | lra].
Qed.

(** ** Configuration *)

(** C4: the constructor raises the assertion error that carries both
    values exactly when [near_threshold < max_distance]; it returns a planner
    with both values stored exactly when [near_threshold] equals or exceeds
    [max_distance]; equal values are accepted. *)
Theorem init_rejects_exactly_smaller_threshold
    (v w near_threshold max_distance : R) (directory : option string) :
  (RRTStarBase_init v w near_threshold max_distance directory
     = Raise (AssertionError near_threshold max_distance)
   <-> near_threshold < max_distance) /\
  ((exists self, RRTStarBase_init v w near_threshold max_distance directory = Ok self /\
                 _near_threshold self = near_threshold /\
                 _max_distance self = max_distance /\
                 tree self = [] /\ _start_iteration self = 0%Z)
   <-> (near_threshold = max_distance \/ near_threshold > max_distance)) /\
  (exists self, RRTStarBase_init v w max_distance max_distance directory = Ok self).
Proof.
  unfold RRTStarBase_init. repeat split.
  - destruct (decide (near_threshold >= max_distance)); [discriminate | lra].
  - intros Hlt. destruct (decide (near_threshold >= max_distance)); [lra | reflexivity].
  - intros (self & H & _). destruct (decide (near_threshold >= max_distance)); [lra | discriminate].
  - intros Hge. destruct (decide (near_threshold >= max_distance)); [| lra].
    eexists; repeat split; reflexivity.
  - destruct (decide (max_distance >= max_distance)); [eauto | lra].
Qed.

(** ** The grid hash *)

Lemma floordiv_bounds (a b : R) :
  0 < b -> IZR (floordiv a b) * b <= a < (IZR (floordiv a b) + 1) * b.
Proof.
  intros Hb. unfold floordiv.
  pose proof (Zfloor_bound (a / b)) as [H1 H2].
  assert (E : a = a / b * b) by (field; lra).
  split.
  - rewrite E at 2. apply Rmult_le_compat_r; lra.
  - rewrite E at 1. apply Rmult_lt_compat_r; lra.
Qed.

Lemma floordiv_in_range (a b : R) (lo hi : Z) :
  0 < b -> IZR lo * b <= a < IZR hi * b -> (lo <= floordiv a b < hi)%Z.
Proof.
  intros Hb [H1 H2]. pose proof (floordiv_bounds a b Hb) as [H3 H4].
  split.
  - assert (IZR lo < IZR (floordiv a b) + 1) as H.
    { apply (Rmult_lt_reg_r b); lra. }
    rewrite <- plus_IZR in H. apply lt_IZR in H. lia.
  - apply lt_IZR. apply (Rmult_lt_reg_r b); lra.
Qed.

Lemma floordiv_eq (a b : R) (n : Z) :
  0 < b -> IZR n * b <= a < (IZR n + 1) * b -> floordiv a b = n.
Proof.
  intros Hb H. rewrite <- plus_IZR in H.
  pose proof (floordiv_in_range a b n (n + 1) Hb H). lia.
Qed.

Lemma Rabs_le_between (a b : R) : Rabs a <= b -> - b <= a <= b.
Proof. unfold Rabs. destruct (Rcase_abs a); lra. Qed.

Lemma sqrt_sum_sq_ge_l (u v : R) : Rabs u <= sqrt (u ^ 2 + v ^ 2).
Proof.
  rewrite <- sqrt_Rsqr_abs. apply sqrt_le_1_alt. unfold Rsqr. nra.
Qed.

Lemma sqrt_sum_sq_ge_r (u v : R) : Rabs v <= sqrt (u ^ 2 + v ^ 2).
Proof.
  rewrite <- sqrt_Rsqr_abs. apply sqrt_le_1_alt. unfold Rsqr. nra.
Qed.

Section GridHashFacts.
Variables (xmin ymin near_threshold : R).
Hypothesis threshold_pos : 0 < near_threshold.

Local Abbreviation cell_of := (cell_of xmin ymin near_threshold).
Local Abbreviation grid_ok := (grid_ok xmin ymin near_threshold).
Local Abbreviation add_to_grid_hash := (add_to_grid_hash xmin ymin near_threshold).
Local Abbreviation _get_near_pts := (_get_near_pts xmin ymin near_threshold).
Local Abbreviation _closest_tree_pt := (_closest_tree_pt xmin ymin near_threshold).

Implicit Type grid : gmap (Z * Z) (list PointHeading).

Lemma grid_ok_empty : grid_ok ∅.
Proof. intros ij q. unfold bucket. rewrite lookup_empty. simpl. intros H. inversion H. Qed.

Lemma bucket_add grid pt ij :
  bucket (add_to_grid_hash grid pt) ij =
  if decide (cell_of pt = ij) then bucket grid ij ++ [pt] else bucket grid ij.
Proof.
  unfold add_to_grid_hash, bucket at 1, cell_of.
  rewrite lookup_insert. destruct (decide _) as [->|]; reflexivity.
Qed.

Lemma grid_ok_add grid pt : grid_ok grid -> grid_ok (add_to_grid_hash grid pt).
Proof.
  intros Hok ij q. rewrite bucket_add.
  destruct (decide (cell_of pt = ij)) as [E|]; [| apply Hok].
  rewrite elem_of_app, list_elem_of_singleton. intros [H| ->]; [by apply Hok | done].
Qed.

Lemma stored_add grid pt : stored (add_to_grid_hash grid pt) pt.
Proof.
  exists (cell_of pt). rewrite bucket_add, decide_True by done.
  rewrite elem_of_app, list_elem_of_singleton. by right.
Qed.

(** One axis of the 2x2 block: the two columns chosen by the half-cell rule
    contain every column whose offset from the query is at most half a cell. *)
Lemma half_cell_axis (u v : R) :
  Rabs (v - u) <= near_threshold / 2 ->
  let i := floordiv u near_threshold in
  let k := floordiv v near_threshold in
  if bool_decide (pymod u near_threshold < near_threshold / 2)
  then k = i \/ k = (i - 1)%Z
  else k = i \/ k = (i + 1)%Z.
Proof using near_threshold threshold_pos.
  intros Hd i k.
  pose proof (floordiv_bounds u near_threshold threshold_pos) as [Hu1 Hu2].
  fold i in Hu1, Hu2.
  apply Rabs_le_between in Hd.
  unfold pymod. fold (floordiv u near_threshold). fold i.
  case_bool_decide as Hl.
  - assert (i - 1 <= k < i + 1)%Z; [| lia].
    apply floordiv_in_range; [done |]. rewrite minus_IZR, plus_IZR. lra.
  - assert (i <= k < i + 2)%Z; [| lia].
    apply floordiv_in_range; [done |]. rewrite plus_IZR. lra.
Qed.

Lemma near_pts_cover_half_cell grid (p q : PointHeading) :
  grid_ok grid -> stored grid q ->
  Rabs (x q - x p) <= near_threshold / 2 ->
  Rabs (y q - y p) <= near_threshold / 2 ->
  q ∈ _get_near_pts grid p.
Proof using near_threshold threshold_pos xmin ymin.
  intros Hok [ij Hq] Hx Hy.
  pose proof (Hok ij q Hq) as Hc. unfold cell_of in Hc. subst ij.
  assert (Hx' : Rabs ((x q - xmin) - (x p - xmin)) <= near_threshold / 2).
  { replace ((x q - xmin) - (x p - xmin)) with (x q - x p) by lra. done. }
  assert (Hy' : Rabs ((y q - ymin) - (y p - ymin)) <= near_threshold / 2).
  { replace ((y q - ymin) - (y p - ymin)) with (y q - y p) by lra. done. }
  pose proof (half_cell_axis _ _ Hx') as Ax.
  pose proof (half_cell_axis _ _ Hy') as Ay.
  simpl in Ax, Ay. unfold _get_near_pts.
  destruct (bool_decide (pymod (x p - xmin) near_threshold < near_threshold / 2));
    destruct (bool_decide (pymod (y p - ymin) near_threshold < near_threshold / 2));
    destruct Ax as [Ex|Ex]; destruct Ay as [Ey|Ey];
    rewrite Ex, Ey in Hq; rewrite !elem_of_app; auto 10.
Qed.

(** C2, amended: every stored pose within half the near threshold of the
    query is among the poses [_get_near_pts] returns. *)
Theorem near_pts_cover_half_threshold grid (p q : PointHeading) :
  grid_ok grid -> stored grid q ->
  _euclid_2D p q <= near_threshold / 2 ->
  q ∈ _get_near_pts grid p.
Proof using near_threshold threshold_pos xmin ymin.
  intros Hok Hq Hd. apply near_pts_cover_half_cell; try done.
  - rewrite Rabs_minus_sym. etrans; [apply sqrt_sum_sq_ge_l | exact Hd].
  - rewrite Rabs_minus_sym. etrans; [apply sqrt_sum_sq_ge_r | exact Hd].
Qed.

End GridHashFacts.

Section ClosestFacts.
Variables (xmin ymin near_threshold : R).
Implicit Type grid : gmap (Z * Z) (list PointHeading).

Lemma min_by_in {A : Type} (key : A -> R) (l : list A) (a : A) :
  min_by key a l ∈ a :: l.
Proof.
  revert a. induction l as [|b l IH]; intros a; simpl.
  - apply list_elem_of_here.
  - specialize (IH (if decide (key b < key a) then b else a)).
    rewrite !elem_of_cons in *. destruct (decide (key b < key a)); destruct IH; auto.
Qed.

Lemma min_by_le_start {A : Type} (key : A -> R) (l : list A) (a : A) :
  key (min_by key a l) <= key a.
Proof.
  revert a. induction l as [|b l IH]; intros a; simpl; [lra |].
  etrans; [apply IH |]. destruct (decide (key b < key a)); lra.
Qed.

Lemma min_by_least {A : Type} (key : A -> R) (l : list A) (a b : A) :
  b ∈ a :: l -> key (min_by key a l) <= key b.
Proof.
  revert a. induction l as [|c l IH]; intros a; simpl.
  - rewrite list_elem_of_singleton. intros ->. lra.
  - rewrite !elem_of_cons. intros [Hb|[Hb|Hb]].
    + rewrite Hb. etrans; [apply min_by_le_start |].
      destruct (decide (key c < key a)); lra.
    + rewrite Hb. etrans; [apply min_by_le_start |].
      destruct (decide (key c < key a)); lra.
    + apply IH. rewrite elem_of_cons. by right.
Qed.

Lemma elem_of_flat_map {A B : Type} (f : A -> list B) (l : list A) (b : B) :
  b ∈ flat_map f l <-> exists a, a ∈ l /\ b ∈ f a.
Proof.
  rewrite list_elem_of_In, in_flat_map.
  split; intros (a & H1 & H2); exists a; by rewrite ?list_elem_of_In in *.
Qed.

(** The ring of radius [k] holds every cell at Chebyshev distance [k]. *)
Lemma ring_covers_at (i j a b k : Z) :
  (Z.abs (a - i) <= k)%Z -> (Z.abs (b - j) <= k)%Z ->
  (Z.abs (a - i) = k \/ Z.abs (b - j) = k)%Z ->
  (a, b) ∈ ring i j k.
Proof.
  intros Ha Hb Hk.
  unfold ring. destruct (decide (k > 0)%Z) as [Hpos|Hpos].
  - rewrite elem_of_app.
    destruct (decide (Z.abs (a - i) = k)) as [Ea|Ea];
      destruct (decide (Z.abs (b - j) = k)) as [Eb|Eb].
    + right. rewrite !elem_of_cons.
      assert (a = i + k \/ a = i - k)%Z as [Ha'|Ha'] by lia;
        assert (b = j + k \/ b = j - k)%Z as [Hb'|Hb'] by lia;
        rewrite Ha', Hb'; auto 10.
    + left. apply elem_of_flat_map. exists (b - j)%Z. split.
      * apply elem_of_seqZ. lia.
      * rewrite !elem_of_cons.
        replace (j + (b - j))%Z with b by lia.
        assert (a = i + k \/ a = i - k)%Z as [Ha'|Ha'] by lia; rewrite Ha'; auto 10.
    + left. apply elem_of_flat_map. exists (a - i)%Z. split.
      * apply elem_of_seqZ. lia.
      * rewrite !elem_of_cons.
        replace (i + (a - i))%Z with a by lia.
        assert (b = j + k \/ b = j - k)%Z as [Hb'|Hb'] by lia; rewrite Hb'; auto 10.
    + lia.
  - assert (a = i /\ b = j) as [-> ->] by lia. apply list_elem_of_here.
Qed.

Lemma ring_covers (i j a b : Z) :
  (a, b) ∈ ring i j (Z.max (Z.abs (a - i)) (Z.abs (b - j))).
Proof. apply ring_covers_at; lia. Qed.

Lemma closest_loop_search grid (pt : PointHeading) (i j : Z) (d : nat) (count : Z) :
  candidates grid i j (count + Z.of_nat d) <> [] ->
  exists (k : nat) (q : PointHeading),
    (k <= d)%nat /\
    (forall c : nat, (c < k)%nat -> candidates grid i j (count + Z.of_nat c) = []) /\
    q ∈ candidates grid i j (count + Z.of_nat k) /\
    (forall q', q' ∈ candidates grid i j (count + Z.of_nat k) ->
                _euclid_2D pt q <= _euclid_2D pt q') /\
    (forall fuel, (k < fuel)%nat -> closest_loop fuel grid pt i j count = Ok q).
Proof.
  revert count. induction d as [|d IH]; intros count Hne.
  - replace (count + Z.of_nat 0)%Z with count in Hne by lia.
    destruct (candidates grid i j count) as [|n ns] eqn:E; [done |].
    exists 0%nat, (min_by (fun q => _euclid_2D pt q) n ns).
    replace (count + Z.of_nat 0)%Z with count by lia. rewrite E.
    split; [lia |]. split; [intros; lia |].
    split; [apply min_by_in |]. split; [intros q'; apply min_by_least |].
    intros [|fuel] Hf; [lia |]. simpl. fold (candidates grid i j count). by rewrite E.
  - destruct (candidates grid i j count) as [|n ns] eqn:E.
    + destruct (IH (count + 1)%Z) as (k & q & Hk & Hempty & Hin & Hmin & Hrun).
      { replace (count + 1 + Z.of_nat d)%Z with (count + Z.of_nat (S d))%Z by lia. done. }
      exists (S k), q.
      replace (count + Z.of_nat (S k))%Z with (count + 1 + Z.of_nat k)%Z by lia.
      split; [lia |]. split.
      { intros [|c] Hc.
        - replace (count + Z.of_nat 0)%Z with count by lia. done.
        - replace (count + Z.of_nat (S c))%Z with (count + 1 + Z.of_nat c)%Z by lia.
          apply Hempty. lia. }
      split; [done |]. split; [done |].
      intros [|fuel] Hf; [lia |]. simpl. fold (candidates grid i j count). rewrite E.
      apply Hrun. lia.
    + exists 0%nat, (min_by (fun q => _euclid_2D pt q) n ns).
      replace (count + Z.of_nat 0)%Z with count by lia. rewrite E.
      split; [lia |]. split; [intros; lia |].
      split; [apply min_by_in |]. split; [intros q'; apply min_by_least |].
      intros [|fuel] Hf; [lia |]. simpl. fold (candidates grid i j count). by rewrite E.
Qed.

(** C5: when the grid hash stores a pose (and the cell size is not zero,
    so that the cell of the query is computed), the expanding-ring search
    returns, for every fuel above the number [k] of empty rounds, a pose [q]
    that is stored in the grid hash; [q] is a candidate of round [k], the
    first round with candidates, and no candidate of that round is nearer
    to the query. *)
Theorem closest_tree_pt_returns_stored grid (pt : PointHeading) :
  near_threshold <> 0 ->
  (exists q0, stored grid q0) ->
  exists (k : nat) (q : PointHeading),
    let i := floordiv (x pt - xmin) near_threshold in
    let j := floordiv (y pt - ymin) near_threshold in
    (forall fuel, (k < fuel)%nat ->
       _closest_tree_pt xmin ymin near_threshold fuel grid pt = Ok q) /\
    stored grid q /\
    (forall c : nat, (c < k)%nat -> candidates grid i j (Z.of_nat c) = []) /\
    q ∈ candidates grid i j (Z.of_nat k) /\
    (forall q', q' ∈ candidates grid i j (Z.of_nat k) ->
                _euclid_2D pt q <= _euclid_2D pt q').
Proof.
  intros _ (q0 & [a b] & Hq0).
  set (i := floordiv (x pt - xmin) near_threshold).
  set (j := floordiv (y pt - ymin) near_threshold).
  set (d := Z.to_nat (Z.max (Z.abs (a - i)) (Z.abs (b - j)))).
  destruct (closest_loop_search grid pt i j d 0) as (k & q & Hk & Hempty & Hin & Hmin & Hrun).
  { intros E. assert (Hc : q0 ∈ candidates grid i j (0 + Z.of_nat d)).
    { apply elem_of_flat_map. exists (a, b). split; [| done].
      replace (0 + Z.of_nat d)%Z with (Z.max (Z.abs (a - i)) (Z.abs (b - j))) by lia.
      apply ring_covers. }
    rewrite E in Hc. inversion Hc. }
  exists k, q. simpl. fold i j. simpl in *.
  split; [exact Hrun |]. split.
  { apply elem_of_flat_map in Hin as (ij & _ & Hij). by exists ij. }
  split; [exact Hempty |]. split; [exact Hin | exact Hmin].
Qed.

End ClosestFacts.

(** ** Dictionaries *)

Section DictFacts.
Context {K V : Type} `{EqDecision K}.
Implicit Types (d : list (K * V)) (k : K) (v : V).

Lemma dict_get_set d k k' v :
  dict_get (dict_set d k v) k' = if decide (k = k') then Some v else dict_get d k'.
Proof.
  induction d as [|[k0 v0] d IH]; simpl.
  - destruct (decide (k = k')); reflexivity.
  - destruct (decide (k0 = k)) as [->|Hne]; simpl.
    + destruct (decide (k = k')); reflexivity.
    + rewrite IH. destruct (decide (k0 = k')) as [->|]; [| reflexivity].
      by rewrite decide_False by congruence.
Qed.

Lemma dict_get_set_eq d k v : dict_get (dict_set d k v) k = Some v.
Proof. by rewrite dict_get_set, decide_True. Qed.

Lemma dict_get_set_ne d k k' v : k <> k' -> dict_get (dict_set d k v) k' = dict_get d k'.
Proof. intros. by rewrite dict_get_set, decide_False. Qed.

Lemma dict_get_elem_of d k v : dict_get d k = Some v -> (k, v) ∈ d.
Proof.
  induction d as [|[k0 v0] d IH]; simpl; [done |].
  destruct (decide (k0 = k)) as [->|].
  - intros [= ->]. apply list_elem_of_here.
  - intros. apply list_elem_of_further. auto.
Qed.

Lemma dict_set_fresh d k v : dict_get d k = None -> dict_set d k v = d ++ [(k, v)].
Proof.
  induction d as [|[k0 v0] d IH]; simpl; [done |].
  destruct (decide (k0 = k)); [done |]. intros. by rewrite IH.
Qed.

End DictFacts.

(** ** Costs *)

Lemma cost_le_refl (a : cost) : cost_le a a.
Proof. destruct a; simpl; [lra | done]. Qed.

Lemma cost_le_trans (a b c : cost) : cost_le a b -> cost_le b c -> cost_le a c.
Proof. destruct a, b, c; simpl; try done; lra. Qed.

Lemma cost_lt_le (a b : cost) : cost_lt a b -> cost_le a b.
Proof. destruct a, b; simpl; try done; lra. Qed.

Lemma cost_le_lt_trans (a b c : cost) : cost_le a b -> cost_lt b c -> cost_lt a c.
Proof. destruct a, b, c; simpl; try done; lra. Qed.

Lemma cost_lt_irrefl (a : cost) : ~ cost_lt a a.
Proof. destruct a; simpl; [lra | auto]. Qed.

Lemma cost_add_le_mono (a a' b : cost) : cost_le a a' -> cost_le (cost_add a b) (cost_add a' b).
Proof. destruct a, a', b; simpl; try done; lra. Qed.

Lemma cost_add_nonneg_r (a b : cost) : cost_nonneg b -> cost_le a (cost_add a b).
Proof. unfold cost_nonneg. destruct a, b; simpl; try done; lra. Qed.

Lemma cost_nonneg_add (a b : cost) : cost_nonneg a -> cost_nonneg b -> cost_nonneg (cost_add a b).
Proof. unfold cost_nonneg. destruct a, b; simpl; try done; lra. Qed.

(** ** Roots of the tree *)

Lemma roots_set_Some (t : list (PointHeading * option PointHeading)) (k v : PointHeading) :
  dict_get t k <> Some None -> roots (dict_set t k (Some v)) = roots t.
Proof.
  unfold roots. induction t as [|[k0 v0] t IH]; simpl; [done |].
  destruct (decide (k0 = k)) as [->|Hne]; intros Hk.
  - rewrite !filter_cons. simpl.
    destruct (decide (Some v = None)); [done |].
    destruct (decide (v0 = None)) as [->|]; [done | reflexivity].
  - specialize (IH Hk). rewrite !filter_cons. simpl.
    destruct (decide (v0 = None)); rewrite ?fmap_cons; by rewrite IH.
Qed.



(** ** Walks along the parent links *)


Implicit Types (t : list (PointHeading * option PointHeading)).
Implicit Types (cache : list (PointHeading * cost)).
Implicit Types (p q start : PointHeading) (rest : list PointHeading).

Lemma walk_functional t start p rest1 rest2 :
  walk t start p rest1 -> walk t start p rest2 -> rest1 = rest2.
Proof.
  intros H1. revert rest2. induction H1 as [|p q rest Hp Hq _ IH]; intros rest2 H2.
  - inversion H2; [done | congruence].
  - inversion H2 as [|p' q' rest' Hp' Hq' Hw]; subst; [congruence |].
    assert (q' = q) as -> by congruence. by rewrite (IH _ Hw).
Qed.

Lemma walk_last t start p rest : walk t start p rest -> default start (last rest) = p.
Proof. destruct 1; [done |]. by rewrite last_snoc. Qed.

Lemma walk_key t start p rest :
  walk t start p rest -> p = start \/ is_Some (dict_get t p).
Proof. destruct 1; [by left | right; eauto]. Qed.

Lemma path_loop_total t start p rest :
  walk t start p rest ->
  forall fuel acc, (length rest < fuel)%nat ->
    path_loop fuel t start p (p :: acc) = Ok (start :: rest ++ acc).
Proof.
  induction 1 as [|p q rest Hp Hq _ IH]; intros [|fuel] acc Hf; try (simpl in Hf; lia); simpl.
  - by rewrite decide_True.
  - rewrite decide_False, Hq by done.
    rewrite length_app in Hf. simpl in Hf.
    rewrite IH by lia. by rewrite <- app_assoc.
Qed.

Lemma path_loop_inv t start fuel :
  forall p acc l,
    path_loop fuel t start p (p :: acc) = Ok l ->
    exists rest, walk t start p rest /\ l = start :: rest ++ acc.
Proof.
  induction fuel as [|fuel IH]; intros p acc l; simpl; [done |].
  destruct (decide (p = start)) as [->|Hp].
  - intros [= <-]. exists []. split; [constructor | done].
  - destruct (dict_get t p) as [[q|]|] eqn:Hq; try done.
    intros H. apply IH in H as (rest & Hw & ->).
    exists (rest ++ [p]). split; [by econstructor |]. by rewrite <- app_assoc.
Qed.

Lemma walk_cost_snoc cache total parent rest child :
  walk_cost cache total parent (rest ++ [child]) =
  cost_add (walk_cost cache total parent rest)
           (edge_cost cache (default parent (last rest)) child).
Proof.
  revert total parent. induction rest as [|a rest IH]; intros total parent; simpl; [done |].
  rewrite IH. f_equal. f_equal. rewrite last_cons. by destruct (last rest).
Qed.

Lemma chain_snoc t parent rest child :
  chain t parent rest ->
  dict_get t child = Some (Some (default parent (last rest))) ->
  chain t parent (rest ++ [child]).
Proof.
  revert parent. induction rest as [|a rest IH]; intros parent; simpl; [done |].
  intros [H1 H2] H3. split; [done |]. apply IH; [done |].
  rewrite last_cons in H3. by destruct (last rest).
Qed.

Lemma walk_chain t start p rest : walk t start p rest -> chain t start rest.
Proof.
  induction 1 as [|p q rest Hp Hq Hw IH]; [done |].
  apply chain_snoc; [done |]. by rewrite (walk_last _ _ _ _ Hw).
Qed.

Lemma cache_agree_refl t cache : cache_agree t cache cache.
Proof. by intros ??. Qed.

Lemma cache_agree_trans t c1 c2 c3 :
  cache_agree t c1 c2 -> cache_agree t c2 c3 -> cache_agree t c1 c3.
Proof. intros H1 H2 child parent H. by rewrite H2, H1. Qed.

Lemma walk_cost_agree t cache cache' total parent rest :
  chain t parent rest -> cache_agree t cache cache' ->
  walk_cost cache' total parent rest = walk_cost cache total parent rest.
Proof.
  intros Hc Ha. revert total parent Hc.
  induction rest as [|a rest IH]; intros total parent; simpl; [done |].
  intros [H1 H2]. rewrite (Ha _ _ H1). by apply IH.
Qed.

Hypothesis cost_model_nonneg :
  forall a b return_heading consider_end_heading,
    cost_nonneg (_cost_from_to a b return_heading consider_end_heading).1.

Lemma edge_cost_nonneg cache parent child :
  cache_nonneg cache -> cost_nonneg (edge_cost cache parent child).
Proof using _cost_from_to cost_model_nonneg.
  intros Hc. unfold edge_cost.
  destruct (dict_get cache child) eqn:E; [by eapply Hc | apply cost_model_nonneg].
Qed.

Lemma sum_edges_chain t rest :
  forall parent cache total,
    chain t parent rest ->
    exists cache',
      sum_edges cache total parent rest = (walk_cost cache total parent rest, cache') /\
      cache_agree t cache cache' /\
      (cache_nonneg cache -> cache_nonneg cache').
Proof using _cost_from_to cost_model_nonneg.
  induction rest as [|child rest IH]; intros parent cache total; simpl.
  - intros _. exists cache. split; [done |]. split; [apply cache_agree_refl | done].
  - intros [H1 H2]. unfold edge_cost at 1.
    destruct (dict_get cache child) as [c|] eqn:E.
    + apply IH. done.
    + set (c := (_cost_from_to parent child false true).1).
      assert (Ha : cache_agree t cache (dict_set cache child c)).
      { intros child' parent' H'. unfold edge_cost. rewrite dict_get_set.
        destruct (decide (child = child')) as [<-|]; [| done].
        rewrite E. assert (parent' = parent) as -> by congruence. done. }
      destruct (IH child (dict_set cache child c) (cost_add total c) H2)
        as (cache' & Hs & Hag & Hnn).
      exists cache'. split; [| split].
      * rewrite Hs. f_equal. by apply (walk_cost_agree t).
      * by eapply cache_agree_trans.
      * intros Hc. apply Hnn. intros p' c'. rewrite dict_get_set.
        destruct (decide (child = p')); [| apply Hc].
        intros [= <-]. apply cost_model_nonneg.
Qed.


Lemma cost_from_start_total fuel (self : RRTStarBase) start p rest :
  _start self = Some start ->
  walk (tree self) start p rest ->
  (length rest < fuel)%nat ->
  exists cache',
    _cost_from_start fuel self p
      = Ok (walk_cost (_cost_from_parent self) (Fin 0) start rest,
            set_cost_from_parent self cache') /\
    cache_agree (tree self) (_cost_from_parent self) cache' /\
    (cache_nonneg (_cost_from_parent self) -> cache_nonneg cache').
Proof using _cost_from_to cost_model_nonneg.
  intros Hs Hw Hf. unfold _cost_from_start, _get_path_to_start.
  rewrite Hs. cbn. rewrite (path_loop_total _ _ _ _ Hw) by done. cbn.
  rewrite app_nil_r.
  destruct (sum_edges_chain (tree self) rest start (_cost_from_parent self) (Fin 0))
    as (cache' & E & Ha & Hn); [by eapply walk_chain |].
  exists cache'. rewrite E. done.
Qed.

(** [_cost_from_start] returns on every pose from which the parent links
    lead to the start, whatever the cost model. *)
Lemma cost_from_start_returns fuel (self : RRTStarBase) start p rest :
  _start self = Some start ->
  walk (tree self) start p rest ->
  (length rest < fuel)%nat ->
  _cost_from_start fuel self p
  = Ok ((sum_edges (_cost_from_parent self) (Fin 0) start rest).1,
        set_cost_from_parent self (sum_edges (_cost_from_parent self) (Fin 0) start rest).2).
Proof.
  intros Hs Hw Hf. unfold _cost_from_start, _get_path_to_start.
  rewrite Hs. cbn. rewrite (path_loop_total _ _ _ _ Hw) by done. cbn.
  rewrite app_nil_r.
  by destruct (sum_edges (_cost_from_parent self) (Fin 0) start rest) as [c cache'].
Qed.

Lemma cost_from_start_inv fuel (self self' : RRTStarBase) p c :
  _cost_from_start fuel self p = Ok (c, self') ->
  exists start rest cache',
    _start self = Some start /\
    walk (tree self) start p rest /\
    c = walk_cost (_cost_from_parent self) (Fin 0) start rest /\
    self' = set_cost_from_parent self cache' /\
    cache_agree (tree self) (_cost_from_parent self) cache' /\
    (cache_nonneg (_cost_from_parent self) -> cache_nonneg cache').
Proof using _cost_from_to cost_model_nonneg.
  unfold _cost_from_start, _get_path_to_start.
  destruct (_start self) as [start|] eqn:Hs; cbn; [| done].
  destruct (path_loop fuel (tree self) start p [p]) as [l| |] eqn:Hl; cbn; try done.
  apply path_loop_inv in Hl as (rest & Hw & ->). rewrite app_nil_r.
  destruct (sum_edges_chain (tree self) rest start (_cost_from_parent self) (Fin 0))
    as (cache' & E & Ha & Hn); [by eapply walk_chain |].
  rewrite E. intros [= <- <-].
  by exists start, rest, cache'.
Qed.

(** *** Inserting a new pose *)

Lemma walk_insert_fresh t start rand parent q rest :
  dict_get t rand = None -> rand <> start ->
  walk t start q rest ->
  walk (dict_set t rand (Some parent)) start q rest.
Proof.
  intros Hf Hr. induction 1 as [|p q rest Hp Hq _ IH]; [constructor |].
  econstructor; [done | | done].
  rewrite dict_get_set_ne; [done | congruence].
Qed.

Lemma walk_cost_insert_fresh t cache start rand c q rest :
  dict_get t rand = None -> rand <> start ->
  walk t start q rest ->
  walk_cost (dict_set cache rand c) (Fin 0) start rest = walk_cost cache (Fin 0) start rest.
Proof.
  intros Hf Hr. induction 1 as [|p q rest Hp Hq _ IH]; [done |].
  rewrite !walk_cost_snoc, IH. f_equal. unfold edge_cost.
  rewrite dict_get_set_ne; [done | congruence].
Qed.

(** *** Rewiring one pose *)

Section Rewire.
Variables (t : list (PointHeading * option PointHeading)) (cache : list (PointHeading * cost)).
Variables (start rand p : PointHeading) (rest_rand rest_p : list PointHeading) (cnew : cost).
Hypothesis p_not_start : p <> start.
Hypothesis cache_ok : cache_nonneg cache.
Hypothesis cnew_nonneg : cost_nonneg cnew.
Hypothesis walk_rand : walk t start rand rest_rand.
Hypothesis walk_p : walk t start p rest_p.
Hypothesis cheaper :
  cost_lt (cost_add (walk_cost cache (Fin 0) start rest_rand) cnew)
          (walk_cost cache (Fin 0) start rest_p).

Let t' := dict_set t p (Some rand).
Let cache' := dict_set cache p cnew.

(** A walk either stays clear of [p], and is then a walk of the rewired
    tree with the same cost, or passes through [p] and costs at least as
    much as the walk to [p]. *)
Lemma rewire_walk_cases q rest :
  walk t start q rest ->
  (walk t' start q rest /\
   walk_cost cache' (Fin 0) start rest = walk_cost cache (Fin 0) start rest) \/
  cost_le (walk_cost cache (Fin 0) start rest_p) (walk_cost cache (Fin 0) start rest).
Proof using Type*.
  induction 1 as [|q r rest Hq Hr Hw IH].
  - left. split; [constructor | done].
  - destruct (decide (q = p)) as [->|Hne].
    + right. rewrite (walk_functional _ _ _ _ _ walk_p (walk_step _ _ _ _ _ Hq Hr Hw)).
      apply cost_le_refl.
    + destruct IH as [[Hw' Hc']|Hle].
      * left. split.
        -- econstructor; [done | | done]. unfold t'. by rewrite dict_get_set_ne.
        -- rewrite !walk_cost_snoc, Hc'. f_equal. unfold edge_cost, cache'.
           by rewrite dict_get_set_ne.
      * right. rewrite walk_cost_snoc. eapply cost_le_trans; [exact Hle |].
        apply cost_add_nonneg_r, edge_cost_nonneg, cache_ok.
Qed.

Lemma rewire_walk_rand :
  walk t' start rand rest_rand /\
  walk_cost cache' (Fin 0) start rest_rand = walk_cost cache (Fin 0) start rest_rand.
Proof using Type*.
  destruct (rewire_walk_cases rand rest_rand walk_rand) as [H|Hle]; [done |].
  exfalso. eapply cost_lt_irrefl. eapply cost_le_lt_trans; [| exact cheaper].
  eapply cost_le_trans; [| apply cost_add_nonneg_r, cnew_nonneg]. exact Hle.
Qed.

Lemma rewire_walk_p :
  walk t' start p (rest_rand ++ [p]) /\
  walk_cost cache' (Fin 0) start (rest_rand ++ [p])
    = cost_add (walk_cost cache (Fin 0) start rest_rand) cnew.
Proof using Type*.
  destruct rewire_walk_rand as [Hw Hc]. split.
  - econstructor; [done | | done]. unfold t'. by rewrite dict_get_set_eq.
  - rewrite walk_cost_snoc, Hc. f_equal. unfold edge_cost, cache'.
    by rewrite dict_get_set_eq.
Qed.

(** Every pose that was linked to the start still is, at no higher cost. *)
Lemma rewire_walk_mono q rest :
  walk t start q rest ->
  exists rest',
    walk t' start q rest' /\
    cost_le (walk_cost cache' (Fin 0) start rest') (walk_cost cache (Fin 0) start rest).
Proof using Type*.
  induction 1 as [|q r rest Hq Hr Hw IH].
  - exists []. split; [constructor | apply cost_le_refl].
  - destruct (decide (q = p)) as [->|Hne].
    + exists (rest_rand ++ [p]). destruct rewire_walk_p as [Hw' Hc']. split; [done |].
      rewrite Hc'.
      rewrite <- (walk_functional _ _ _ _ _ walk_p (walk_step _ _ _ _ _ Hq Hr Hw)).
      by apply cost_lt_le.
    + destruct IH as (rest' & Hw' & Hle).
      exists (rest' ++ [q]). split.
      * econstructor; [done | | done]. unfold t'. by rewrite dict_get_set_ne.
      * rewrite !walk_cost_snoc.
        rewrite (walk_last _ _ _ _ Hw'), (walk_last _ _ _ _ Hw).
        replace (edge_cost cache' r q) with (edge_cost cache r q).
        { by apply cost_add_le_mono. }
        unfold edge_cost, cache'. by rewrite dict_get_set_ne.
Qed.

End Rewire.


(** *** The planner state *)

Lemma near_pts_stored (xm ym r : R) (grid : gmap (Z * Z) (list PointHeading)) p q :
  q ∈ _get_near_pts xm ym r grid p -> stored grid q.
Proof.
  unfold _get_near_pts, stored.
  destruct (bool_decide _); destruct (bool_decide _);
    rewrite !elem_of_app; intros [[H|H]|[H|H]]; eauto.
Qed.


Lemma stored_add_inv (xm ym r : R) (grid : gmap (Z * Z) (list PointHeading)) pt q :
  stored (add_to_grid_hash xm ym r grid pt) q -> q = pt \/ stored grid q.
Proof.
  intros [ij H]. rewrite bucket_add in H.
  destruct (decide _); [| right; by exists ij].
  apply elem_of_app in H as [H|H]; [right; by exists ij |].
  left. by apply list_elem_of_singleton in H.
Qed.

Lemma tree_ok_walk t start p :
  tree_ok t start -> is_Some (dict_get t p) -> exists rest, walk t start p rest.
Proof. intros (_ & _ & H). apply H. Qed.



Lemma tree_ok_insert t start rand parent :
  tree_ok t start -> dict_get t rand = None -> is_Some (dict_get t parent) ->
  tree_ok (dict_set t rand (Some parent)) start.
Proof.
  intros (H0 & Hr & Hw) Hf Hp.
  assert (Hne : rand <> start) by congruence.
  split; [| split].
  - by rewrite dict_get_set_ne.
  - rewrite roots_set_Some; [done | congruence].
  - intros q. rewrite dict_get_set. destruct (decide (rand = q)) as [<-|Hq].
    + intros _. destruct (Hw _ Hp) as (rest & Hrest).
      exists (rest ++ [rand]). econstructor; [done | by rewrite dict_get_set_eq |].
      by apply walk_insert_fresh.
    + intros Hk. destruct (Hw _ Hk) as (rest & Hrest).
      exists rest. by apply walk_insert_fresh.
Qed.

Lemma planner_ok_insert self xm ym rand parent c :
  planner_ok self -> x_min self = Some xm -> y_min self = Some ym ->
  dict_get (tree self) rand = None ->
  is_Some (dict_get (tree self) parent) ->
  cost_nonneg c ->
  planner_ok (insert_node self xm ym rand parent c).
Proof.
  intros (start & xm' & ym' & H1 & H2 & H3 & H4 & H5 & H6) Hx Hy Hf Hp Hc.
  exists start, xm, ym. unfold insert_node. simpl.
  split; [done |]. split; [done |]. split; [done |].
  split; [by apply tree_ok_insert |]. split.
  - intros q Hq. apply stored_add_inv in Hq as [->|Hq].
    + by rewrite dict_get_set_eq.
    + rewrite dict_get_set. destruct (decide _); [done | by apply H5].
  - intros p' c'. rewrite dict_get_set. destruct (decide _); [| apply H6].
    by intros [= <-].
Qed.



(** What one round of the rewiring loop does: nothing, or the
    reassignment of [pt] to [rand_pt] at a strictly lower cost. *)
Lemma rewire_step_inv fuel self rand_pt pt self' :
  planner_ok self ->
  rewire_step fuel self rand_pt pt = Ok self' ->
  exists start cache,
    _start self = Some start /\
    cache_nonneg cache /\
    cache_agree (tree self) (_cost_from_parent self) cache /\
    (self' = set_cost_from_parent self cache \/
     exists rest_rand rest_pt cnew,
       pt <> start /\ cost_nonneg cnew /\
       walk (tree self) start rand_pt rest_rand /\
       walk (tree self) start pt rest_pt /\
       cost_lt (cost_add (walk_cost cache (Fin 0) start rest_rand) cnew)
               (walk_cost cache (Fin 0) start rest_pt) /\
       self' = set_cost_from_parent
                 (set_tree self (dict_set (tree self) pt (Some rand_pt)))
                 (dict_set cache pt cnew)).
Proof using _cost_from_to _path_exists cost_model_nonneg.
  intros Hok H. pose proof Hok as (start & xm & ym & Hs & _ & _ & Ht & _ & Hc).
  unfold rewire_step in H. rewrite Hs in H. cbn in H.
  destruct (decide (pt = start)) as [->|Hne].
  { injection H as <-. exists start, (_cost_from_parent self).
    split; [done |]. split; [done |]. split; [apply cache_agree_refl |].
    left. by destruct self. }
  destruct (_cost_from_start fuel self rand_pt) as [[cr self1]| |] eqn:E1;
    cbn in H; try done.
  apply cost_from_start_inv in E1
    as (start1 & rest_rand & cache1 & Hs1 & Hw1 & Ecr & Es1 & Ha1 & Hn1).
  subst cr self1. assert (start1 = start) as -> by congruence.
  destruct (_cost_from_start fuel (set_cost_from_parent self cache1) pt)
    as [[cp self2]| |] eqn:E2; cbn in H; try done.
  apply cost_from_start_inv in E2
    as (start2 & rest_pt & cache2 & Hs2 & Hw2 & Ecp & Es2 & Ha2 & Hn2).
  subst cp self2. simpl in Hs2, Hw2, Ha2, Hn2.
  assert (start2 = start) as -> by congruence.
  exists start, cache2.
  split; [done |]. split; [auto |]. split; [by eapply cache_agree_trans |].
  destruct (bool_decide _ && _path_exists rand_pt pt) eqn:Hcond; injection H as <-.
  - right. apply andb_prop in Hcond as [Hlt _]. apply bool_decide_eq_true in Hlt.
    exists rest_rand, rest_pt, (_cost_from_to rand_pt pt false true).1.
    split; [done |]. split; [apply cost_model_nonneg |].
    split; [done |]. split; [done |]. split; [| done].
    rewrite <- (walk_cost_agree (tree self) cache1 cache2) in Hlt
      by (eauto using walk_chain).
    rewrite <- (walk_cost_agree (tree self) (_cost_from_parent self) cache2 _ _ rest_rand)
      in Hlt; [done | by eapply walk_chain | by eapply cache_agree_trans].
  - by left.
Qed.





(** C3: one round of the rewiring loop leaves no pose of the tree with a
    higher cost from the start: for every pose [q] of the tree,
    [_cost_from_start] returns before and after the round (given fuel for
    the walk), and the cost after is at most the cost before. *)
Theorem rewire_never_increases_cost fuel self rand_pt pt self' :
  planner_ok self ->
  rewire_step fuel self rand_pt pt = Ok self' ->
  forall q, is_Some (dict_get (tree self) q) ->
    exists (n : nat) (c c' : cost),
      (forall f, (n < f)%nat -> exists s, _cost_from_start f self q = Ok (c, s)) /\
      (forall f, (n < f)%nat -> exists s, _cost_from_start f self' q = Ok (c', s)) /\
      cost_le c' c.
Proof using _cost_from_to _path_exists cost_model_nonneg.
  intros Hok H q Hq.
  destruct (rewire_step_inv _ _ _ _ _ Hok H) as (start & cache & Hs & Hc & Ha & Hcase).
  pose proof Hok as (start' & xm & ym & Hs' & _ & _ & Ht & _ & Hc0).
  assert (start' = start) as -> by congruence.
  destruct (tree_ok_walk _ _ _ Ht Hq) as (rest & Hw).
  destruct Hcase as [->|(rest_rand & rest_pt & cnew & Hne & Hcn & Hwr & Hwp & Hlt & ->)].
  - exists (length rest), (walk_cost (_cost_from_parent self) (Fin 0) start rest),
      (walk_cost cache (Fin 0) start rest).
    split; [| split].
    + intros f Hf. destruct (cost_from_start_total f self start q rest Hs Hw Hf)
        as (cache' & E & _). eauto.
    + intros f Hf.
      destruct (cost_from_start_total f (set_cost_from_parent self cache) start q rest
                  Hs Hw Hf) as (cache' & E & _). eauto.
    + rewrite (walk_cost_agree (tree self) (_cost_from_parent self) cache)
        by (eauto using walk_chain). apply cost_le_refl.
  - edestruct (rewire_walk_mono (tree self) cache start rand_pt pt rest_rand rest_pt cnew)
      as (rest' & Hw' & Hle); [exact Hne | exact Hc | exact Hcn | exact Hwr | exact Hwp
                              | exact Hlt | exact Hw |].
    exists (Nat.max (length rest) (length rest')),
      (walk_cost (_cost_from_parent self) (Fin 0) start rest),
      (walk_cost (dict_set cache pt cnew) (Fin 0) start rest').
    split; [| split].
    + intros f Hf. destruct (cost_from_start_total f self start q rest Hs Hw)
        as (cache' & E & _); [lia | eauto].
    + intros f Hf.
      destruct (cost_from_start_total f
                  (set_cost_from_parent
                     (set_tree self (dict_set (tree self) pt (Some rand_pt)))
                     (dict_set cache pt cnew)) start q rest' Hs Hw')
        as (cache' & E & _); [lia | eauto].
    + rewrite <- (walk_cost_agree (tree self) (_cost_from_parent self) cache)
        by (eauto using walk_chain). exact Hle.
Qed.

Lemma get_path_to_start_total fuel self start p rest :
  _start self = Some start -> walk (tree self) start p rest ->
  (length rest < fuel)%nat ->
  _get_path_to_start fuel self p = Ok (start :: rest).
Proof.
  intros Hs Hw Hf. unfold _get_path_to_start. rewrite Hs. cbn.
  rewrite (path_loop_total _ _ _ _ Hw) by done. by rewrite app_nil_r.
Qed.

Lemma bind_Ok {A B : Type} (a : A) (f : A -> result B) : (Ok a ≫= f) = f a.
Proof. reflexivity. Qed.

Lemma cost_from_start_eval fuel self start p rest total cache' :
  _start self = Some start ->
  walk (tree self) start p rest ->
  (length rest < fuel)%nat ->
  sum_edges (_cost_from_parent self) (Fin 0) start rest = (total, cache') ->
  _cost_from_start fuel self p = Ok (total, set_cost_from_parent self cache').
Proof.
  intros Hs Hw Hf E. unfold _cost_from_start, _get_path_to_start.
  rewrite Hs. cbn. rewrite (path_loop_total _ _ _ _ Hw) by done. cbn.
  rewrite app_nil_r. by rewrite E.
Qed.


(** One round of the rewiring loop, evaluated: when both walks exist and the
    route through [rand_pt] is strictly cheaper and free, [pt] is handed
    over to [rand_pt]. *)
Lemma rewire_step_eval fuel self start rand_pt pt rest_rand rest_pt cr cp cache1 cache2 :
  _start self = Some start -> pt <> start ->
  walk (tree self) start rand_pt rest_rand -> (length rest_rand < fuel)%nat ->
  sum_edges (_cost_from_parent self) (Fin 0) start rest_rand = (cr, cache1) ->
  walk (tree self) start pt rest_pt -> (length rest_pt < fuel)%nat ->
  sum_edges cache1 (Fin 0) start rest_pt = (cp, cache2) ->
  cost_lt (cost_add cr (_cost_from_to rand_pt pt false true).1) cp ->
  _path_exists rand_pt pt = true ->
  rewire_step fuel self rand_pt pt
  = Ok (set_cost_from_parent
          (set_tree self (dict_set (tree self) pt (Some rand_pt)))
          (dict_set cache2 pt (_cost_from_to rand_pt pt false true).1)).
Proof.
  intros Hs Hne Hwr Hfr Er Hwp Hfp Ep Hlt Hpath.
  unfold rewire_step. rewrite Hs. unfold require. rewrite bind_Ok.
  rewrite decide_False by done.
  rewrite (cost_from_start_eval fuel self start rand_pt rest_rand cr cache1) by done.
  rewrite bind_Ok. cbv beta iota.
  rewrite (cost_from_start_eval fuel (set_cost_from_parent self cache1) start pt rest_pt
             cp cache2) by done.
  rewrite bind_Ok. cbv beta iota.
  rewrite bool_decide_eq_true_2 by done. rewrite Hpath. reflexivity.
Qed.

(** ** The raster adapter *)

Lemma np_axis_cases (n : nat) (i : Z) :
  (exists k, np_axis n i = Ok k /\ (k < n)%nat) \/
  (np_axis n i = Raise IndexError /\ (i < - Z.of_nat n \/ Z.of_nat n <= i)%Z).
Proof.
  unfold np_axis. destruct (decide (0 <= i < Z.of_nat n)%Z).
  - left. exists (Z.to_nat i). split; [done | lia].
  - destruct (decide (- Z.of_nat n <= i < 0)%Z).
    + left. exists (Z.to_nat (i + Z.of_nat n)). split; [done | lia].
    + right. split; [done | lia].
Qed.

Lemma np_axis_past_end (n : nat) (i : Z) :
  (Z.of_nat n <= i)%Z -> np_axis n i = Raise IndexError.
Proof.
  intros H. unfold np_axis. rewrite !decide_False by lia. done.
Qed.

Lemma np_axis_in_range (n : nat) (i : Z) :
  (0 <= i < Z.of_nat n)%Z -> np_axis n i = Ok (Z.to_nat i).
Proof. intros H. unfold np_axis. by rewrite decide_True. Qed.

Lemma np_item2_cases {A : Type} (a : list (list A)) (i j : Z) :
  (exists v, np_item2 a i j = Ok v) \/ np_item2 a i j = Raise IndexError.
Proof.
  unfold np_item2. destruct (np_axis_cases (length a) i) as [(r & -> & Hr)|[-> _]]; cbn.
  - destruct (a !! r) as [row|]; [| by right].
    destruct (np_axis_cases (length row) j) as [(c & -> & Hc)|[-> _]]; cbn; [| by right].
    destruct (row !! c); [left; eauto | by right].
  - by right.
Qed.

Lemma init_scale_nonzero params gray self :
  RRTStarPNG_init params gray = Ok self -> meters_per_pixel self <> 0.
Proof.
  unfold RRTStarPNG_init.
  destruct (RRTStarBase_init _ _ _ _ _) as [b| |]; cbn; try done.
  destruct (decide (METERS_PER_PIXEL params = 0)) as [|Hne]; [done |].
  destruct (cv2_blur _ _) as [m| |]; cbn; try done.
  by intros [= <-].
Qed.

(** C10: on a planner that [RRTStarPNG.__init__] has returned,
    [_is_navigable] returns a boolean for every pose; the boolean is [False]
    when the row index is at or beyond the number of rows of the map, and
    when the column index is at or beyond the length of the row. *)
Theorem is_navigable_total params gray self (pt : PointHeading) :
  RRTStarPNG_init params gray = Ok self ->
  exists (b : bool) (px py : Z),
    _scale_x self (x pt) = Ok px /\
    _scale_x self (y pt) = Ok py /\
    _is_navigable self pt = Ok b /\
    ((Z.of_nat (length (_map self)) <= py)%Z -> b = false) /\
    (forall row, _map self !! Z.to_nat py = Some row ->
                 (0 <= py)%Z -> (Z.of_nat (length row) <= px)%Z -> b = false).
Proof.
  intros Hinit. pose proof (init_scale_nonzero _ _ _ Hinit) as Hne.
  unfold _is_navigable, _scale_x. rewrite !decide_False by done. cbn.
  set (px := int_of_float (x pt / meters_per_pixel self)).
  set (py := int_of_float (y pt / meters_per_pixel self)).
  destruct (np_item2_cases (_map self) py px) as [(v & E)|E].
  - exists (bool_decide (v = 255%Z)), px, py. rewrite E.
    split; [done |]. split; [done |]. split; [done |]. split.
    + intros Hpy. unfold np_item2 in E. rewrite np_axis_past_end in E by done. done.
    + intros row Hrow Hpos Hpx. unfold np_item2 in E.
      apply lookup_lt_Some in Hrow as Hlt.
      rewrite np_axis_in_range in E by lia. cbn in E. rewrite Hrow in E.
      rewrite np_axis_past_end in E by done. done.
  - exists false, px, py. rewrite E. done.
Qed.

(** ** The APF sampler *)

Lemma cost_min_le_l (a b : cost) : cost_le (cost_min a b) a.
Proof.
  unfold cost_min. destruct (decide (cost_lt b a)); [by apply cost_lt_le | apply cost_le_refl].
Qed.

Lemma cost_min_le_r (a b : cost) : cost_le (cost_min a b) b.
Proof.
  unfold cost_min. destruct (decide (cost_lt b a)) as [|H]; [apply cost_le_refl |].
  destruct a, b; simpl in *; try done; lra.
Qed.

Lemma cost_le_neq_lt (a b : cost) : cost_le a b -> a <> b -> cost_lt a b.
Proof.
  destruct a as [u|], b as [v|]; simpl; try done.
  intros Hle Hne. destruct (Rtotal_order u v) as [?|[->|?]]; [done | done | lra].
Qed.

Lemma cost_le_Inf_eq (a : cost) : cost_le Inf a -> a = Inf.
Proof. by destruct a. Qed.

Lemma np_min_le_start (U : nat * nat -> cost) (cells : list (nat * nat)) (m : cost) :
  cost_le (np_min U m cells) m.
Proof.
  revert m. induction cells as [|rc cells IH]; intros m; simpl; [apply cost_le_refl |].
  eapply cost_le_trans; [apply IH | apply cost_min_le_l].
Qed.

Lemma np_min_le (U : nat * nat -> cost) (cells : list (nat * nat)) (m : cost) rc :
  rc ∈ cells -> cost_le (np_min U m cells) (U rc).
Proof.
  revert m. induction cells as [|rc' cells IH]; intros m; [by intros ?%elem_of_nil |].
  rewrite elem_of_cons. intros [->|Hin]; simpl.
  - eapply cost_le_trans; [apply np_min_le_start | apply cost_min_le_r].
  - by apply IH.
Qed.

Lemma np_min_attained (U : nat * nat -> cost) (cells : list (nat * nat)) (m : cost) :
  np_min U m cells = m \/ exists rc, rc ∈ cells /\ np_min U m cells = U rc.
Proof.
  revert m. induction cells as [|rc cells IH]; intros m; simpl; [by left |].
  destruct (IH (cost_min m (U rc))) as [E|(rc' & Hin & E)].
  - rewrite E. unfold cost_min. destruct (decide (cost_lt (U rc) m)); [| by left].
    right. exists rc. split; [apply list_elem_of_here | done].
  - right. exists rc'. split; [by apply list_elem_of_further | done].
Qed.

Section APFFacts.
Variables (self : RRTStarPNG) (local_map : ndarray Z).
Variables (local_map_center_pos goal_pos_global : R * R).
Variables (eta xi rho0 sigma0 eta_node rho0_node : R).

Local Abbreviation U :=
  (U_total self local_map local_map_center_pos goal_pos_global
     eta xi rho0 sigma0 eta_node rho0_node).
Local Abbreviation cells := (row_major (shape0 local_map) (shape1 local_map)).
Local Abbreviation sample :=
  (_sample_point_by_local_map self local_map local_map_center_pos goal_pos_global
     eta xi rho0 sigma0 eta_node rho0_node).

Lemma sample_all_masked :
  (forall rc, rc ∈ cells -> U rc = Inf) -> sample = Ok local_map_center_pos.
Proof.
  intros Hall. unfold _sample_point_by_local_map.
  assert (E : forallb (fun rc => bool_decide (U rc = Inf)) cells = true).
  { apply Is_true_true, forallb_True, Forall_forall. intros rc Hrc.
    apply bool_decide_pack. by apply Hall. }
  by rewrite E.
Qed.

Lemma sample_argmin :
  (exists rc, rc ∈ cells /\ U rc <> Inf) ->
  exists before r c after,
    cells = before ++ (r, c) :: after /\
    (forall rc, rc ∈ before -> cost_lt (U (r, c)) (U rc)) /\
    (forall rc, rc ∈ cells -> cost_le (U (r, c)) (U rc)) /\
    sample = dump_field self ≫= (fun _ =>
               Ok (x_coords self local_map_center_pos c,
                   y_coords self local_map_center_pos r)).
Proof.
  intros (rc0 & Hin0 & Hfin0). unfold _sample_point_by_local_map.
  assert (E : forallb (fun rc => bool_decide (U rc = Inf)) cells = false).
  { apply not_true_is_false. intros Ht.
    apply Is_true_true, forallb_True, Forall_forall with (x := rc0) in Ht; [| done].
    by apply bool_decide_unpack in Ht. }
  rewrite E. set (m := np_min U Inf cells).
  assert (Hm : exists rc, rc ∈ cells /\ m = U rc).
  { destruct (np_min_attained U cells Inf) as [Hinf|H]; [| done].
    exfalso. apply Hfin0. apply cost_le_Inf_eq. fold m in Hinf. rewrite <- Hinf.
    by apply np_min_le. }
  destruct Hm as (rc1 & Hin1 & Hm1).
  destruct (list_find_elem_of (fun rc => U rc = m) cells rc1 Hin1 (eq_sym Hm1))
    as ([i [r c]] & Hfind).
  rewrite Hfind. apply list_find_Some in Hfind as (Hi & HU & Hbefore).
  exists (take i cells), r, c, (drop (S i) cells).
  split; [by rewrite take_drop_middle |]. split; [| split].
  - intros rc Hrc. apply elem_of_take in Hrc as (j & Hj & Hlt).
    apply cost_le_neq_lt.
    + rewrite HU. apply np_min_le. by eapply list_elem_of_lookup_2.
    + intros Heq. apply (Hbefore j rc Hj Hlt). by rewrite <- Heq.
  - intros rc Hrc. rewrite HU. by apply np_min_le.
  - destruct (dump_field self) as [[]| |]; reflexivity.
Qed.

(** On a visualization tick the field image is written below
    [self._directory]: without a directory the sampler raises as soon as one
    cell is left unmasked. *)
Lemma sample_dump_without_directory :
  _directory (base self) = None ->
  _visualize_iterations self <> 0%Z ->
  (_iteration_count self `mod` _visualize_iterations self = 0)%Z ->
  (exists rc, rc ∈ cells /\ U rc <> Inf) ->
  sample = Raise TypeError.
Proof.
  intros Hdir Hv Htick (rc & Hrc & HU). unfold _sample_point_by_local_map.
  assert (E : forallb (fun rc => bool_decide (U rc = Inf)) cells = false).
  { apply not_true_is_false. intros E. apply HU.
    apply Is_true_true, forallb_True in E.
    rewrite Forall_forall in E. apply (bool_decide_unpack _). by apply E. }
  rewrite E. unfold dump_field.
  rewrite decide_False by done. rewrite decide_True by done. by rewrite Hdir.
Qed.

(** The sampler of C6, with the dump of the field image made explicit, for
    positive gains and radii of the repulsive potentials (the defaults are):
    every cell farther than [self._max_distance] from the window centre
    has the potential [+inf]; if every cell has, the sampler returns the
    window centre; otherwise it comes to the first cell in row-major order
    whose potential is least, and returns its world position unless the
    dump raises. *)
Theorem sample_point_by_local_map_spec :
  0 < eta -> 0 < eta_node -> 0 < rho0 -> 0 < rho0_node ->
  (forall r c, dist_to_center self local_map_center_pos r c > _max_distance (base self) ->
               U (r, c) = Inf) /\
  ((forall rc, rc ∈ cells -> U rc = Inf) -> sample = Ok local_map_center_pos) /\
  ((exists rc, rc ∈ cells /\ U rc <> Inf) ->
   exists before r c after,
     cells = before ++ (r, c) :: after /\
     (forall rc, rc ∈ before -> cost_lt (U (r, c)) (U rc)) /\
     (forall rc, rc ∈ cells -> cost_le (U (r, c)) (U rc)) /\
     sample = dump_field self ≫= (fun _ =>
                Ok (x_coords self local_map_center_pos c,
                    y_coords self local_map_center_pos r))).
Proof.
  intros _ _ _ _. split; [| split].
  - intros r c H. unfold U_total. simpl. by rewrite decide_True.
  - apply sample_all_masked.
  - apply sample_argmin.
Qed.

End APFFacts.

(** ** Loading a checkpoint: failures *)




(** ** Writing a checkpoint and loading it again *)

Lemma dict_get_app {K V : Type} `{EqDecision K} (d1 d2 : list (K * V)) (k : K) :
  dict_get (d1 ++ d2) k =
  match dict_get d1 k with
  | Some v => Some v
  | None => dict_get d2 k
  end.
Proof.
  induction d1 as [|[k0 v0] d1 IH]; simpl; [done |].
  by destruct (decide (k0 = k)).
Qed.

Lemma dict_get_None_notin {K V : Type} `{EqDecision K} (d : list (K * V)) (k : K) :
  dict_get d k = None <-> k ∉ d.*1.
Proof.
  induction d as [|[k0 v0] d IH]; simpl.
  - split; [intros _; apply not_elem_of_nil | done].
  - rewrite not_elem_of_cons. destruct (decide (k0 = k)) as [->|Hne].
    + split; [done | intros [? _]; done].
    + rewrite IH. split; [intros ?; split; [congruence | done] | by intros [_ ?]].
Qed.

Lemma key_ok_inj p q : key_ok p -> key_ok q -> _str_key p = _str_key q -> p = q.
Proof. unfold key_ok. intros Hp Hq E. rewrite E in Hp. congruence. Qed.

Lemma key_ok_nonempty p : key_ok p -> _str_key p <> ""%string.
Proof. unfold key_ok. intros Hp E. rewrite E in Hp. discriminate. Qed.

Lemma string_graph_entries start items :
  forall graph,
    (forall e, e ∈ items -> e.2 = None -> e.1 = start) ->
    NoDup (map (fun e => _str_key e.1) items) ->
    (forall e, e ∈ items -> dict_get graph (_str_key e.1) = None) ->
    string_graph start items graph = Ok (graph ++ map (graph_entry start) items).
Proof.
  induction items as [|[k v] items IH]; intros graph Hroot Hnd Hfresh; simpl.
  { by rewrite app_nil_r. }
  simpl in Hnd. apply NoDup_cons in Hnd as [Hk Hnd].
  assert (Hrest : forall s e, e ∈ items ->
            dict_get (graph ++ [(_str_key k, s)]) (_str_key e.1) = None).
  { intros s e He. rewrite dict_get_app, Hfresh by (by apply list_elem_of_further).
    simpl. rewrite decide_False; [done |]. intros E. apply Hk.
    rewrite E. apply list_elem_of_fmap. by exists e. }
  assert (Hk0 : dict_get graph (_str_key k) = None).
  { apply (Hfresh (k, v)), list_elem_of_here. }
  unfold graph_entry at 1. simpl.
  destruct (decide (k = start)) as [->|Hne].
  - rewrite dict_set_fresh by done. rewrite IH; [by rewrite <- app_assoc | | done | by apply Hrest].
    intros e He. apply Hroot. by apply list_elem_of_further.
  - destruct v as [parent|].
    + rewrite dict_set_fresh by done.
      rewrite IH; [by rewrite <- app_assoc | | done | by apply Hrest].
      intros e He. apply Hroot. by apply list_elem_of_further.
    + exfalso. apply Hne. apply (Hroot (k, None)); [apply list_elem_of_here | done].
Qed.

Lemma load_graph_entries doc start best items :
  forall self,
    _start self = Some start ->
    is_Some (x_min self) -> is_Some (y_min self) ->
    doc_get doc "best_goal_node" = Ok (JString (best_key best)) ->
    key_ok start ->
    (forall b, best = Some b -> key_ok b) ->
    (forall e, e ∈ items -> key_ok e.1) ->
    (forall e p, e ∈ items -> e.2 = Some p -> key_ok p) ->
    (forall e, e ∈ items -> e.2 = None -> e.1 = start) ->
    NoDup items.*1 ->
    (forall e, e ∈ items -> dict_get (tree self) e.1 = None) ->
    exists self',
      load_graph self doc (JString (_str_key start)) (map (graph_entry start) items)
      = Ok self' /\
      tree self' = tree self ++ non_root start items /\
      _start self' = _start self /\ _goal self' = _goal self /\
      _start_iteration self' = _start_iteration self /\
      _best_goal_node self' = best_after (_best_goal_node self) best items.
Proof.
  induction items as [|[k v] items IH];
    intros self Hs Hx Hy Hdoc Hks Hkb Hkeys Hparents Hroot Hnd Hfresh.
  { exists self. simpl. rewrite app_nil_r. split; [done |].
    repeat (split; [done |]). unfold best_after. destruct best; [| done].
    rewrite decide_False; [done | apply not_elem_of_nil]. }
  rewrite fmap_cons in Hnd. apply NoDup_cons in Hnd as [Hk Hnd]. simpl in Hk.
  assert (Hkk : key_ok k) by (apply (Hkeys (k, v)), list_elem_of_here).
  destruct Hx as [xm Hx], Hy as [ym Hy].
  simpl map. unfold graph_entry at 1. simpl fst. simpl snd.
  cbn [load_graph]. rewrite Hkk, bind_Ok, Hdoc, bind_Ok. cbn [str_eq_json].
  (* the state after the comparison with the best goal node *)
  set (self1 := if bool_decide (_str_key k = best_key best)
                then set_best_goal_node self (Some k) else self).
  assert (H1 : _start self1 = Some start /\ x_min self1 = Some xm /\ y_min self1 = Some ym
               /\ tree self1 = tree self /\ _goal self1 = _goal self
               /\ _start_iteration self1 = _start_iteration self
               /\ _best_goal_node self1
                  = best_after (_best_goal_node self) best [(k, v)]).
  { unfold self1, best_after. destruct best as [b|]; simpl best_key.
    - destruct (decide (_str_key k = _str_key b)) as [E|E].
      + rewrite (bool_decide_eq_true_2 _ E).
        assert (k = b) as <- by (apply key_ok_inj; auto).
        simpl. rewrite decide_True by apply list_elem_of_here. done.
      + rewrite (bool_decide_eq_false_2 _ E). simpl. rewrite decide_False; [done |].
        rewrite list_elem_of_singleton. intros ->. done.
    - rewrite bool_decide_eq_false_2 by (by apply key_ok_nonempty). done. }
  destruct H1 as (Hs1 & Hx1 & Hy1 & Ht1 & Hg1 & Hi1 & Hb1).
  assert (Hbest_step : forall old,
            best_after (best_after old best [(k, v)]) best items
            = best_after old best ((k, v) :: items)).
  { intros old. unfold best_after. destruct best as [b|]; [| done].
    rewrite fmap_cons. simpl.
    destruct (decide (b ∈ items.*1)) as [Hin|Hout].
    - rewrite decide_True by (by apply list_elem_of_further). done.
    - destruct (decide (b ∈ [k])) as [Hbk|Hbk].
      + rewrite decide_True; [done |]. apply list_elem_of_singleton in Hbk as ->.
        apply list_elem_of_here.
      + rewrite decide_False; [done |]. rewrite not_elem_of_cons. split; [| done].
        intros ->. apply Hbk. apply list_elem_of_here. }
  destruct (decide (k = start)) as [->|Hne].
  - (* the root: its value is the empty string, and the entry is passed over *)
    rewrite (decide_True (P := ""%string = ""%string)) by done.
    destruct (IH self1) as (self' & Hload & Ht & Hs' & Hg' & Hi' & Hb'); auto.
    { intros e He. apply Hkeys. by apply list_elem_of_further. }
    { intros e p He. apply Hparents. by apply list_elem_of_further. }
    { intros e He. apply Hroot. by apply list_elem_of_further. }
    { intros e He. rewrite Ht1. apply Hfresh. by apply list_elem_of_further. }
    exists self'. split; [exact Hload |].
    split.
    { rewrite Ht, Ht1. unfold non_root. rewrite filter_cons. simpl.
      rewrite decide_False; [done | by intros ?]. }
    split; [congruence |]. split; [congruence |]. split; [congruence |].
    rewrite Hb', Hb1. apply Hbest_step.
  - destruct v as [parent|].
    2:{ exfalso. apply Hne. apply (Hroot (k, None)); [apply list_elem_of_here | done]. }
    assert (Hkp : key_ok parent).
    { apply (Hparents (k, Some parent)); [apply list_elem_of_here | done]. }
    rewrite (decide_False (P := _str_key parent = ""%string)) by (by apply key_ok_nonempty).
    assert (Hparent :
      (if bool_decide (_str_key parent = _str_key start) then Ok (_start self1)
       else _str_to_pt (_str_key parent) ≫= fun pt_v => Ok (Some pt_v))
      = Ok (Some parent)).
    { destruct (decide (_str_key parent = _str_key start)) as [E|E].
      - rewrite (bool_decide_eq_true_2 _ E), Hs1. f_equal. f_equal. symmetry.
        by apply key_ok_inj.
      - rewrite (bool_decide_eq_false_2 _ E), Hkp. reflexivity. }
    rewrite Hparent, bind_Ok. unfold require. rewrite Hx1, bind_Ok. cbv beta.
    rewrite Hy1, bind_Ok. cbv beta.
    match goal with |- context [load_graph ?s _ _ _] => set (self2 := s) end.
    destruct (IH self2) as (self' & Hload & Ht & Hs' & Hg' & Hi' & Hb'); auto.
    { intros e He. apply Hkeys. by apply list_elem_of_further. }
    { intros e p He. apply Hparents. by apply list_elem_of_further. }
    { intros e He. apply Hroot. by apply list_elem_of_further. }
    { intros e He. unfold self2. simpl. rewrite Ht1, dict_get_set.
      rewrite decide_False.
      - apply Hfresh. by apply list_elem_of_further.
      - intros ->. apply Hk. apply list_elem_of_fmap. by exists e. }
    exists self'. split; [exact Hload |].
    split.
    { rewrite Ht. unfold self2. simpl. rewrite Ht1.
      rewrite dict_set_fresh by (apply (Hfresh (k, Some parent)), list_elem_of_here).
      unfold non_root. rewrite filter_cons. simpl. rewrite decide_True by done.
      by rewrite <- app_assoc. }
    split; [rewrite Hs'; unfold self2; simpl; congruence |].
    split; [rewrite Hg'; unfold self2; simpl; congruence |].
    split; [rewrite Hi'; unfold self2; simpl; congruence |].
    rewrite Hb'. unfold self2. simpl. rewrite Hb1. apply Hbest_step.
Qed.

Lemma dict_get_is_Some_elem (t : list (PointHeading * option PointHeading)) k :
  k ∈ t.*1 -> is_Some (dict_get t k).
Proof.
  intros Hk. destruct (dict_get t k) eqn:E; [eauto |].
  by apply dict_get_None_notin in E.
Qed.

Lemma tree_ok_None_entry t start e :
  tree_ok t start -> e ∈ t -> e.2 = None -> e.1 = start.
Proof.
  intros (_ & Hr & _) He Hn. destruct e as [k v]. simpl in *. subst v.
  assert (Hk : k ∈ roots t).
  { unfold roots. apply list_elem_of_fmap. exists (k, None). split; [done |].
    by apply list_elem_of_filter. }
  rewrite Hr in Hk. by apply list_elem_of_singleton in Hk.
Qed.

Lemma tree_ok_parent_key t start k parent :
  tree_ok t start -> NoDup t.*1 -> (k, Some parent) ∈ t -> is_Some (dict_get t parent).
Proof.
  intros Ht Hnd He. pose proof Ht as (H0 & _ & Hw).
  assert (Hget : dict_get t k = Some (Some parent)).
  { clear -He Hnd. induction t as [|[k0 v0] t IH]; [by apply elem_of_nil in He |].
    rewrite fmap_cons in Hnd. apply NoDup_cons in Hnd as [Hk0 Hnd].
    apply elem_of_cons in He as [[= <- <-]|He]; simpl.
    - by rewrite decide_True.
    - rewrite decide_False; [by apply IH |]. intros ->. apply Hk0.
      apply list_elem_of_fmap. by exists (k, Some parent). }
  destruct (Hw k) as (rest & Hrest); [by rewrite Hget |].
  inversion Hrest as [|p q rest' Hp Hq Hwq]; subst.
  - congruence.
  - assert (q = parent) as -> by congruence.
    destruct (walk_key _ _ _ _ Hwq) as [->|]; [by rewrite H0 | done].
Qed.

(** [_string_tree] on a rooted tree whose keys are read back as the poses:
    the document, given fuel for the walk from the best goal node. *)
Lemma string_tree_doc (self : RRTStarBase) (start goal : PointHeading) :
  _start self = Some start -> _goal self = Some goal ->
  tree_ok (tree self) start -> NoDup (tree self).*1 ->
  (forall p, is_Some (dict_get (tree self) p) -> key_ok p) ->
  (forall b, _best_goal_node self = Some b -> is_Some (dict_get (tree self) b)) ->
  exists (k : nat) (best_cost : cost) (raw : list string),
    forall fuel, (k < fuel)%nat ->
      exists self1,
        _string_tree fuel self
        = Ok (checkpoint_doc start goal (_best_goal_node self) best_cost raw (tree self),
              self1).
Proof.
  intros Hs Hg Ht Hnd Hkeys Hbest. unfold checkpoint_doc.
  pose proof Ht as (H0 & Hr & Hw).
  assert (Hgraph : string_graph start (tree self) []
                   = Ok (map (graph_entry start) (tree self))).
  { rewrite string_graph_entries; [done | | | done].
    - intros e. by apply tree_ok_None_entry.
    - assert (E : map (fun e : PointHeading * option PointHeading => _str_key e.1)
                    (tree self) = _str_key <$> (tree self).*1)
        by (by rewrite <- list_fmap_compose).
      rewrite E. apply NoDup_fmap_2_strong; [| done].
      intros p q Hp Hq. apply key_ok_inj; apply Hkeys; by apply dict_get_is_Some_elem. }
  destruct (_best_goal_node self) as [b|] eqn:Eb.
  - destruct (Hw b (Hbest b eq_refl)) as (rest & Hrest).
    exists (length rest),
      (cost_add (sum_edges (_cost_from_parent self) (Fin 0) start rest).1
                (_cost_from_to b goal false false).1),
      (map _str_key ((start :: rest) ++ [goal])).
    intros fuel Hf.
    pose proof (cost_from_start_returns fuel self start b rest Hs Hrest Hf) as Ecost.
    eexists.
    unfold _string_tree. rewrite Hs. unfold require. rewrite bind_Ok, Hgraph, bind_Ok.
    rewrite Hg, bind_Ok, Eb, Ecost, !bind_Ok. cbv beta iota.
    unfold _get_best_path. simpl _best_goal_node. rewrite Eb.
    rewrite (get_path_to_start_total fuel _ start b rest) by done.
    rewrite bind_Ok. simpl _goal. rewrite Hg. unfold require. rewrite !bind_Ok.
    reflexivity.
  - exists 0%nat, (Fin (-1)), []. intros fuel _. exists self.
    unfold _string_tree. rewrite Hs. unfold require. rewrite bind_Ok, Hgraph, bind_Ok.
    rewrite Hg, bind_Ok, Eb, !bind_Ok. cbv beta iota.
    unfold _get_best_path. rewrite Eb, bind_Ok. reflexivity.
Qed.

(** [_load_tree_from_json] on the document of a rooted tree, into a planner
    as [__init__] leaves it: every entry but the root's is stored. *)
Lemma load_checkpoint_doc (new : RRTStarBase) (start goal : PointHeading)
    (best : option PointHeading) (best_cost : cost) (raw : list string)
    (t : list (PointHeading * option PointHeading))
    (path : string) (existing_jsons : list string) (n : Z) :
  tree_ok t start -> NoDup t.*1 ->
  (forall p, is_Some (dict_get t p) -> key_ok p) -> key_ok goal ->
  (forall b, best = Some b -> is_Some (dict_get t b)) ->
  tree new = [] -> _start new = None -> _goal new = None -> _best_goal_node new = None ->
  (x_min new = None \/ is_Some (y_min new)) ->
  get_num_iterations path = Ok n ->
  json_load path = Ok (checkpoint_doc start goal best best_cost raw t) ->
  exists new',
    _load_tree_from_json new (Some path) existing_jsons = Ok new' /\
    tree new' = non_root start t /\
    _start new' = Some start /\
    _goal new' = Some goal /\
    _best_goal_node new' = best /\
    _start_iteration new' = (n + 1)%Z.
Proof.
  intros Ht Hnd Hkeys Hkgoal Hbest Hnt Hns Hng Hnb Hoff Hnum Hload.
  pose proof Ht as (H0 & Hr & Hw).
  assert (Hkstart : key_ok start) by (apply Hkeys; by rewrite H0).
  assert (Ds : doc_get (checkpoint_doc start goal best best_cost raw t) "start"
               = Ok (JString (_str_key start))) by done.
  assert (Dg : doc_get (checkpoint_doc start goal best best_cost raw t) "goal"
               = Ok (JString (_str_key goal))) by done.
  assert (Di : doc_items (checkpoint_doc start goal best best_cost raw t) "graph"
               = Ok (map (graph_entry start) t)) by done.
  unfold _load_tree_from_json. rewrite bind_Ok, Hload, bind_Ok, Ds, bind_Ok.
  rewrite Hns. cbn [_str_to_pt_json]. rewrite Hkstart, !bind_Ok, Dg, bind_Ok.
  simpl _goal. rewrite Hng. cbn [_str_to_pt_json].
  rewrite Hkgoal, !bind_Ok. cbv zeta. rewrite Di, bind_Ok.
  simpl x_min.
  assert (Hn1 : exists new1,
            match x_min new with
            | Some _ => set_goal (set_start new (Some start)) (Some goal)
            | None =>
                set_offsets (set_goal (set_start new (Some start)) (Some goal))
                  (Some (_set_offsets (set_goal (set_start new (Some start)) (Some goal))).1)
                  (Some (_set_offsets (set_goal (set_start new (Some start)) (Some goal))).2)
            end = new1 /\
            _start new1 = Some start /\ _goal new1 = Some goal /\ tree new1 = []
            /\ _best_goal_node new1 = None /\ is_Some (x_min new1) /\ is_Some (y_min new1)).
  { destruct (x_min new) as [xm|] eqn:Ex.
    - eexists. split; [reflexivity |]. simpl. rewrite Ex.
      destruct Hoff as [|Hy]; [done |]. repeat split; eauto.
    - eexists. split; [reflexivity |]. simpl. repeat split; eauto. }
  destruct Hn1 as (new1 & -> & Hs1 & Hg1 & Ht1 & Hb1 & Hx1 & Hy1).
  destruct (load_graph_entries (checkpoint_doc start goal best best_cost raw t)
              start best t new1)
    as (new2 & Hgraph2 & Ht2 & Hs2 & Hg2 & Hi2 & Hb2); try done.
  - intros b Hb. by apply Hkeys, Hbest.
  - intros e He. apply Hkeys, dict_get_is_Some_elem, list_elem_of_fmap. by exists e.
  - intros [k0 v0] p He Hv. simpl in Hv. subst v0.
    apply Hkeys. by eapply tree_ok_parent_key.
  - intros e. by apply tree_ok_None_entry.
  - intros e _. by rewrite Ht1.
  - rewrite Hgraph2, bind_Ok, Hnum, bind_Ok. eexists. split; [reflexivity |].
    simpl. rewrite Ht2, Ht1, Hs2, Hs1, Hg2, Hg1, Hb2, Hb1. repeat (split; [done |]).
    split; [| done]. unfold best_after.
    destruct best as [b|] eqn:Eb; [| done].
    rewrite decide_True; [done |].
    destruct (Hbest b eq_refl) as [v E].
    apply dict_get_elem_of in E. apply list_elem_of_fmap. by eexists (b, _).
Qed.

(** Every document that [_string_tree] returns has the fields of the
    planner. *)
Lemma string_tree_doc_inv (self self1 : RRTStarBase) (start goal : PointHeading)
    (fuel : nat) (doc : list (string * json)) :
  _start self = Some start -> _goal self = Some goal ->
  tree_ok (tree self) start -> NoDup (tree self).*1 ->
  (forall p, is_Some (dict_get (tree self) p) -> key_ok p) ->
  _string_tree fuel self = Ok (doc, self1) ->
  exists (best_cost : cost) (raw : list string),
    doc = checkpoint_doc start goal (_best_goal_node self) best_cost raw (tree self).
Proof.
  intros Hs Hg Ht Hnd Hkeys. unfold checkpoint_doc.
  assert (Hgraph : string_graph start (tree self) []
                   = Ok (map (graph_entry start) (tree self))).
  { rewrite string_graph_entries; [done | | | done].
    - intros e. by apply tree_ok_None_entry.
    - assert (E : map (fun e : PointHeading * option PointHeading => _str_key e.1)
                    (tree self) = _str_key <$> (tree self).*1)
        by (by rewrite <- list_fmap_compose).
      rewrite E. apply NoDup_fmap_2_strong; [| done].
      intros p q Hp Hq. apply key_ok_inj; apply Hkeys; by apply dict_get_is_Some_elem. }
  unfold _string_tree. rewrite Hs. unfold require. rewrite bind_Ok, Hgraph, bind_Ok.
  rewrite Hg, bind_Ok.
  destruct (_best_goal_node self) as [b|] eqn:Eb.
  - destruct (_cost_from_start fuel self b) as [[c self']| |]; [| done | done].
    rewrite !bind_Ok. cbv beta iota.
    destruct (_get_best_path fuel self') as [path| |]; [| done | done].
    rewrite bind_Ok. intros [= <- <-]. by eexists _, _.
  - rewrite !bind_Ok. cbv beta iota.
    destruct (_get_best_path fuel self) as [path| |]; [| done | done].
    rewrite bind_Ok. intros [= <- <-]. by eexists _, _.
Qed.

(** C7, amended: for a planner whose tree is rooted at its start and
    whose pose keys are read back as the poses, [_string_tree] returns a
    document (given fuel for the walk from the best goal node), and
    [_load_tree_from_json] on a document that [_string_tree] returned turns
    a planner as [__init__] leaves it into one with the same start, goal
    and best goal node, and with the entries of the tree, in their order,
    but the root's: the entry of the start, which maps it to [None], is
    passed over. *)
Theorem checkpoint_round_trip (self new : RRTStarBase) (start goal : PointHeading)
    (path : string) (existing_jsons : list string) (n : Z) :
  _start self = Some start -> _goal self = Some goal ->
  tree_ok (tree self) start -> NoDup (tree self).*1 ->
  (forall p, is_Some (dict_get (tree self) p) -> key_ok p) -> key_ok goal ->
  (forall b, _best_goal_node self = Some b -> is_Some (dict_get (tree self) b)) ->
  tree new = [] -> _start new = None -> _goal new = None -> _best_goal_node new = None ->
  (x_min new = None \/ is_Some (y_min new)) ->
  get_num_iterations path = Ok n ->
  (exists k : nat, forall fuel, (k < fuel)%nat ->
     exists doc self1, _string_tree fuel self = Ok (doc, self1)) /\
  (forall fuel doc self1,
     _string_tree fuel self = Ok (doc, self1) ->
     json_load path = Ok doc ->
     exists new',
       _load_tree_from_json new (Some path) existing_jsons = Ok new' /\
       tree new' = non_root start (tree self) /\
       _start new' = Some start /\
       _goal new' = Some goal /\
       _best_goal_node new' = _best_goal_node self /\
       _start_iteration new' = (n + 1)%Z).
Proof.
  intros Hs Hg Ht Hnd Hkeys Hkgoal Hbest Hnt Hns Hng Hnb Hoff Hnum. split.
  - destruct (string_tree_doc self start goal Hs Hg Ht Hnd Hkeys Hbest)
      as (k & best_cost & raw & Hdoc).
    exists k. intros fuel Hf. destruct (Hdoc fuel Hf) as [self1 E]. eauto.
  - intros fuel doc self1 Hdoc Hload.
    destruct (string_tree_doc_inv self self1 start goal fuel doc Hs Hg Ht Hnd Hkeys Hdoc)
      as (best_cost & raw & ->).
    by eapply load_checkpoint_doc.
Qed.

(** ** Distances, steering and heading errors *)

Lemma euclid_2D_sq (p q : PointHeading) :
  _euclid_2D p q * _euclid_2D p q = (x p - x q) ^ 2 + (y p - y q) ^ 2.
Proof.
  unfold _euclid_2D. apply sqrt_sqrt.
  apply Rplus_le_le_0_compat; apply pow2_ge_0.
Qed.

Lemma euclid_2D_nonneg (p q : PointHeading) : 0 <= _euclid_2D p q.
Proof. apply sqrt_pos. Qed.

Lemma sq_sum_0 (u v : R) : u ^ 2 + v ^ 2 = 0 -> u = 0 /\ v = 0.
Proof.
  intros H.
  assert (0 <= u ^ 2) by apply pow2_ge_0. assert (0 <= v ^ 2) by apply pow2_ge_0.
  assert (Hu : u * u = 0) by lra. assert (Hv : v * v = 0) by lra.
  apply Rmult_integral in Hu, Hv. lra.
Qed.

Lemma sq_le_le (u v : R) : 0 <= u -> 0 <= v -> u * u <= v * v -> u <= v.
Proof.
  intros Hu Hv H. destruct (Rle_dec u v) as [|Hgt]; [done |]. apply Rnot_le_lt in Hgt.
  assert (v * v < u * u); [| lra]. apply Rmult_le_0_lt_compat; lra.
Qed.

Lemma norm_triangle (a b c ax ay bx by_ : R) :
  0 <= a -> 0 <= b -> 0 <= c ->
  a * a = ax ^ 2 + ay ^ 2 -> b * b = bx ^ 2 + by_ ^ 2 ->
  c * c = (ax + bx) ^ 2 + (ay + by_) ^ 2 ->
  c <= a + b.
Proof.
  intros Ha Hb Hc Sa Sb Sc.
  assert (Hcs : ax * bx + ay * by_ <= a * b).
  { destruct (Rle_dec (ax * bx + ay * by_) 0) as [Hn|Hp].
    { assert (0 <= a * b) by (by apply Rmult_le_pos). lra. }
    apply Rnot_le_lt in Hp. apply sq_le_le; [lra | by apply Rmult_le_pos |].
    replace ((a * b) * (a * b)) with ((a * a) * (b * b)) by ring. rewrite Sa, Sb.
    replace ((ax ^ 2 + ay ^ 2) * (bx ^ 2 + by_ ^ 2))
      with ((ax * bx + ay * by_) * (ax * bx + ay * by_)
            + (ax * by_ - ay * bx) * (ax * by_ - ay * bx)) by ring.
    pose proof (Rle_0_sqr (ax * by_ - ay * bx)) as Hq. unfold Rsqr in Hq. lra. }
  apply sq_le_le; [done | lra |].
  rewrite Sc. replace ((a + b) * (a + b)) with (a * a + b * b + 2 * (a * b)) by ring.
  rewrite Sa, Sb. replace ((ax + bx) ^ 2 + (ay + by_) ^ 2)
    with (ax ^ 2 + ay ^ 2 + (bx ^ 2 + by_ ^ 2) + 2 * (ax * bx + ay * by_)) by ring. lra.
Qed.

(** [_euclid_2D] is a distance on the positions [(x, y)]: it is symmetric
    and obeys the triangle inequality, and it is zero exactly between poses
    at one position, whatever their heights and headings. *)
Theorem euclid_2D_is_planar_distance (p q r : PointHeading) :
  0 <= _euclid_2D p q /\
  _euclid_2D p q = _euclid_2D q p /\
  (_euclid_2D p q = 0 <-> x p = x q /\ y p = y q) /\
  _euclid_2D p r <= _euclid_2D p q + _euclid_2D q r.
Proof.
  pose proof (euclid_2D_sq p q) as Spq.
  split; [apply euclid_2D_nonneg |]. split; [| split].
  - unfold _euclid_2D. f_equal. ring.
  - split.
    + intros E. rewrite E in Spq. symmetry in Spq. rewrite Rmult_0_l in Spq.
      apply sq_sum_0 in Spq. lra.
    + intros [Ex Ey]. unfold _euclid_2D. rewrite Ex, Ey.
      replace ((x q - x q) ^ 2 + (y q - y q) ^ 2) with 0 by ring. apply sqrt_0.
  - apply (norm_triangle _ _ _ (x p - x q) (y p - y q) (x q - x r) (y q - y r));
      try apply euclid_2D_nonneg; try apply euclid_2D_sq.
    rewrite euclid_2D_sq. ring.
Qed.

(** [_max_point] (for a nonnegative [_max_distance]): the pose it returns
    is never farther than [_max_distance] from [p1]; it is [p2], unmoved,
    when [p2] is that near, and else the pose at exactly [_max_distance]
    from [p1] on the segment to [p2], at the height of [p1]. *)
Theorem max_point_steers (self : RRTStarBase) (p1 p2 : PointHeading) :
  0 <= _max_distance self ->
  _euclid_2D p1 (_max_point self p1 p2).1 <= _max_distance self /\
  (_euclid_2D p1 p2 <= _max_distance self -> _max_point self p1 p2 = (p2, false)) /\
  (_max_distance self < _euclid_2D p1 p2 ->
   (_max_point self p1 p2).2 = true /\
   _euclid_2D p1 (_max_point self p1 p2).1 = _max_distance self /\
   _euclid_2D (_max_point self p1 p2).1 p2 = _euclid_2D p1 p2 - _max_distance self /\
   z (_max_point self p1 p2).1 = z p1).
Proof.
  intros Hm. set (m := _max_distance self) in *.
  pose proof (euclid_2D_sq p1 p2) as Hsq. set (d := _euclid_2D p1 p2) in *.
  assert (Hfar : m < d ->
            (_max_point self p1 p2).2 = true /\
            _euclid_2D p1 (_max_point self p1 p2).1 = m /\
            _euclid_2D (_max_point self p1 p2).1 p2 = d - m /\
            z (_max_point self p1 p2).1 = z p1).
  { intros Hd. unfold _max_point. fold d. fold m. rewrite decide_False by lra.
    cbn [fst snd]. split; [done |]. split; [| split; [| done]].
    - unfold _euclid_2D, new_PointHeading; cbn [x y].
      apply sqrt_lem_1; [apply Rplus_le_le_0_compat; apply pow2_ge_0 | done |].
      replace ((x p1 - (x p1 + (x p2 - x p1) * m / d)) ^ 2
               + (y p1 - (y p1 + (y p2 - y p1) * m / d)) ^ 2)
        with (((x p1 - x p2) ^ 2 + (y p1 - y p2) ^ 2) * (m / d) ^ 2) by (field; lra).
      rewrite <- Hsq. field. lra.
    - unfold _euclid_2D at 1, new_PointHeading; cbn [x y].
      apply sqrt_lem_1; [apply Rplus_le_le_0_compat; apply pow2_ge_0 | lra |].
      replace ((x p1 + (x p2 - x p1) * m / d - x p2) ^ 2
               + (y p1 + (y p2 - y p1) * m / d - y p2) ^ 2)
        with (((x p1 - x p2) ^ 2 + (y p1 - y p2) ^ 2) * (1 - m / d) ^ 2) by (field; lra).
      rewrite <- Hsq. field. lra. }
  split; [| split; [| done]].
  - destruct (Rle_dec d m) as [Hle|Hgt].
    + unfold _max_point. fold d. fold m. by rewrite decide_True.
    + destruct Hfar as (_ & -> & _); lra.
  - intros Hle. unfold _max_point. fold d. fold m. by rewrite decide_True.
Qed.

(** [_get_heading_error] between two headings of [(-PI, PI]]: it differs
    from [target - source] by a whole turn or by none, it lies in
    [[-PI, PI]], and it is zero exactly when the headings are equal. *)
Theorem heading_error_in_range (source target : R) :
  - PI < source <= PI -> - PI < target <= PI ->
  - PI <= _get_heading_error source target <= PI /\
  (exists k : Z, (-1 <= k <= 1)%Z /\
     _get_heading_error source target = target - source + 2 * PI * IZR k) /\
  (_get_heading_error source target = 0 <-> source = target).
Proof.
  intros Hs Ht. pose proof PI_RGT_0 as Hpi.
  unfold _get_heading_error, _validate_heading.
  destruct (decide (target - source > PI)) as [H1|H1].
  - split; [lra |]. split; [exists (-1)%Z; split; [lia | simpl; lra] |].
    split; intros; lra.
  - destruct (decide (target - source < - PI)) as [H2|H2].
    + split; [lra |]. split; [exists 1%Z; split; [lia | simpl; lra] |].
      split; intros; lra.
    + split; [lra |]. split; [exists 0%Z; split; [lia | simpl; lra] |].
      split; intros; lra.
Qed.

(** ** The grid hash: insertion, lookup and search *)

Section GridHashLookup.
Variables (xmin ymin near_threshold : R).

Local Abbreviation add := (add_to_grid_hash xmin ymin near_threshold).
Local Abbreviation near := (_get_near_pts xmin ymin near_threshold).
Local Abbreviation closest := (_closest_tree_pt xmin ymin near_threshold).

Lemma bucket_add_mono grid pt ij q :
  q ∈ bucket grid ij -> q ∈ bucket (add grid pt) ij.
Proof.
  intros H. rewrite bucket_add. destruct (decide _); [| done].
  apply elem_of_app. by left.
Qed.

Lemma near_pts_first_bucket grid (p q : PointHeading) :
  q ∈ bucket grid (cell_of xmin ymin near_threshold p) -> q ∈ near grid p.
Proof.
  intros H. unfold _get_near_pts. fold (cell_of xmin ymin near_threshold p).
  destruct (bool_decide _); destruct (bool_decide _);
    rewrite !elem_of_app; auto.
Qed.

(** A pose that [add_to_grid_hash] has stored is among the near points of
    its own position, and a later insertion takes no pose away from any
    query. *)
Theorem near_pts_after_add grid (pt p q : PointHeading) :
  pt ∈ near (add grid pt) pt /\
  (q ∈ near grid p -> q ∈ near (add grid pt) p).
Proof.
  split.
  - apply near_pts_first_bucket. rewrite bucket_add, decide_True by done.
    apply elem_of_app. right. apply list_elem_of_here.
  - unfold _get_near_pts.
    destruct (bool_decide _); destruct (bool_decide _);
      rewrite !elem_of_app; intros [[H|H]|[H|H]]; auto using bucket_add_mono.
Qed.

(** What [_get_near_pts] returns is stored in the grid hash, and lies in
    the block of four cells around the query: with poses filed under their
    own cells, less than a cell and a half away from the query along each
    axis. *)
Theorem near_pts_in_block grid (p q : PointHeading) :
  0 < near_threshold -> grid_ok xmin ymin near_threshold grid ->
  q ∈ near grid p ->
  stored grid q /\
  Rabs (x q - x p) < 1.5 * near_threshold /\
  Rabs (y q - y p) < 1.5 * near_threshold.
Proof.
  intros Hr Hok Hq. split; [by eapply near_pts_stored |].
  assert (Haxis : forall u v : R,
            (if bool_decide (pymod u near_threshold < near_threshold / 2)
             then floordiv v near_threshold = floordiv u near_threshold
                  \/ floordiv v near_threshold = (floordiv u near_threshold - 1)%Z
             else floordiv v near_threshold = floordiv u near_threshold
                  \/ floordiv v near_threshold = (floordiv u near_threshold + 1)%Z) ->
            Rabs (v - u) < 1.5 * near_threshold).
  { intros u v H.
    pose proof (floordiv_bounds u near_threshold Hr) as [Hu1 Hu2].
    pose proof (floordiv_bounds v near_threshold Hr) as [Hv1 Hv2].
    unfold pymod in H. fold (floordiv u near_threshold) in H.
    apply Rabs_def1; case_bool_decide; destruct H as [E|E]; rewrite E in Hv1, Hv2;
      rewrite ?minus_IZR, ?plus_IZR in Hv1, Hv2; nra. }
  assert (Hcell : forall a b, q ∈ bucket grid (a, b) ->
            floordiv (x q - xmin) near_threshold = a /\
            floordiv (y q - ymin) near_threshold = b).
  { intros a b H. apply Hok in H. unfold cell_of in H. by injection H. }
  replace (x q - x p) with ((x q - xmin) - (x p - xmin)) by lra.
  replace (y q - y p) with ((y q - ymin) - (y p - ymin)) by lra.
  unfold _get_near_pts in Hq.
  split; apply Haxis;
    destruct (bool_decide (pymod (x p - xmin) _ < _));
    destruct (bool_decide (pymod (y p - ymin) _ < _));
    rewrite !elem_of_app in Hq;
    destruct Hq as [[H|H]|[H|H]]; apply Hcell in H as [H1 H2]; auto.
Qed.

(** On a grid hash without poses the search of [_closest_tree_pt] goes
    from ring to ring and never returns.  The threshold is taken to be
    nonzero: at [0] the floor division of the first statement raises
    [ZeroDivisionError]. *)
Theorem closest_tree_pt_empty_never_returns grid (pt : PointHeading) :
  near_threshold <> 0 ->
  (forall ij, bucket grid ij = []) ->
  forall fuel, closest fuel grid pt = OutOfFuel.
Proof.
  intros _ Hempty fuel. unfold _closest_tree_pt.
  generalize 0%Z as count. induction fuel as [|fuel IH]; intros count; [done |].
  simpl.
  assert (E : flat_map (bucket grid)
                (ring (floordiv (x pt - xmin) near_threshold)
                      (floordiv (y pt - ymin) near_threshold) count) = []).
  { induction (ring _ _ count) as [|c l IHl]; [done |]. simpl. by rewrite Hempty, IHl. }
  rewrite E. apply IH.
Qed.

(** Where the query itself is stored (under its own cell), the first
    round of [_closest_tree_pt] ends the search, with a pose at the
    position of the query. *)
Theorem closest_tree_pt_of_stored grid (pt : PointHeading) :
  pt ∈ bucket grid (cell_of xmin ymin near_threshold pt) ->
  forall fuel, exists q,
    closest (S fuel) grid pt = Ok q /\ stored grid q /\ _euclid_2D pt q = 0.
Proof.
  intros Hpt fuel. unfold _closest_tree_pt. cbn [closest_loop].
  unfold ring. rewrite decide_False by lia. cbn [flat_map]. rewrite app_nil_r.
  fold (cell_of xmin ymin near_threshold pt).
  destruct (bucket grid (cell_of xmin ymin near_threshold pt)) as [|n ns] eqn:E;
    [by apply elem_of_nil in Hpt |].
  eexists. split; [reflexivity |].
  pose proof (min_by_in (fun q => _euclid_2D pt q) ns n) as Hin.
  pose proof (min_by_least (fun q => _euclid_2D pt q) ns n pt Hpt) as Hle.
  simpl in Hle. split.
  - exists (cell_of xmin ymin near_threshold pt). by rewrite E.
  - pose proof (euclid_2D_nonneg pt (min_by (fun q => _euclid_2D pt q) n ns)).
    assert (H0 : _euclid_2D pt pt = 0).
    { unfold _euclid_2D. replace ((x pt - x pt) ^ 2 + (y pt - y pt) ^ 2) with 0 by ring.
      apply sqrt_0. }
    lra.
Qed.

End GridHashLookup.

(** ** Paths to the start and their costs *)

Lemma walk_sub t start q rest p :
  walk t start q rest -> p ∈ rest ->
  exists rest', walk t start p rest' /\ (length rest' <= length rest)%nat.
Proof.
  induction 1 as [|p0 q0 rest0 Hp Hq Hw IH]; [by intros ?%elem_of_nil |].
  rewrite elem_of_app, list_elem_of_singleton, length_app. intros [Hin| ->].
  - destruct (IH Hin) as (rest' & Hw' & Hl). exists rest'. split; [done | lia].
  - exists (rest0 ++ [p0]). split; [by econstructor |]. by rewrite length_app.
Qed.

Lemma walk_nodup t start p rest : walk t start p rest -> NoDup (start :: rest).
Proof.
  induction 1 as [|p q rest Hp Hq Hw IH]; [apply NoDup_singleton |].
  change (start :: rest ++ [p]) with ((start :: rest) ++ [p]).
  apply NoDup_app. split; [done |]. split; [| apply NoDup_singleton].
  intros a Ha Hap. apply list_elem_of_singleton in Hap. subst a.
  apply elem_of_cons in Ha as [->|Ha]; [done |].
  destruct (walk_sub _ _ _ _ _ Hw Ha) as (rest' & Hw' & Hl).
  assert (E : rest' = rest ++ [p]) by (eapply walk_functional; [done | by econstructor]).
  rewrite E, length_app in Hl. simpl in Hl. lia.
Qed.

Lemma path_loop_inv_fuel t start fuel :
  forall p acc l,
    path_loop fuel t start p (p :: acc) = Ok l ->
    exists rest, walk t start p rest /\ l = start :: rest ++ acc /\ (length rest < fuel)%nat.
Proof.
  induction fuel as [|fuel IH]; intros p acc l; simpl; [done |].
  destruct (decide (p = start)) as [->|Hp].
  - intros [= <-]. exists []. split; [constructor |]. split; [done | simpl; lia].
  - destruct (dict_get t p) as [[q|]|] eqn:Hq; try done.
    intros H. apply IH in H as (rest & Hw & -> & Hl).
    exists (rest ++ [p]). split; [by econstructor |]. split; [by rewrite <- app_assoc |].
    rewrite length_app. simpl. lia.
Qed.

Lemma sum_edges_keeps l :
  forall cache total parent k v,
    dict_get cache k = Some v ->
    dict_get (sum_edges cache total parent l).2 k = Some v.
Proof using Type.
  induction l as [|child rest IH]; intros cache total parent k v Hk; simpl; [done |].
  destruct (dict_get cache child) as [c|] eqn:E; [by apply IH |].
  apply IH. rewrite dict_get_set_ne; [done |]. intros ->. congruence.
Qed.

Lemma sum_edges_other l :
  forall cache total parent k,
    k ∉ l -> dict_get (sum_edges cache total parent l).2 k = dict_get cache k.
Proof using Type.
  induction l as [|child rest IH]; intros cache total parent k Hk; simpl; [done |].
  apply not_elem_of_cons in Hk as [Hne Hk].
  destruct (dict_get cache child) as [c|] eqn:E; [by apply IH |].
  rewrite IH by done. by apply dict_get_set_ne.
Qed.

Lemma sum_edges_caches l :
  forall cache total parent k,
    k ∈ l -> is_Some (dict_get (sum_edges cache total parent l).2 k).
Proof using Type.
  induction l as [|child rest IH]; intros cache total parent k Hk; simpl;
    [by apply elem_of_nil in Hk |].
  apply elem_of_cons in Hk as [->|Hk].
  - destruct (dict_get cache child) as [c|] eqn:E.
    + rewrite (sum_edges_keeps _ _ _ _ _ _ E). eauto.
    + erewrite sum_edges_keeps; [eauto |]. apply dict_get_set_eq.
  - destruct (dict_get cache child) as [c|] eqn:E; by apply IH.
Qed.

Lemma sum_edges_app l1 l2 :
  forall cache total parent,
    sum_edges cache total parent (l1 ++ l2)
    = sum_edges (sum_edges cache total parent l1).2 (sum_edges cache total parent l1).1
        (default parent (last l1)) l2.
Proof using Type.
  induction l1 as [|child rest IH]; intros cache total parent; simpl; [done |].
  destruct (dict_get cache child) as [c|] eqn:E; rewrite IH, last_cons;
    by destruct (last rest).
Qed.

Lemma sum_edges_memo l :
  forall cache total parent,
    sum_edges (sum_edges cache total parent l).2 total parent l
    = sum_edges cache total parent l.
Proof using Type.
  induction l as [|child rest IH]; intros cache total parent; simpl; [done |].
  destruct (dict_get cache child) as [c|] eqn:E.
  - rewrite (sum_edges_keeps _ _ _ _ _ _ E). apply IH.
  - set (c := (_cost_from_to parent child false true).1).
    rewrite (sum_edges_keeps rest (dict_set cache child c) _ _ child c)
      by apply dict_get_set_eq.
    apply IH.
Qed.

(** What [_cost_from_start] returns on a planner whose start is set: the
    path it summed has the fields of [_get_path_to_start], the tree is as
    it was, the cache keeps every cost it held and holds a cost for every
    pose of the path below the start; a second call returns the same cost
    and changes nothing. *)
Theorem cost_from_start_is_memoised fuel (self self1 : RRTStarBase) start p c :
  _start self = Some start ->
  _cost_from_start fuel self p = Ok (c, self1) ->
  tree self1 = tree self /\
  (forall q v, dict_get (_cost_from_parent self) q = Some v ->
               dict_get (_cost_from_parent self1) q = Some v) /\
  (forall path q, _get_path_to_start fuel self p = Ok path -> q ∈ path -> q <> start ->
                  is_Some (dict_get (_cost_from_parent self1) q)) /\
  _cost_from_start fuel self1 p = Ok (c, self1).
Proof using Type.
  intros Hs. unfold _cost_from_start, _get_path_to_start. rewrite Hs. cbn.
  destruct (path_loop fuel (tree self) start p [p]) as [l| |] eqn:Hl; cbn; try done.
  pose proof Hl as Hl'. apply path_loop_inv_fuel in Hl' as (rest & Hw & -> & Hf).
  rewrite app_nil_r in *.
  destruct (sum_edges (_cost_from_parent self) (Fin 0) start rest) as [c0 cache'] eqn:E.
  intros [= <- <-]. cbn. rewrite Hs. cbn. rewrite Hl. cbn.
  split; [done |]. split; [| split].
  - intros q v Hq. pose proof (sum_edges_keeps rest _ (Fin 0) start q v Hq) as H.
    by rewrite E in H.
  - intros path q [= <-] Hq Hne. apply elem_of_cons in Hq as [->|Hq]; [done |].
    pose proof (sum_edges_caches rest (_cost_from_parent self) (Fin 0) start q Hq) as H.
    by rewrite E in H.
  - pose proof (sum_edges_memo rest (_cost_from_parent self) (Fin 0) start) as H.
    rewrite E in H. cbn in H. by rewrite H.
Qed.

(** [_get_path_to_start] on a planner whose start is set: the path it
    returns leads from the start to the pose, each pose after the first is
    a key of the tree and the pose before it is its parent, and no pose
    comes twice; at the start the path is the start alone, and a pose that
    is no key of the tree ends in a [KeyError]. *)
Theorem get_path_to_start_follows_parents fuel (self : RRTStarBase) start pt :
  _start self = Some start ->
  (forall path, _get_path_to_start fuel self pt = Ok path ->
     exists rest, path = start :: rest /\ last path = Some pt /\
                  chain (tree self) start rest /\ NoDup path /\
                  (length rest < fuel)%nat) /\
  _get_path_to_start (S fuel) self start = Ok [start] /\
  (pt <> start -> dict_get (tree self) pt = None ->
   _get_path_to_start (S fuel) self pt = Raise TreeKeyError).
Proof.
  intros Hs. unfold _get_path_to_start. rewrite Hs. cbn. split; [| split].
  - intros path H. apply path_loop_inv_fuel in H as (rest & Hw & -> & Hf).
    rewrite app_nil_r. exists rest. split; [done |]. split; [| split; [| split]].
    + pose proof (walk_last _ _ _ _ Hw) as Hlast. rewrite last_cons.
      destruct (last rest); simpl in Hlast; by subst.
    + by eapply walk_chain.
    + by eapply walk_nodup.
    + done.
  - by rewrite decide_True.
  - intros Hne Hnone. by rewrite decide_False, Hnone.
Qed.

(** The cost from the start adds up along the parent links: it is [0] at
    the start, and for a pose below the start the cost of its parent plus
    the cost of the edge between them, as cached or else as the cost model
    gives it. *)
Theorem cost_from_start_adds_edges fuel (self self1 : RRTStarBase) start p q cq :
  _start self = Some start ->
  (exists self0, _cost_from_start (S fuel) self start = Ok (Fin 0, self0) /\
                 _cost_from_parent self0 = _cost_from_parent self) /\
  (p <> start -> dict_get (tree self) p = Some (Some q) ->
   _cost_from_start fuel self q = Ok (cq, self1) ->
   exists self2,
     _cost_from_start (S fuel) self p
     = Ok (cost_add cq (edge_cost (_cost_from_parent self) q p), self2)).
Proof using Type.
  intros Hs. split.
  - eexists. unfold _cost_from_start, _get_path_to_start. rewrite Hs. cbn.
    rewrite decide_True by done. cbn. split; reflexivity.
  - intros Hne Hq. unfold _cost_from_start at 1, _get_path_to_start. rewrite Hs. cbn.
    destruct (path_loop fuel (tree self) start q [q]) as [l| |] eqn:Hl; cbn; try done.
    apply path_loop_inv_fuel in Hl as (rest & Hw & -> & Hf). rewrite app_nil_r.
    destruct (sum_edges (_cost_from_parent self) (Fin 0) start rest) as [c0 cache'] eqn:E.
    intros [= <- <-].
    assert (Hwp : walk (tree self) start p (rest ++ [p])) by (by econstructor).
    rewrite (cost_from_start_returns (S fuel) self start p (rest ++ [p]) Hs Hwp)
      by (rewrite length_app; simpl; lia).
    eexists. f_equal. f_equal.
    rewrite sum_edges_app, E. cbn [fst snd sum_edges].
    assert (Hfresh : dict_get cache' p = dict_get (_cost_from_parent self) p).
    { pose proof (sum_edges_other rest (_cost_from_parent self) (Fin 0) start p) as H.
      rewrite E in H. apply H. intros Hin.
      pose proof (walk_nodup _ _ _ _ Hwp) as Hnd.
      apply NoDup_cons in Hnd as [_ Hnd]. apply NoDup_app in Hnd as (_ & Hnd & _).
      apply (Hnd p Hin). apply list_elem_of_here. }
    rewrite (walk_last _ _ _ _ Hw). unfold edge_cost. rewrite Hfresh.
    by destruct (dict_get (_cost_from_parent self) p).
Qed.

(** ** Choosing the parent, inserting and rewiring *)

Lemma cost_lt_trans (a b c : cost) : cost_lt a b -> cost_lt b c -> cost_lt a c.
Proof. destruct a, b, c; simpl; try done; lra. Qed.

Lemma cost_lt_le_trans (a b c : cost) : cost_lt a b -> cost_le b c -> cost_lt a c.
Proof. destruct a, b, c; simpl; try done; lra. Qed.

Lemma cost_not_lt_le (a b : cost) : ~ cost_lt a b -> cost_le b a.
Proof. destruct a, b; simpl; try done; try lra; try tauto. Qed.

Lemma cost_from_start_state fuel (self self' : RRTStarBase) p c :
  _cost_from_start fuel self p = Ok (c, self') ->
  exists cache, self' = set_cost_from_parent self cache.
Proof using Type.
  unfold _cost_from_start.
  destruct (_get_path_to_start fuel self p) as [[|first rest]| |]; cbn; try done.
  - intros [= _ <-]. exists (_cost_from_parent self). by destruct self.
  - destruct (sum_edges _ _ _ _) as [total cache]. intros [= _ <-]. by exists cache.
Qed.

Lemma sum_edges_agree t rest :
  forall parent cache total,
    chain t parent rest ->
    (sum_edges cache total parent rest).1 = walk_cost cache total parent rest /\
    cache_agree t cache (sum_edges cache total parent rest).2.
Proof using Type.
  induction rest as [|child rest IH]; intros parent cache total; simpl.
  - intros _. split; [done | apply cache_agree_refl].
  - intros [H1 H2]. unfold edge_cost at 1.
    destruct (dict_get cache child) as [c|] eqn:E; [by apply IH |].
    set (c := (_cost_from_to parent child false true).1).
    assert (Ha : cache_agree t cache (dict_set cache child c)).
    { intros child' parent' H'. unfold edge_cost. rewrite dict_get_set.
      destruct (decide (child = child')) as [<-|]; [| done].
      rewrite E. assert (parent' = parent) as -> by congruence. done. }
    destruct (IH child (dict_set cache child c) (cost_add total c) H2) as [Hs Hag].
    split.
    + rewrite Hs. by apply (walk_cost_agree t).
    + by eapply cache_agree_trans.
Qed.

Lemma path_cost_agree t cache cache' start p c :
  cache_agree t cache cache' ->
  path_cost t cache' start p c <-> path_cost t cache start p c.
Proof using Type.
  intros Ha. split; intros (rest & Hw & <-); exists rest.
  - split; [exact Hw |]. symmetry.
    apply walk_cost_agree with (t := t); [by eapply walk_chain | done].
  - split; [exact Hw |].
    apply walk_cost_agree with (t := t); [by eapply walk_chain | done].
Qed.

Lemma cost_from_start_path_cost fuel (self self' : RRTStarBase) start p c :
  _start self = Some start ->
  _cost_from_start fuel self p = Ok (c, self') ->
  path_cost (tree self) (_cost_from_parent self) start p c /\
  exists cache',
    self' = set_cost_from_parent self cache' /\
    cache_agree (tree self) (_cost_from_parent self) cache'.
Proof using Type.
  intros Hs. unfold _cost_from_start, _get_path_to_start. rewrite Hs. cbn.
  destruct (path_loop fuel (tree self) start p [p]) as [l| |] eqn:Hl; cbn; try done.
  apply path_loop_inv in Hl as (rest & Hw & ->). rewrite app_nil_r.
  destruct (sum_edges_agree (tree self) rest start (_cost_from_parent self) (Fin 0))
    as [E1 E2]; [by eapply walk_chain |].
  destruct (sum_edges _ _ _ _) as [total cache']. simpl in E1, E2. intros [= <- <-].
  split; [by exists rest |]. by exists cache'.
Qed.

Lemma choose_parent_gen rand_pt t cache0 start nodes :
  forall fuel self idx mc best mc' best' self',
    _start self = Some start -> tree self = t ->
    cache_agree t cache0 (_cost_from_parent self) ->
    choose_parent fuel self rand_pt nodes idx mc best = Ok (mc', best', self') ->
    (exists cache', self' = set_cost_from_parent self cache' /\
                    cache_agree t cache0 cache') /\
    cost_le mc' mc /\
    (forall pt, pt ∈ nodes ->
       exists c, path_cost t cache0 start pt c /\
                 cost_le mc' (cost_add c (_cost_from_to pt rand_pt true false).1)) /\
    ((best' = best /\ mc' = mc) \/
     exists h i c pt cs,
       best' = Some (h, i, c) /\ (idx <= i)%nat /\ nodes !! (i - idx)%nat = Some pt /\
       _cost_from_to pt rand_pt true false = (c, h) /\
       path_cost t cache0 start pt cs /\ mc' = cost_add cs c /\ cost_lt mc' mc /\
       forall k pk, (k < i - idx)%nat -> nodes !! k = Some pk ->
         exists ck, path_cost t cache0 start pk ck /\
                    cost_lt mc' (cost_add ck (_cost_from_to pk rand_pt true false).1)).
Proof using Type.
  induction nodes as [|pt rest IH]; intros fuel self idx mc best mc' best' self' Hs Ht Ha;
    simpl.
  - intros [= <- <- <-]. split.
    { exists (_cost_from_parent self). split; [by destruct self | done]. }
    split; [apply cost_le_refl |]. split; [by intros ? ?%elem_of_nil |]. by left.
  - destruct (_cost_from_to pt rand_pt true false) as [cfp h] eqn:Ecost.
    destruct (_cost_from_start fuel self pt) as [[cs self1]| |] eqn:E1; cbn; try done.
    destruct (cost_from_start_path_cost _ _ _ _ _ _ Hs E1) as (Hpc & cache1 & -> & Ha1).
    rewrite Ht in Hpc, Ha1.
    apply (path_cost_agree t cache0 _ start pt cs Ha) in Hpc.
    assert (Ha' : cache_agree t cache0 cache1) by (by eapply cache_agree_trans).
    destruct (decide (cost_lt (cost_add cs cfp) mc)) as [Hlt|Hnlt]; intros H;
      apply (IH fuel (set_cost_from_parent self cache1) _ _ _ _ _ _ Hs Ht Ha') in H
        as ((cache' & -> & Hag) & Hle & Hall & Hbest).
    + split; [by exists cache' |].
      split; [eapply cost_le_trans; [done | by apply cost_lt_le] |].
      split.
      { intros q [->|Hq]%elem_of_cons; [| by apply Hall].
        exists cs. rewrite Ecost. done. }
      right. destruct Hbest as [[-> ->]|(h' & i & c' & pt' & cs' & -> & Hi & Hl & Hc & Hp & -> & Hlt' & Hbefore)].
      * exists h, idx, cfp, pt, cs. replace (idx - idx)%nat with 0%nat by lia.
        repeat (split; [done |]). intros k pk Hk. lia.
      * exists h', i, c', pt', cs'. split; [done |]. split; [lia |].
        replace (i - idx)%nat with (S (i - S idx)) by lia.
        repeat (split; [done |]). split; [by eapply cost_lt_trans |].
        intros [|k] pk Hk Hpk.
        -- injection Hpk as <-. exists cs. rewrite Ecost. done.
        -- apply (Hbefore k); [lia | done].
    + split; [by exists cache' |]. split; [done |].
      split.
      { intros q [->|Hq]%elem_of_cons; [| by apply Hall].
        exists cs. rewrite Ecost. split; [done |].
        eapply cost_le_trans; [done |]. by apply cost_not_lt_le. }
      destruct Hbest as [[-> ->]|(h' & i & c' & pt' & cs' & -> & Hi & Hl & Hc & Hp & -> & Hlt' & Hbefore)];
        [by left |].
      right. exists h', i, c', pt', cs'. split; [done |]. split; [lia |].
      replace (i - idx)%nat with (S (i - S idx)) by lia.
      repeat (split; [done |]).
      intros [|k] pk Hk Hpk.
      * injection Hpk as <-. exists cs. rewrite Ecost. split; [done |].
        eapply cost_lt_le_trans; [done |]. by apply cost_not_lt_le.
      * apply (Hbefore k); [lia | done].
Qed.

(** "Find best parent": the loop over the valid neighbours leaves the
    tree as it is, its least cost is at most the cost from the start
    through any neighbour, and the neighbour it names is the first one
    through which that cost is least; it names none only when every such
    cost is [+inf]. *)
Theorem choose_parent_picks_cheapest fuel (self self' : RRTStarBase) start rand_pt nodes
    mc best :
  _start self = Some start ->
  choose_parent fuel self rand_pt nodes 0 Inf None = Ok (mc, best, self') ->
  tree self' = tree self /\
  (forall pt, pt ∈ nodes ->
     exists c, path_cost (tree self) (_cost_from_parent self) start pt c /\
               cost_le mc (cost_add c (_cost_from_to pt rand_pt true false).1)) /\
  match best with
  | None => mc = Inf
  | Some (h, i, c) =>
      exists pt cs,
        nodes !! i = Some pt /\ _cost_from_to pt rand_pt true false = (c, h) /\
        path_cost (tree self) (_cost_from_parent self) start pt cs /\
        mc = cost_add cs c /\ cost_lt mc Inf /\
        forall k pk, (k < i)%nat -> nodes !! k = Some pk ->
          exists ck, path_cost (tree self) (_cost_from_parent self) start pk ck /\
                     cost_lt mc (cost_add ck (_cost_from_to pk rand_pt true false).1)
  end.
Proof using Type.
  intros Hs H.
  apply (choose_parent_gen rand_pt (tree self) (_cost_from_parent self) start) in H
    as ((cache' & -> & _) & _ & Hall & Hbest); [| done | done | apply cache_agree_refl].
  split; [done |]. split; [done |].
  destruct Hbest as [[-> ->]|(h & i & c & pt & cs & -> & _ & Hl & Hc & Hp & -> & Hlt & Hb)];
    [done |].
  rewrite Nat.sub_0_r in Hl. exists pt, cs. repeat (split; [done |]).
  intros k pk Hk. apply Hb. lia.
Qed.

Lemma rewire_step_effect fuel (self self' : RRTStarBase) start rand_pt pt :
  _start self = Some start ->
  rewire_step fuel self rand_pt pt = Ok self' ->
  _start self' = Some start /\ grid_hash self' = grid_hash self /\
  _best_goal_node self' = _best_goal_node self /\
  (tree self' = tree self \/
   (pt <> start /\ tree self' = dict_set (tree self) pt (Some rand_pt))).
Proof using Type.
  intros Hs. unfold rewire_step. rewrite Hs. cbn.
  destruct (decide (pt = start)) as [->|Hne]; [intros [= <-]; auto |].
  destruct (_cost_from_start fuel self rand_pt) as [[c1 self1]| |] eqn:E1; cbn; try done.
  apply cost_from_start_state in E1 as [cache1 ->].
  destruct (_cost_from_start fuel _ pt) as [[c2 self2]| |] eqn:E2; cbn; try done.
  apply cost_from_start_state in E2 as [cache2 ->].
  destruct (bool_decide _ && _); intros [= <-]; simpl; auto 10.
Qed.

(** The rewiring loop changes parents only: every entry of the tree is
    as it was or belongs to one of the nodes at hand and now names the new
    node as parent; the entry of the start, the grid hash and the best goal
    node are as they were. *)
Theorem rewire_only_reparents fuel (self self' : RRTStarBase) start rand_pt nodes :
  _start self = Some start ->
  rewire fuel self rand_pt nodes = Ok self' ->
  dict_get (tree self') start = dict_get (tree self) start /\
  (forall p, dict_get (tree self') p = dict_get (tree self) p \/
             (p ∈ nodes /\ dict_get (tree self') p = Some (Some rand_pt))) /\
  grid_hash self' = grid_hash self /\
  _best_goal_node self' = _best_goal_node self.
Proof using Type.
  revert self. induction nodes as [|pt rest IH]; intros self Hs; simpl.
  - intros [= <-]. auto.
  - destruct (rewire_step fuel self rand_pt pt) as [self1| |] eqn:E; cbn; try done.
    apply (rewire_step_effect _ _ _ _ _ _ Hs) in E as (Hs1 & Hg1 & Hb1 & Ht1).
    intros H. apply (IH _ Hs1) in H as (H0 & Hall & Hg & Hb).
    assert (Hstart : dict_get (tree self1) start = dict_get (tree self) start).
    { destruct Ht1 as [->|[Hne ->]]; [done |]. by apply dict_get_set_ne. }
    split; [congruence |]. split; [| split; congruence].
    intros p. destruct (Hall p) as [Hp|[Hin Hp]].
    + rewrite Hp. destruct Ht1 as [->|[Hne ->]]; [by left |].
      rewrite dict_get_set. destruct (decide (pt = p)) as [<-|]; [| by left].
      right. split; [apply list_elem_of_here | done].
    + right. split; [by apply list_elem_of_further | done].
Qed.

Lemma rewire_entries fuel (self self' : RRTStarBase) start rand_pt nodes :
  _start self = Some start ->
  rewire fuel self rand_pt nodes = Ok self' ->
  (forall p, p ∉ nodes -> dict_get (tree self') p = dict_get (tree self) p) /\
  grid_hash self' = grid_hash self.
Proof using Type.
  revert self. induction nodes as [|pt rest IH]; intros self Hs; simpl.
  - intros [= <-]. auto.
  - destruct (rewire_step fuel self rand_pt pt) as [self1| |] eqn:E; cbn; try done.
    apply (rewire_step_effect _ _ _ _ _ _ Hs) in E as (Hs1 & Hg1 & _ & Ht1).
    intros H. apply (IH _ Hs1) in H as (Hkeep & Hg). split; [| congruence].
    intros p [Hne Hp]%not_elem_of_cons. rewrite Hkeep by done.
    destruct Ht1 as [->|[_ ->]]; [done |]. by apply dict_get_set_ne.
Qed.

Lemma elem_of_delete_inv {A : Type} (l : list A) (i : nat) (a : A) :
  a ∈ delete i l -> a ∈ l.
Proof.
  revert i. induction l as [|b l IH]; intros [|i]; simpl; rewrite ?elem_of_cons; auto.
  intros [->|H]; eauto.
Qed.

(** A sample that [connect] has inserted is in the tree below one of
    its valid neighbours (a stored pose nearer than [near_threshold], at
    another position, from which the path exists), with the heading that
    the cost model gives on arrival from it, and it is stored in the grid
    hash; the rewiring that follows leaves that entry alone. *)
Theorem connect_inserts_below_neighbour fuel (self self' : RRTStarBase) start xm ym rand_pt :
  _start self = Some start -> x_min self = Some xm -> y_min self = Some ym ->
  connect fuel self rand_pt = Ok (Some self') ->
  exists parent,
    let new_pt := set_heading rand_pt (_cost_from_to parent rand_pt true false).2 in
    parent ∈ valid_neighbors self xm ym rand_pt /\
    stored (grid_hash self) parent /\
    _euclid_2D rand_pt parent < _near_threshold self /\
    (x rand_pt, y rand_pt) <> (x parent, y parent) /\
    _path_exists parent rand_pt = true /\
    dict_get (tree self') new_pt = Some (Some parent) /\
    stored (grid_hash self') new_pt.
Proof using Type.
  intros Hs Hx Hy. unfold connect. rewrite Hx, Hy. cbn.
  destruct (valid_neighbors self xm ym rand_pt) as [|n0 ns] eqn:En; [done |].
  destruct (choose_parent fuel self rand_pt (n0 :: ns) 0 Inf None)
    as [[[mc best] self1]| |] eqn:Ec; cbn; try done.
  destruct (choose_parent_gen rand_pt (tree self) (_cost_from_parent self) start _ _ _ _ _ _
              _ _ _ Hs eq_refl (cache_agree_refl _ _) Ec)
    as ((cache1 & -> & _) & _ & _ & Hbest).
  destruct mc as [mc|]; [| done].
  destruct Hbest as [[-> _]|(h & i & c & pt & cs & -> & _ & Hl & Hc & _)]; [done |].
  rewrite Nat.sub_0_r in Hl. rewrite Hl.
  destruct (rewire fuel _ (set_heading rand_pt h) (delete i (n0 :: ns))) as [self2| |] eqn:Er;
    cbn; try done.
  intros [= <-].
  apply (rewire_entries _ _ _ start) in Er as (Hkeep & Hg); [| done].
  assert (Hin : pt ∈ valid_neighbors self xm ym rand_pt).
  { rewrite En. by eapply list_elem_of_lookup_2. }
  pose proof Hin as Hv. unfold valid_neighbors in Hv.
  apply list_elem_of_filter in Hv as [(Hd & Hxy & Hp) Hnear].
  exists pt. cbv zeta. rewrite Hc. cbn [snd]. split; [by rewrite <- En |].
  split; [by eapply near_pts_stored |]. repeat (split; [done |]). split.
  - rewrite Hkeep; [simpl; apply dict_get_set_eq |].
    intros Hmem. assert (Hmem' : set_heading rand_pt h ∈ valid_neighbors self xm ym rand_pt).
    { rewrite En. by eapply elem_of_delete_inv. }
    unfold valid_neighbors in Hmem'. apply list_elem_of_filter in Hmem' as [(_ & Hsame & _) _].
    by apply Hsame.
  - rewrite Hg. simpl. apply stored_add.
Qed.

(** ** The tree stays rooted while the inserted poses are new *)



(** ** The prologue of [generate_tree], pose keys and the choice of the checkpoint *)

(** The first statements of [generate_tree] on a planner as [__init__]
    returns it, with a threshold that is not zero (at [0], which [__init__]
    accepts together with a step of [0], [add_to_grid_hash] raises
    [ZeroDivisionError]): the tree holds the start alone, mapped to [None],
    the cost cache holds the start with cost [0], the grid hash stores the
    start, and the state is one that the loop keeps ([planner_ok]). *)
Theorem generate_tree_prologue_roots_tree
    (v w near_threshold max_distance : R) (directory : option string) (self : RRTStarBase)
    (start_position goal_position : R * R * R) (start_heading : R) (offsets : R * R) :
  RRTStarBase_init v w near_threshold max_distance directory = Ok self ->
  near_threshold <> 0 ->
  let self' := root_tree self start_position start_heading goal_position offsets in
  exists start,
    _start self' = Some start /\ is_Some (_goal self') /\
    tree self' = [(start, None)] /\
    _cost_from_parent self' = [(start, Fin 0)] /\
    (forall q, stored (grid_hash self') q <-> q = start) /\
    planner_ok self'.
Proof using Type.
  unfold RRTStarBase_init. destruct (decide _); [| done]. intros [= <-] _.
  destruct start_position as [[sx sz] sy], goal_position as [[gx gz] gy].
  cbv zeta. exists (new_PointHeading sx sz sy start_heading).
  set (start := new_PointHeading sx sz sy start_heading).
  assert (Hstored : forall q,
            stored (add_to_grid_hash offsets.1 offsets.2 near_threshold ∅ start) q
            <-> q = start).
  { intros q. split; [| intros ->; apply stored_add].
    intros [H|[ij H]]%stored_add_inv; [done |].
    unfold bucket in H. rewrite lookup_empty in H. by apply elem_of_nil in H. }
  split; [done |]. split; [by eexists |]. split; [done |]. split; [done |].
  split; [exact Hstored |].
  exists start, offsets.1, offsets.2. repeat (split; [done |]). split; [| split].
  - split; [| split].
    + simpl. by rewrite decide_True.
    + reflexivity.
    + intros p. destruct (decide (start = p)) as [<-|Hne].
      * intros _. exists []. constructor.
      * simpl. rewrite decide_False by done. by intros [? ?].
  - intros q Hq. apply Hstored in Hq as ->. simpl. rewrite decide_True by done. eauto.
  - intros p c. destruct (decide (start = p)) as [<-|Hne]; simpl.
    + rewrite decide_True by done. intros [= <-]. unfold cost_nonneg. simpl. lra.
    + by rewrite decide_False.
Qed.

Lemma split_on_length (sep : ascii) (s : string) :
  forall word, length (split_on sep word s) = S (count_char sep s).
Proof.
  induction s as [|a s IH]; intros word; simpl; [done |].
  destruct (decide (a = sep)); simpl; by rewrite IH.
Qed.

(** [_str_to_pt] needs exactly four fields: a key that does not hold
    exactly three underscores ends in the [ValueError] of the unpacking,
    before any field is parsed. *)
Theorem str_to_pt_needs_four_fields (pt_str : string) :
  count_char "_"%char pt_str <> 3%nat -> _str_to_pt pt_str = Raise ValueError.
Proof.
  intros Hc. unfold _str_to_pt.
  pose proof (split_on_length "_"%char pt_str []) as Hl.
  destruct (split_on "_"%char [] pt_str) as [|sx [|sy [|sz [|sh [|? ?]]]]]; try done.
  simpl in Hl. congruence.
Qed.

Lemma latest_json_total paths :
  Forall (fun q : string => exists m, get_num_iterations q = Ok m) paths ->
  forall best, exists p : string, latest_json best paths = Ok p.
Proof using Type.
  induction 1 as [|path rest [k Hk] _ IH]; intros best; simpl; [eauto |].
  rewrite Hk. cbn. destruct (decide _); apply IH.
Qed.

Lemma latest_json_split paths :
  forall k0 path0 (p : string),
    get_num_iterations path0 = Ok k0 ->
    latest_json (k0, path0) paths = Ok p ->
    exists n l1 l2,
      path0 :: paths = l1 ++ p :: l2 /\ get_num_iterations p = Ok n /\
      (forall (q : string) m, q ∈ l1 -> get_num_iterations q = Ok m -> (m <= n)%Z) /\
      (forall (q : string) m, q ∈ l2 -> get_num_iterations q = Ok m -> (m < n)%Z).
Proof using Type.
  induction paths as [|path rest IH]; intros k0 path0 p H0; simpl.
  - intros [= <-]. exists k0, [], []. split; [done |]. split; [done |].
    split; intros q m Hq; by apply elem_of_nil in Hq.
  - destruct (get_num_iterations path) as [k| |] eqn:Ek; cbn; try done.
    destruct (decide (k0 <= k)%Z) as [Hle|Hgt]; intros H; simpl in H.
    + apply (IH _ _ _ Ek) in H as (n & l1 & l2 & Hsplit & Hp & H1 & H2).
      assert (Hk : (k <= n)%Z).
      { destruct l1 as [|a l1]; simpl in Hsplit; injection Hsplit as <- _.
        - assert (n = k) by congruence. lia.
        - apply (H1 path k); [apply list_elem_of_here | done]. }
      exists n, (path0 :: l1), l2. split; [by rewrite Hsplit |]. split; [done |].
      split; [| done].
      intros q m [->|Hq]%elem_of_cons Hm; [| by eapply H1].
      assert (m = k0) by congruence. lia.
    + apply (IH _ _ _ H0) in H as (n & l1 & l2 & Hsplit & Hp & H1 & H2).
      destruct l1 as [|a l1]; simpl in Hsplit; injection Hsplit as <- Hrest.
      * assert (n = k0) by congruence. subst n.
        exists k0, [], (path :: l2). split; [by rewrite Hrest |]. split; [done |].
        split; [intros q m Hq; by apply elem_of_nil in Hq |].
        intros q m [->|Hq]%elem_of_cons Hm; [| by eapply H2].
        assert (m = k) by congruence. lia.
      * assert (Hk0 : (k0 <= n)%Z) by (apply (H1 path0 k0); [apply list_elem_of_here | done]).
        exists n, (path0 :: path :: l1), l2. split; [by rewrite Hrest |]. split; [done |].
        split; [| done].
        intros q m Hq Hm. apply elem_of_cons in Hq as [->|Hq]; [by eapply H1; [apply list_elem_of_here|] |].
        apply elem_of_cons in Hq as [->|Hq].
        -- assert (m = k) by congruence. lia.
        -- apply (H1 q m); [by apply list_elem_of_further | done].
Qed.

(** Without a [json_path], a planner with a directory loads the
    checkpoint with the greatest iteration number among the files found,
    and among several with that number the last one in the order of
    [glob.glob]. *)
Theorem load_picks_latest_checkpoint (self : RRTStarBase) (path0 : string)
    (paths : list string) :
  is_Some (_directory self) ->
  Forall (fun q : string => exists m, get_num_iterations q = Ok m) (path0 :: paths) ->
  exists (p : string) n l1 l2,
    path0 :: paths = l1 ++ p :: l2 /\ get_num_iterations p = Ok n /\
    (forall (q : string) m, q ∈ l1 -> get_num_iterations q = Ok m -> (m <= n)%Z) /\
    (forall (q : string) m, q ∈ l2 -> get_num_iterations q = Ok m -> (m < n)%Z) /\
    _load_tree_from_json self None (path0 :: paths)
    = _load_tree_from_json self (Some p) (path0 :: paths).
Proof using Type.
  intros [d Hd] Hall. apply Forall_cons in Hall as [[k0 H0] Hall].
  destruct (latest_json_total paths Hall (k0, path0)) as [p Hp].
  destruct (latest_json_split _ _ _ _ H0 Hp) as (n & l1 & l2 & Hsplit & Hn & H1 & H2).
  exists p, n, l1, l2. repeat (split; [done |]).
  unfold _load_tree_from_json. rewrite Hd, H0. cbn. rewrite Hp. reflexivity.
Qed.

(** [_get_best_path]: the empty list while no best goal node is known;
    with one that is linked to the start, the path from the start to it
    followed by the goal. *)
Theorem get_best_path_ends_at_goal fuel (self : RRTStarBase) start goal :
  _start self = Some start -> _goal self = Some goal ->
  (_best_goal_node self = None -> _get_best_path fuel self = Ok []) /\
  (forall b path, _best_goal_node self = Some b ->
     _get_best_path fuel self = Ok path ->
     exists rest, path = start :: rest ++ [goal] /\
                  default start (last rest) = b /\ chain (tree self) start rest).
Proof.
  intros Hs Hg. unfold _get_best_path. split; [by intros -> |].
  intros b path ->. unfold _get_path_to_start. rewrite Hs, Hg. cbn.
  destruct (path_loop fuel (tree self) start b [b]) as [l| |] eqn:Hl; cbn; try done.
  apply path_loop_inv in Hl as (rest & Hw & ->). rewrite app_nil_r.
  intros [= <-]. exists rest. split; [done |].
  split; [by eapply walk_last | by eapply walk_chain].
Qed.

Lemma load_graph_entries_rooted doc start best items :
  forall self,
    _start self = Some start ->
    is_Some (x_min self) -> is_Some (y_min self) ->
    doc_get doc "best_goal_node" = Ok (JString (best_key best)) ->
    key_ok start ->
    (forall b, best = Some b -> key_ok b) ->
    (forall e, e ∈ items -> key_ok e.1) ->
    (forall e p, e ∈ items -> e.2 = Some p -> key_ok p) ->
    (forall e, e ∈ items -> e.2 = None -> e.1 = start) ->
    NoDup items.*1 ->
    (forall e, e ∈ items -> e.1 <> start -> dict_get (tree self) e.1 = None) ->
    exists self',
      load_graph self doc (JString (_str_key start)) (map (graph_entry start) items)
      = Ok self' /\
      tree self' = tree self ++ non_root start items /\
      _start self' = _start self /\ _goal self' = _goal self /\
      _start_iteration self' = _start_iteration self /\
      _best_goal_node self' = best_after (_best_goal_node self) best items.
Proof.
  induction items as [|[k v] items IH];
    intros self Hs Hx Hy Hdoc Hks Hkb Hkeys Hparents Hroot Hnd Hfresh.
  { exists self. simpl. rewrite app_nil_r. split; [done |].
    repeat (split; [done |]). unfold best_after. destruct best; [| done].
    rewrite decide_False; [done | apply not_elem_of_nil]. }
  rewrite fmap_cons in Hnd. apply NoDup_cons in Hnd as [Hk Hnd]. simpl in Hk.
  assert (Hkk : key_ok k) by (apply (Hkeys (k, v)), list_elem_of_here).
  destruct Hx as [xm Hx], Hy as [ym Hy].
  simpl map. unfold graph_entry at 1. simpl fst. simpl snd.
  cbn [load_graph]. rewrite Hkk, bind_Ok, Hdoc, bind_Ok. cbn [str_eq_json].
  (* the state after the comparison with the best goal node *)
  set (self1 := if bool_decide (_str_key k = best_key best)
                then set_best_goal_node self (Some k) else self).
  assert (H1 : _start self1 = Some start /\ x_min self1 = Some xm /\ y_min self1 = Some ym
               /\ tree self1 = tree self /\ _goal self1 = _goal self
               /\ _start_iteration self1 = _start_iteration self
               /\ _best_goal_node self1
                  = best_after (_best_goal_node self) best [(k, v)]).
  { unfold self1, best_after. destruct best as [b|]; simpl best_key.
    - destruct (decide (_str_key k = _str_key b)) as [E|E].
      + rewrite (bool_decide_eq_true_2 _ E).
        assert (k = b) as <- by (apply key_ok_inj; auto).
        simpl. rewrite decide_True by apply list_elem_of_here. done.
      + rewrite (bool_decide_eq_false_2 _ E). simpl. rewrite decide_False; [done |].
        rewrite list_elem_of_singleton. intros ->. done.
    - rewrite bool_decide_eq_false_2 by (by apply key_ok_nonempty). done. }
  destruct H1 as (Hs1 & Hx1 & Hy1 & Ht1 & Hg1 & Hi1 & Hb1).
  assert (Hbest_step : forall old,
            best_after (best_after old best [(k, v)]) best items
            = best_after old best ((k, v) :: items)).
  { intros old. unfold best_after. destruct best as [b|]; [| done].
    rewrite fmap_cons. simpl.
    destruct (decide (b ∈ items.*1)) as [Hin|Hout].
    - rewrite decide_True by (by apply list_elem_of_further). done.
    - destruct (decide (b ∈ [k])) as [Hbk|Hbk].
      + rewrite decide_True; [done |]. apply list_elem_of_singleton in Hbk as ->.
        apply list_elem_of_here.
      + rewrite decide_False; [done |]. rewrite not_elem_of_cons. split; [| done].
        intros ->. apply Hbk. apply list_elem_of_here. }
  destruct (decide (k = start)) as [->|Hne].
  - (* the root: its value is the empty string, and the entry is passed over *)
    rewrite (decide_True (P := ""%string = ""%string)) by done.
    destruct (IH self1) as (self' & Hload & Ht & Hs' & Hg' & Hi' & Hb'); auto.
    { intros e He. apply Hkeys. by apply list_elem_of_further. }
    { intros e p He. apply Hparents. by apply list_elem_of_further. }
    { intros e He. apply Hroot. by apply list_elem_of_further. }
    { intros e He Hes. rewrite Ht1. apply Hfresh; [by apply list_elem_of_further | done]. }
    exists self'. split; [exact Hload |].
    split.
    { rewrite Ht, Ht1. unfold non_root. rewrite filter_cons. simpl.
      rewrite decide_False; [done | by intros ?]. }
    split; [congruence |]. split; [congruence |]. split; [congruence |].
    rewrite Hb', Hb1. apply Hbest_step.
  - destruct v as [parent|].
    2:{ exfalso. apply Hne. apply (Hroot (k, None)); [apply list_elem_of_here | done]. }
    assert (Hkp : key_ok parent).
    { apply (Hparents (k, Some parent)); [apply list_elem_of_here | done]. }
    rewrite (decide_False (P := _str_key parent = ""%string)) by (by apply key_ok_nonempty).
    assert (Hparent :
      (if bool_decide (_str_key parent = _str_key start) then Ok (_start self1)
       else _str_to_pt (_str_key parent) ≫= fun pt_v => Ok (Some pt_v))
      = Ok (Some parent)).
    { destruct (decide (_str_key parent = _str_key start)) as [E|E].
      - rewrite (bool_decide_eq_true_2 _ E), Hs1. f_equal. f_equal. symmetry.
        by apply key_ok_inj.
      - rewrite (bool_decide_eq_false_2 _ E), Hkp. reflexivity. }
    rewrite Hparent, bind_Ok. unfold require. rewrite Hx1, bind_Ok. cbv beta.
    rewrite Hy1, bind_Ok. cbv beta.
    match goal with |- context [load_graph ?s _ _ _] => set (self2 := s) end.
    destruct (IH self2) as (self' & Hload & Ht & Hs' & Hg' & Hi' & Hb'); auto.
    { intros e He. apply Hkeys. by apply list_elem_of_further. }
    { intros e p He. apply Hparents. by apply list_elem_of_further. }
    { intros e He. apply Hroot. by apply list_elem_of_further. }
    { intros e He Hes. unfold self2. simpl. rewrite Ht1, dict_get_set.
      rewrite decide_False.
      - apply Hfresh; [by apply list_elem_of_further | done].
      - intros ->. apply Hk. apply list_elem_of_fmap. by exists e. }
    exists self'. split; [exact Hload |].
    split.
    { rewrite Ht. unfold self2. simpl. rewrite Ht1.
      rewrite dict_set_fresh by (apply (Hfresh (k, Some parent)); [apply list_elem_of_here | done]).
      unfold non_root. rewrite filter_cons. simpl. rewrite decide_True by done.
      by rewrite <- app_assoc. }
    split; [rewrite Hs'; unfold self2; simpl; congruence |].
    split; [rewrite Hg'; unfold self2; simpl; congruence |].
    split; [rewrite Hi'; unfold self2; simpl; congruence |].
    rewrite Hb'. unfold self2. simpl. rewrite Hb1. apply Hbest_step.
Qed.

(** Resuming: in [generate_tree] the loader meets a planner whose start,
    goal and offsets are set and whose tree holds the start.  On the
    checkpoint of a tree that is rooted at that start (and whose first
    entry is the start's, as [generate_tree] builds it) it restores the
    tree as a whole, entry by entry and in order, and the best goal node;
    the start and the goal of the planner stay, and the iteration counter is
    one past the number of the file. *)
Theorem resume_restores_tree (new : RRTStarBase) (start goal : PointHeading)
    (best : option PointHeading) (best_cost : cost) (raw : list string)
    (others : list (PointHeading * option PointHeading))
    (path : string) (existing_jsons : list string) (n : Z) :
  let t := (start, None) :: others in
  tree_ok t start -> NoDup t.*1 ->
  (forall p, is_Some (dict_get t p) -> key_ok p) ->
  (forall b, best = Some b -> is_Some (dict_get t b)) ->
  _start new = Some start -> is_Some (_goal new) ->
  is_Some (x_min new) -> is_Some (y_min new) ->
  tree new = [(start, None)] -> _best_goal_node new = None ->
  get_num_iterations path = Ok n ->
  json_load path = Ok (checkpoint_doc start goal best best_cost raw t) ->
  exists new',
    _load_tree_from_json new (Some path) existing_jsons = Ok new' /\
    tree new' = t /\
    _best_goal_node new' = best /\
    _start new' = Some start /\ _goal new' = _goal new /\
    _start_iteration new' = (n + 1)%Z.
Proof using Type.
  cbv zeta. set (t := (start, None) :: others).
  intros Ht Hnd Hkeys Hbest Hs [g Hg] [xm Hx] Hy Htree Hnb Hnum Hload.
  pose proof Ht as (H0 & Hr & Hw).
  assert (Hkstart : key_ok start) by (apply Hkeys; by rewrite H0).
  assert (Ds : doc_get (checkpoint_doc start goal best best_cost raw t) "start"
               = Ok (JString (_str_key start))) by done.
  assert (Dg : doc_get (checkpoint_doc start goal best best_cost raw t) "goal"
               = Ok (JString (_str_key goal))) by done.
  assert (Di : doc_items (checkpoint_doc start goal best best_cost raw t) "graph"
               = Ok (map (graph_entry start) t)) by done.
  unfold _load_tree_from_json. rewrite bind_Ok, Hload, bind_Ok, Ds, bind_Ok.
  rewrite Hs, bind_Ok, Dg, bind_Ok, Hg, bind_Ok. cbv zeta. rewrite Hx, Di, bind_Ok.
  destruct (load_graph_entries_rooted (checkpoint_doc start goal best best_cost raw t)
              start best t new)
    as (new2 & Hgraph2 & Ht2 & Hs2 & Hg2 & Hi2 & Hb2); try done; try by eexists.
  - intros b Hb. by apply Hkeys, Hbest.
  - intros e He. apply Hkeys, dict_get_is_Some_elem, list_elem_of_fmap. by exists e.
  - intros [k0 v0] p He Hv. simpl in Hv. subst v0.
    apply Hkeys. by eapply tree_ok_parent_key.
  - intros e. by apply tree_ok_None_entry.
  - intros e _ Hne. rewrite Htree. simpl. by rewrite decide_False.
  - rewrite Hgraph2, bind_Ok, Hnum, bind_Ok. eexists. split; [reflexivity |].
    simpl. rewrite Ht2, Htree, Hs2, Hs, Hg2, Hb2, Hnb. split.
    { unfold non_root, t. rewrite filter_cons_False by (simpl; auto).
      assert (E : filter (fun e : PointHeading * option PointHeading => e.1 <> start) others
                  = others).
      { unfold t in Hnd. rewrite fmap_cons in Hnd. apply NoDup_cons in Hnd as [Hn _].
        simpl in Hn. clear -Hn. induction others as [|e l IH]; [done |].
        rewrite fmap_cons, not_elem_of_cons in Hn. destruct Hn as [Hne Hn].
        rewrite filter_cons_True by (simpl; congruence). by rewrite IH. }
      by rewrite E. }
    split; [| done]. unfold best_after.
    destruct best as [b|] eqn:Eb; [| done].
    rewrite decide_True; [done |].
    destruct (Hbest b eq_refl) as [v E].
    apply dict_get_elem_of in E. apply list_elem_of_fmap. by eexists (b, _).
Qed.

(** ** The best goal node *)

Lemma min_entry_in e l : min_entry e l ∈ e :: l.
Proof.
  revert e. induction l as [|e' l IH]; intros e; simpl; [apply list_elem_of_here |].
  specialize (IH (if decide (entry_lt e' e) then e' else e)).
  rewrite !elem_of_cons in *. destruct (decide (entry_lt e' e)); destruct IH; auto.
Qed.

Lemma min_entry_le_start e l : cost_le (min_entry e l).1.1 e.1.1.
Proof.
  revert e. induction l as [|e' l IH]; intros e; simpl; [apply cost_le_refl |].
  eapply cost_le_trans; [apply IH |].
  destruct (decide (entry_lt e' e)) as [[H|[-> _]]|]; try apply cost_le_refl.
  by apply cost_lt_le.
Qed.

Lemma min_entry_least e l a : a ∈ e :: l -> cost_le (min_entry e l).1.1 a.1.1.
Proof.
  revert e. induction l as [|e' l IH]; intros e; simpl.
  - intros ->%list_elem_of_singleton. apply cost_le_refl.
  - rewrite !elem_of_cons. intros [->|[->|Ha]].
    + eapply cost_le_trans; [apply min_entry_le_start |].
      destruct (decide (entry_lt e' e)) as [[H|[-> _]]|]; try apply cost_le_refl.
      by apply cost_lt_le.
    + eapply cost_le_trans; [apply min_entry_le_start |].
      destruct (decide (entry_lt e' e)) as [|Hn]; [apply cost_le_refl |].
      apply cost_not_lt_le. intros H. apply Hn. by left.
    + apply IH. by apply list_elem_of_further.
Qed.

Lemma goal_costs_gen goal t cache0 start pts :
  forall fuel self idx acc acc' self',
    _start self = Some start -> tree self = t ->
    cache_agree t cache0 (_cost_from_parent self) ->
    goal_costs fuel self goal pts idx acc = Ok (acc', self') ->
    (exists cache', self' = set_cost_from_parent self cache' /\
                    cache_agree t cache0 cache') /\
    exists new,
      acc' = acc ++ new /\
      (forall e, e ∈ new ->
         e.2 ∈ pts /\ _euclid_2D e.2 goal < _near_threshold self /\
         _path_exists e.2 goal = true /\
         exists cs, path_cost t cache0 start e.2 cs /\
                    e.1.1 = cost_add cs (_cost_from_to e.2 goal false false).1) /\
      (forall pt, pt ∈ pts -> _euclid_2D pt goal < _near_threshold self ->
                  _path_exists pt goal = true -> exists e, e ∈ new /\ e.2 = pt).
Proof using Type.
  induction pts as [|pt rest IH]; intros fuel self idx acc acc' self' Hs Ht Ha; simpl.
  - intros [= <- <-]. split.
    { exists (_cost_from_parent self). split; [by destruct self | done]. }
    exists []. rewrite app_nil_r. split; [done |].
    split; [by intros ? ?%elem_of_nil | by intros ? ?%elem_of_nil].
  - destruct (bool_decide (_euclid_2D pt goal < _near_threshold self) && _path_exists pt goal)
      eqn:Ecand.
    + apply andb_true_iff in Ecand as [Hd%bool_decide_eq_true Hp].
      destruct (_cost_from_start fuel self pt) as [[cs self1]| |] eqn:E1; cbn; try done.
      destruct (cost_from_start_path_cost _ _ _ _ _ _ Hs E1) as (Hpc & cache1 & -> & Ha1).
      rewrite Ht in Hpc, Ha1.
      apply (path_cost_agree t cache0 _ start pt cs Ha) in Hpc.
      assert (Ha' : cache_agree t cache0 cache1) by (by eapply cache_agree_trans).
      intros H.
      apply (IH fuel (set_cost_from_parent self cache1) _ _ _ _ Hs Ht Ha') in H
        as ((cache' & -> & Hag) & new & -> & Hsound & Hcomplete).
      split; [by exists cache' |].
      eexists (_ :: new). split; [by rewrite <- app_assoc |]. split.
      * intros e [->|He]%elem_of_cons.
        -- simpl. split; [apply list_elem_of_here |]. repeat (split; [done |]). by exists cs.
        -- destruct (Hsound e He) as (H1 & H2). split; [by apply list_elem_of_further | done].
      * intros q [->|Hq]%elem_of_cons Hqd Hqp.
        -- eexists. split; [apply list_elem_of_here | done].
        -- destruct (Hcomplete q Hq Hqd Hqp) as (e & He & <-).
           exists e. split; [by apply list_elem_of_further | done].
    + intros H. apply (IH _ _ _ _ _ _ Hs Ht Ha) in H as (Hstate & new & -> & Hsound & Hcomplete).
      split; [done |]. exists new. split; [done |]. split.
      * intros e He. destruct (Hsound e He) as (H1 & H2).
        split; [by apply list_elem_of_further | done].
      * intros q [->|Hq]%elem_of_cons Hqd Hqp; [| by apply Hcomplete].
        apply andb_false_iff in Ecand as [Hn%bool_decide_eq_false|Hn]; [done | congruence].
Qed.

(** The update of the best goal node, when it returns: the tree and the
    grid hash are as they were; the goal's candidates are the poses that
    [_get_near_pts] returns for the goal, nearer to it than [near_threshold]
    and with a path to it.  Without a candidate the best goal node stays;
    else it becomes a candidate through which the cost from the start to
    the goal is least.  On an iteration that is neither a multiple of [50]
    nor of [visualize_iterations] nothing changes. *)
Theorem update_best_goal_picks_cheapest fuel (self self' : RRTStarBase) start goal xm ym
    (iteration visualize_iterations : Z) :
  _start self = Some start -> _goal self = Some goal ->
  x_min self = Some xm -> y_min self = Some ym ->
  update_best_goal fuel self iteration visualize_iterations = Ok self' ->
  let near := _get_near_pts xm ym (_near_threshold self) (grid_hash self) goal in
  let candidate := fun pt =>
    pt ∈ near /\ _euclid_2D pt goal < _near_threshold self /\ _path_exists pt goal = true in
  let cost_via := fun pt c =>
    exists cs, path_cost (tree self) (_cost_from_parent self) start pt cs /\
               c = cost_add cs (_cost_from_to pt goal false false).1 in
  tree self' = tree self /\ grid_hash self' = grid_hash self /\
  ((iteration `mod` 50 <> 0 /\ iteration `mod` visualize_iterations <> 0)%Z -> self' = self) /\
  ((iteration `mod` 50 = 0 \/ iteration `mod` visualize_iterations = 0)%Z ->
   ((forall pt, ~ candidate pt) /\ _best_goal_node self' = _best_goal_node self) \/
   (exists b cb, _best_goal_node self' = Some b /\ candidate b /\ cost_via b cb /\
                 forall pt, candidate pt -> exists c, cost_via pt c /\ cost_le cb c)).
Proof using Type.
  intros Hs Hg Hx Hy. cbv zeta. unfold update_best_goal.
  assert (Hrun :
    forall self1,
      (goal_costs fuel self goal
         (_get_near_pts xm ym (_near_threshold self) (grid_hash self) goal) 0 []
       ≫= fun '(min_costs, s) =>
            match min_costs with
            | [] => Ok s
            | e :: l => Ok (set_best_goal_node s (Some (min_entry e l).2))
            end) = Ok self1 ->
      tree self1 = tree self /\ grid_hash self1 = grid_hash self /\
      (((forall pt,
           ~ (pt ∈ _get_near_pts xm ym (_near_threshold self) (grid_hash self) goal /\
              _euclid_2D pt goal < _near_threshold self /\ _path_exists pt goal = true)) /\
        _best_goal_node self1 = _best_goal_node self) \/
       (exists b cb,
          _best_goal_node self1 = Some b /\
          (b ∈ _get_near_pts xm ym (_near_threshold self) (grid_hash self) goal /\
           _euclid_2D b goal < _near_threshold self /\ _path_exists b goal = true) /\
          (exists cs, path_cost (tree self) (_cost_from_parent self) start b cs /\
                      cb = cost_add cs (_cost_from_to b goal false false).1) /\
          forall pt,
            (pt ∈ _get_near_pts xm ym (_near_threshold self) (grid_hash self) goal /\
             _euclid_2D pt goal < _near_threshold self /\ _path_exists pt goal = true) ->
            exists c,
              (exists cs, path_cost (tree self) (_cost_from_parent self) start pt cs /\
                          c = cost_add cs (_cost_from_to pt goal false false).1) /\
              cost_le cb c))).
  { intros self1.
    destruct (goal_costs fuel self goal _ 0 []) as [[acc s1]| |] eqn:E; cbn; try done.
    apply (goal_costs_gen goal (tree self) (_cost_from_parent self) start) in E
      as ((cache' & -> & _) & new & -> & Hsound & Hcomplete);
      [| done | done | apply cache_agree_refl].
    simpl app. destruct new as [|e l].
    - intros [= <-]. split; [done |]. split; [done |]. left. split; [| done].
      intros pt (Hin & Hd & Hp). destruct (Hcomplete pt Hin Hd Hp) as (e & He & _).
      by apply elem_of_nil in He.
    - intros [= <-]. split; [done |]. split; [done |]. right.
      pose proof (min_entry_in e l) as Hmin.
      destruct (Hsound _ Hmin) as (Hin & Hd & Hp & cs & Hcs & Hc).
      exists (min_entry e l).2, (min_entry e l).1.1. split; [done |].
      split; [done |]. split; [by exists cs |].
      intros pt (Hpin & Hpd & Hpp).
      destruct (Hcomplete pt Hpin Hpd Hpp) as (e' & He' & <-).
      destruct (Hsound _ He') as (_ & _ & _ & cs' & Hcs' & Hc').
      exists e'.1.1. split; [by exists cs' |]. by apply min_entry_least. }
  destruct (decide (iteration `mod` 50 = 0)%Z) as [H50|H50]; cbn.
  - rewrite Hg, Hx, Hy. cbn. intros H. apply Hrun in H as (Ht & Hgr & Hres).
    split; [done |]. split; [done |]. split; [intros [? _]; done | by intros _].
  - destruct (decide (visualize_iterations = 0%Z)) as [Hv|Hv]; cbn; [done |].
    case_bool_decide as Hm.
    + rewrite Hg, Hx, Hy. cbn. intros H. apply Hrun in H as (Ht & Hgr & Hres).
      split; [done |]. split; [done |]. split; [intros [_ ?]; done | by intros _].
    + intros [= <-]. split; [done |]. split; [done |]. split; [done |].
      intros [?|?]; done.
Qed.

(** ** The local map and the info map *)

Lemma np_item2_rectangular (info : list (list Z)) (i j : Z) :
  rectangular info ->
  (0 <= i < Z.of_nat (length info))%Z -> (0 <= j < Z.of_nat (shape_1 info))%Z ->
  np_item2 info i j = Ok (info_cell info i j).
Proof.
  intros Hrect Hi Hj. unfold np_item2, info_cell. rewrite decide_False by lia.
  rewrite np_axis_in_range by done. cbn.
  destruct (info !! Z.to_nat i) as [row|] eqn:Erow.
  - assert (Hlen : length row = shape_1 info).
    { unfold rectangular in Hrect. rewrite Forall_forall in Hrect.
      apply Hrect. by eapply list_elem_of_lookup_2. }
    rewrite np_axis_in_range by lia. cbn.
    destruct (row !! Z.to_nat j) eqn:Ec; [done |].
    apply lookup_ge_None in Ec. lia.
  - apply lookup_ge_None in Erow. lia.
Qed.

Lemma local_map_row_spec (info : list (list Z)) (i_start j_start map_i : Z) (js : list Z) :
  rectangular info ->
  forall a,
    (0 <= map_i - i_start < Z.of_nat (shape0 a))%Z ->
    Forall (fun j => 0 <= j - j_start < Z.of_nat (shape1 a))%Z js ->
    exists a',
      local_map_row info a i_start j_start map_i js = Ok a' /\
      shape0 a' = shape0 a /\ shape1 a' = shape1 a /\
      forall r c,
        item a' r c
        = if decide (Z.of_nat r = map_i - i_start /\ j_start + Z.of_nat c ∈ js)%Z
          then info_cell info map_i (j_start + Z.of_nat c)
          else item a r c.
Proof.
  intros Hrect. induction js as [|map_j js IH]; intros a Hi Hjs; simpl.
  - exists a. repeat (split; [done |]). intros r c.
    rewrite decide_False; [done |]. intros [_ H]. by apply elem_of_nil in H.
  - apply Forall_cons in Hjs as [Hj Hjs].
    assert (Hv : (if decide (map_i < 0 \/ Z.of_nat (length info) <= map_i
                              \/ map_j < 0 \/ Z.of_nat (shape_1 info) <= map_j)%Z
                  then Ok 1%Z else np_item2 info map_i map_j)
                 = Ok (info_cell info map_i map_j)).
    { destruct (decide _) as [Hout|Hin].
      - unfold info_cell. by rewrite decide_True.
      - by rewrite np_item2_rectangular by (done || lia). }
    rewrite Hv, bind_Ok, !np_axis_in_range by done. rewrite !bind_Ok.
    destruct (IH (arr_set a (Z.to_nat (map_i - i_start)) (Z.to_nat (map_j - j_start))
                    (info_cell info map_i map_j))) as (a' & Hrun & H0 & H1 & Hitem);
      [done | done |].
    exists a'. split; [done |]. split; [done |]. split; [done |].
    intros r c. rewrite Hitem. simpl.
    destruct (decide (Z.of_nat r = map_i - i_start /\ j_start + Z.of_nat c ∈ js)%Z)
      as [[Hr Hc]|Hn].
    + rewrite decide_True; [done |]. split; [done | by apply list_elem_of_further].
    + destruct (decide (r = Z.to_nat (map_i - i_start) /\ c = Z.to_nat (map_j - j_start)))
        as [[-> ->]|Hn2].
      * rewrite decide_True.
        -- f_equal. lia.
        -- split; [lia |]. replace (j_start + Z.of_nat (Z.to_nat (map_j - j_start)))%Z
             with map_j by lia. apply list_elem_of_here.
      * rewrite decide_False; [done |]. intros [Hr Hc].
        apply elem_of_cons in Hc as [Hc|Hc]; [| by apply Hn].
        apply Hn2. split; lia.
Qed.

Lemma local_map_rows_spec (info : list (list Z)) (i_start j_start : Z) (rows js : list Z) :
  rectangular info ->
  forall a,
    Forall (fun i => 0 <= i - i_start < Z.of_nat (shape0 a))%Z rows ->
    Forall (fun j => 0 <= j - j_start < Z.of_nat (shape1 a))%Z js ->
    exists a',
      local_map_rows info a i_start j_start rows js = Ok a' /\
      shape0 a' = shape0 a /\ shape1 a' = shape1 a /\
      forall r c,
        item a' r c
        = if decide (i_start + Z.of_nat r ∈ rows /\ j_start + Z.of_nat c ∈ js)%Z
          then info_cell info (i_start + Z.of_nat r) (j_start + Z.of_nat c)
          else item a r c.
Proof.
  intros Hrect. induction rows as [|map_i rows IH]; intros a Hrows Hjs; simpl.
  - exists a. repeat (split; [done |]). done.
  - apply Forall_cons in Hrows as [Hi Hrows].
    destruct (local_map_row_spec info i_start j_start map_i js Hrect a Hi Hjs)
      as (a1 & Hrun1 & H0 & H1 & Hitem1).
    rewrite Hrun1, bind_Ok.
    destruct (IH a1) as (a' & Hrun & H0' & H1' & Hitem); [by rewrite H0 | by rewrite H1 |].
    exists a'. split; [done |]. split; [congruence |]. split; [congruence |].
    intros r c. rewrite Hitem, Hitem1.
    destruct (decide (i_start + Z.of_nat r ∈ rows /\ j_start + Z.of_nat c ∈ js)%Z)
      as [[Hr Hc]|Hn].
    + rewrite decide_True; [done |]. split; [by apply list_elem_of_further | done].
    + destruct (decide (Z.of_nat r = map_i - i_start /\ j_start + Z.of_nat c ∈ js)%Z)
        as [[Hr Hc]|Hn2].
      * rewrite decide_True.
        -- f_equal. lia.
        -- split; [| done]. replace (i_start + Z.of_nat r)%Z with map_i by lia.
           apply list_elem_of_here.
      * rewrite decide_False; [done |]. intros [Hr Hc].
        apply elem_of_cons in Hr as [Hr|Hr]; [| by apply Hn].
        apply Hn2. split; [lia | done].
Qed.

Lemma get_local_map_window (self : RRTStarPNG) (local_map_center_pos : R * R) :
  meters_per_pixel self <> 0 -> (0 <= _local_map_size self)%Z ->
  rectangular (_info_map self) ->
  exists a sx sy,
    let half := (_local_map_size self `div` 2)%Z in
    _scale_x self local_map_center_pos.1 = Ok sx /\
    _scale_y self local_map_center_pos.2 = Ok sy /\
    _get_local_map self local_map_center_pos = Ok a /\
    shape0 a = Z.to_nat (_local_map_size self) /\
    shape1 a = Z.to_nat (_local_map_size self) /\
    forall r c,
      item a r c
      = if decide (sy - half + Z.of_nat r ∈ seqZ (sy - half) (sy + half - (sy - half)) /\
                   sx - half + Z.of_nat c ∈ seqZ (sx - half) (sx + half - (sx - half)))%Z
        then info_cell (_info_map self) (sy - half + Z.of_nat r) (sx - half + Z.of_nat c)
        else 0%Z.
Proof.
  intros Hmpp Hsize Hrect. cbv zeta.
  unfold _get_local_map, _scale_x, _scale_y. rewrite !decide_False by (done || lia).
  rewrite !bind_Ok.
  set (sx := int_of_float (local_map_center_pos.1 / meters_per_pixel self)).
  set (sy := int_of_float (local_map_center_pos.2 / meters_per_pixel self)).
  set (half := (_local_map_size self `div` 2)%Z).
  assert (Hhalf : (0 <= 2 * half <= _local_map_size self)%Z).
  { unfold half. pose proof (Z.div_mod (_local_map_size self) 2 ltac:(lia)).
    pose proof (Z.mod_pos_bound (_local_map_size self) 2 ltac:(lia)). lia. }
  set (a0 := mkArray (Z.to_nat (_local_map_size self)) (Z.to_nat (_local_map_size self))
               (fun _ _ => 0%Z)).
  destruct (local_map_rows_spec (_info_map self) (sy - half) (sx - half)
              (seqZ (sy - half) (sy + half - (sy - half)))
              (seqZ (sx - half) (sx + half - (sx - half))) Hrect a0)
    as (a & Hrun & H0 & H1 & Hitem).
  - apply Forall_forall. intros i Hi%elem_of_seqZ. simpl. lia.
  - apply Forall_forall. intros j Hj%elem_of_seqZ. simpl. lia.
  - exists a, sx, sy. repeat (split; [done |]). intros r c. by rewrite Hitem.
Qed.

(** [_get_local_map] on a planner with a scale, a size that is not
    negative and a rectangular info map: the window is square, of the size
    of the local map; with [half] the half of that size, rounded down, the
    cell [(r, c)] with [r, c < 2 * half] shows the info map at
    [(sy - half + r, sx - half + c)], an obstacle where that is off the
    map, and the cells of the last row and column of a window of odd size
    stay [0]. *)
Theorem get_local_map_cells (self : RRTStarPNG) (local_map_center_pos : R * R) :
  meters_per_pixel self <> 0 -> (0 <= _local_map_size self)%Z ->
  rectangular (_info_map self) ->
  let size := Z.to_nat (_local_map_size self) in
  let half := (_local_map_size self `div` 2)%Z in
  exists a sx sy,
    _scale_x self local_map_center_pos.1 = Ok sx /\
    _scale_y self local_map_center_pos.2 = Ok sy /\
    _get_local_map self local_map_center_pos = Ok a /\
    shape0 a = size /\ shape1 a = size /\
    forall r c,
      item a r c
      = if decide (Z.of_nat r < 2 * half /\ Z.of_nat c < 2 * half)%Z
        then info_cell (_info_map self) (sy - half + Z.of_nat r) (sx - half + Z.of_nat c)
        else 0%Z.
Proof.
  intros Hmpp Hsize Hrect. cbv zeta.
  destruct (get_local_map_window self local_map_center_pos Hmpp Hsize Hrect)
    as (a & sx & sy & Hsx & Hsy & Hrun & H0 & H1 & Hitem).
  exists a, sx, sy. repeat (split; [done |]). intros r c. rewrite Hitem.
  set (half := (_local_map_size self `div` 2)%Z).
  assert (Hhalf : (0 <= 2 * half <= _local_map_size self)%Z).
  { unfold half. pose proof (Z.div_mod (_local_map_size self) 2 ltac:(lia)).
    pose proof (Z.mod_pos_bound (_local_map_size self) 2 ltac:(lia)). lia. }
  destruct (decide (Z.of_nat r < 2 * half /\ Z.of_nat c < 2 * half)%Z) as [[Hr Hc]|Hn].
  - rewrite decide_True; [done |]. rewrite !elem_of_seqZ. lia.
  - rewrite decide_False; [done |]. rewrite !elem_of_seqZ. lia.
Qed.

Lemma add_node_in_info_map_returns (self self' : RRTStarPNG) (node_pos : R * R) :
  _add_node_in_info_map self node_pos = Ok self' ->
  exists px py r c,
    _scale_x self node_pos.1 = Ok px /\ _scale_y self node_pos.2 = Ok py /\
    np_axis (length (_info_map self)) py = Ok r /\
    np_item2 (_info_map self') py px = Ok 2%Z /\
    (forall r' c', (_info_map self' !! r' ≫= fun row => row !! c')
                   = if decide (r' = r /\ c' = c) then Some 2%Z
                     else (_info_map self !! r' ≫= fun row => row !! c')) /\
    length (_info_map self') = length (_info_map self) /\
    shape_1 (_info_map self') = shape_1 (_info_map self) /\
    (rectangular (_info_map self) -> rectangular (_info_map self')) /\
    _map self' = _map self /\ base self' = base self /\
    _local_map_size self' = _local_map_size self /\
    meters_per_pixel self' = meters_per_pixel self.
Proof.
  unfold _add_node_in_info_map.
  destruct (_scale_x self node_pos.1) as [px| |] eqn:Ex; cbn; try done.
  destruct (_scale_y self node_pos.2) as [py| |] eqn:Ey; cbn; try done.
  destruct (np_axis_cases (length (_info_map self)) py) as [(r & Er & Hr)|[Er _]];
    rewrite Er; cbn; [| done].
  destruct (_info_map self !! r) as [row|] eqn:Erow; [| done].
  destruct (np_axis_cases (length row) px) as [(c & Ec & Hc)|[Ec _]];
    rewrite Ec; cbn; [| done].
  intros [= <-]. exists px, py, r, c. simpl.
  repeat (split; [done |]).
  assert (Hcells : forall r' c',
            (<[r := <[c := 2%Z]> row]> (_info_map self) !! r' ≫= fun row0 => row0 !! c')
            = if decide (r' = r /\ c' = c) then Some 2%Z
              else (_info_map self !! r' ≫= fun row0 => row0 !! c')).
  { intros r' c'. destruct (decide (r' = r)) as [->|Hne].
    - rewrite list_lookup_insert_eq by done. rewrite Erow. cbn.
      destruct (decide (c' = c)) as [->|Hnc].
      + rewrite decide_True by done. by rewrite list_lookup_insert_eq.
      + rewrite decide_False by (intros [_ ?]; done).
        by rewrite list_lookup_insert_ne.
    - rewrite list_lookup_insert_ne by done.
      by rewrite decide_False by (intros [? _]; done). }
  split.
  { unfold np_item2. rewrite length_insert, Er. cbn.
    rewrite list_lookup_insert_eq by done. rewrite length_insert, Ec. cbn.
    by rewrite list_lookup_insert_eq. }
  split; [exact Hcells |]. split; [by rewrite length_insert |].
  assert (Hs : shape_1 (<[r := <[c := 2%Z]> row]> (_info_map self))
               = shape_1 (_info_map self)).
  { unfold shape_1. destruct (_info_map self) as [|row0 m]; [done |].
    destruct r as [|r]; simpl; [| done]. simpl in Erow. injection Erow as ->.
    by rewrite length_insert. }
  split; [exact Hs |]. split; [| done].
  unfold rectangular. rewrite !Forall_forall. intros Hrect row' Hin.
  rewrite Hs. apply list_elem_of_lookup_1 in Hin as [k Hk].
  destruct (decide (k = r)) as [->|Hne].
  + rewrite list_lookup_insert_eq in Hk by done. injection Hk as <-.
    rewrite length_insert. apply Hrect. by eapply list_elem_of_lookup_2.
  + rewrite list_lookup_insert_ne in Hk by done. apply Hrect.
    by eapply list_elem_of_lookup_2.
Qed.

(** [_add_node_in_info_map], when it returns: the pixel of the node holds
    [2], every other entry of the info map and the shape of the map are as
    they were, and so are the map that [_is_navigable] reads and the
    planner's other fields; a pixel row at or beyond the number of rows ends
    in an [IndexError]. *)
Theorem add_node_marks_info_map (self self' : RRTStarPNG) (node_pos : R * R) :
  (_add_node_in_info_map self node_pos = Ok self' ->
   exists px py r c,
     _scale_x self node_pos.1 = Ok px /\ _scale_y self node_pos.2 = Ok py /\
     np_axis (length (_info_map self)) py = Ok r /\
     np_item2 (_info_map self') py px = Ok 2%Z /\
     (forall r' c', (_info_map self' !! r' ≫= fun row => row !! c')
                    = if decide (r' = r /\ c' = c) then Some 2%Z
                      else (_info_map self !! r' ≫= fun row => row !! c')) /\
     length (_info_map self') = length (_info_map self) /\
     shape_1 (_info_map self') = shape_1 (_info_map self) /\
     (rectangular (_info_map self) -> rectangular (_info_map self')) /\
     _map self' = _map self /\ base self' = base self /\
     _local_map_size self' = _local_map_size self /\
     meters_per_pixel self' = meters_per_pixel self) /\
  (forall py, _scale_y self node_pos.2 = Ok py ->
              (Z.of_nat (length (_info_map self)) <= py)%Z ->
              _add_node_in_info_map self node_pos = Raise IndexError).
Proof.
  split.
  - apply add_node_in_info_map_returns.
  - intros py Hy Hge. unfold _add_node_in_info_map.
    destruct (_scale_x self node_pos.1) as [px| |] eqn:Ex; cbn.
    + rewrite Hy. cbn. by rewrite np_axis_past_end.
    + unfold _scale_x in Ex. unfold _scale_y in Hy.
      destruct (decide (meters_per_pixel self = 0)); done.
    + unfold _scale_x in Ex. destruct (decide _); done.
Qed.

(** A node that was marked in the info map shows in the local map around
    it: for a pixel inside the map and a window of two cells or more, the
    cell at the centre of the window, [(half, half)], holds [2]. *)
Theorem marked_node_is_centre_of_local_map (self self' : RRTStarPNG) (node_pos : R * R)
    (px py : Z) :
  rectangular (_info_map self) -> (2 <= _local_map_size self)%Z ->
  _scale_x self node_pos.1 = Ok px -> _scale_y self node_pos.2 = Ok py ->
  (0 <= py < Z.of_nat (length (_info_map self)))%Z ->
  (0 <= px < Z.of_nat (shape_1 (_info_map self)))%Z ->
  _add_node_in_info_map self node_pos = Ok self' ->
  exists a,
    _get_local_map self' node_pos = Ok a /\
    item a (Z.to_nat (_local_map_size self `div` 2)) (Z.to_nat (_local_map_size self `div` 2))
    = 2%Z.
Proof.
  intros Hrect Hsize Hx Hy Hpy Hpx Hadd.
  destruct (add_node_in_info_map_returns self self' node_pos Hadd)
    as (px' & py' & r & c & Hx' & Hy' & Hr & Hitem & Hcells & Hlen
        & Hs & Hrect' & _ & _ & Hsz & Hmpp).
  assert (px' = px) as -> by congruence. assert (py' = py) as -> by congruence.
  assert (Hne : meters_per_pixel self' <> 0).
  { rewrite Hmpp. unfold _scale_x in Hx. by destruct (decide (meters_per_pixel self = 0)). }
  destruct (get_local_map_window self' node_pos Hne ltac:(lia) (Hrect' Hrect))
    as (a & sx & sy & Hsx & Hsy & Hrun & _ & _ & Hcell).
  assert (sx = px) as ->.
  { unfold _scale_x in Hsx, Hx. rewrite Hmpp in Hsx. congruence. }
  assert (sy = py) as ->.
  { unfold _scale_y in Hsy, Hy. rewrite Hmpp in Hsy. congruence. }
  exists a. split; [done |]. rewrite Hsz in Hcell. rewrite Hcell.
  set (half := (_local_map_size self `div` 2)%Z).
  assert (Hhalf : (1 <= half)%Z).
  { unfold half. apply Z.div_le_lower_bound; lia. }
  rewrite decide_True by (rewrite !elem_of_seqZ; lia).
  replace (py - half + Z.of_nat (Z.to_nat half))%Z with py by lia.
  replace (px - half + Z.of_nat (Z.to_nat half))%Z with px by lia.
  pose proof (np_item2_rectangular (_info_map self') py px (Hrect' Hrect)) as E.
  rewrite Hitem, Hlen, Hs in E. specialize (E Hpy Hpx). by injection E.
Qed.

(** ** Where the APF sampler can land *)

Lemma elem_of_row_major (h w r c : nat) :
  (r, c) ∈ row_major h w <-> (r < h)%nat /\ (c < w)%nat.
Proof.
  unfold row_major. rewrite elem_of_flat_map. split.
  - intros (r' & Hr & Hc). apply list_elem_of_fmap in Hc as (c' & [= -> ->] & Hc).
    apply elem_of_seq in Hr, Hc. lia.
  - intros [Hr Hc]. exists r. split; [apply elem_of_seq; lia |].
    apply list_elem_of_fmap. exists c. split; [done | apply elem_of_seq; lia].
Qed.

Section APFRange.
Variables (self : RRTStarPNG) (local_map : ndarray Z).
Variables (local_map_center_pos goal_pos_global : R * R).
Variables (eta xi rho0 sigma0 eta_node rho0_node : R).

Local Abbreviation U :=
  (U_total self local_map local_map_center_pos goal_pos_global
     eta xi rho0 sigma0 eta_node rho0_node).
Local Abbreviation cells := (row_major (shape0 local_map) (shape1 local_map)).
Local Abbreviation sample :=
  (_sample_point_by_local_map self local_map local_map_center_pos goal_pos_global
     eta xi rho0 sigma0 eta_node rho0_node).

Lemma sample_lands_on_finite_cell (pos : R * R) :
  sample = Ok pos ->
  ((forall rc, rc ∈ cells -> U rc = Inf) /\ pos = local_map_center_pos) \/
  (exists r c, (r < shape0 local_map)%nat /\ (c < shape1 local_map)%nat /\
               U (r, c) <> Inf /\
               pos = (x_coords self local_map_center_pos c,
                      y_coords self local_map_center_pos r)).
Proof.
  intros Hs.
  destruct (decide (Forall (fun rc => U rc = Inf) cells)) as [Hall|Hnot].
  - left. rewrite Forall_forall in Hall. split; [done |].
    rewrite sample_all_masked in Hs by done. by injection Hs.
  - right. apply not_Forall_Exists in Hnot; [| intros rc; apply _].
    apply Exists_exists in Hnot as (rc0 & Hin0 & Hfin0).
    destruct (sample_argmin self local_map local_map_center_pos goal_pos_global
                eta xi rho0 sigma0 eta_node rho0_node)
      as (before & r & c & after & Hcells & _ & Hle & Hsample); [by exists rc0 |].
    assert (Hin : (r, c) ∈ cells).
    { rewrite Hcells. apply elem_of_app. right. apply list_elem_of_here. }
    apply elem_of_row_major in Hin as [Hr Hc].
    exists r, c. split; [done |]. split; [done |]. split.
    + intros HInf. specialize (Hle rc0 Hin0). rewrite HInf in Hle.
      apply Hfin0. by apply cost_le_Inf_eq.
    + rewrite Hsample in Hs. destruct (dump_field self); cbn in Hs; [| done | done].
      by injection Hs.
Qed.

(** The sampler steers no farther than [self._max_distance]: a position
    it returns is the window centre itself, when every cell is masked, or
    the position of a cell of the window that lies within
    [self._max_distance] of the centre. *)
Theorem sample_within_max_distance (pos : R * R) :
  sample = Ok pos ->
  ((forall rc, rc ∈ cells -> U rc = Inf) /\ pos = local_map_center_pos) \/
  (exists r c, (r < shape0 local_map)%nat /\ (c < shape1 local_map)%nat /\
               pos = (x_coords self local_map_center_pos c,
                      y_coords self local_map_center_pos r) /\
               sqrt ((pos.1 - local_map_center_pos.1) ^ 2
                     + (pos.2 - local_map_center_pos.2) ^ 2)
               <= _max_distance (base self)).
Proof.
  intros Hs. destruct (sample_lands_on_finite_cell pos Hs)
    as [H|(r & c & Hr & Hc & Hfin & ->)]; [by left | right].
  exists r, c. split; [done |]. split; [done |]. split; [done |].
  unfold U_total in Hfin. cbn [fst snd] in Hfin |- *.
  destruct (decide (dist_to_center self local_map_center_pos r c > _max_distance (base self)))
    as [|Hle]; [done |].
  unfold dist_to_center in Hle. lra.
Qed.

(** The sampler keeps off the marked cells.  With a distance transform
    that is [0] on the zero entries of its input, as scipy's is, and the
    positive weights and radii of the call site: a position the sampler
    returns is the window centre, when every cell is masked, or the position
    of a cell of the window that holds neither [1] (obstacle) nor [2]
    (node). *)
Theorem sample_avoids_marked_cells (pos : R * R) :
  (forall a r c, item a r c = 0%Z -> distance_transform_edt a r c = 0) ->
  0 < eta -> 0 < eta_node -> 0 < rho0 -> 0 < rho0_node ->
  sample = Ok pos ->
  ((forall rc, rc ∈ cells -> U rc = Inf) /\ pos = local_map_center_pos) \/
  (exists r c, (r < shape0 local_map)%nat /\ (c < shape1 local_map)%nat /\
               pos = (x_coords self local_map_center_pos c,
                      y_coords self local_map_center_pos r) /\
               item local_map r c <> 1%Z /\ item local_map r c <> 2%Z).
Proof.
  intros Hedt _ _ Hrho0 Hrho0n Hs. destruct (sample_lands_on_finite_cell pos Hs)
    as [H|(r & c & Hr & Hc & Hfin & ->)]; [by left | right].
  exists r, c. split; [done |]. split; [done |]. split; [done |].
  unfold U_total in Hfin. cbn [fst snd] in Hfin.
  destruct (decide (dist_to_center self local_map_center_pos r c > _max_distance (base self)));
    [done |].
  split; intros Hcell; apply Hfin.
  - assert (E : rho_obs self local_map r c = 0).
    { unfold rho_obs. rewrite Hedt; [lra |].
      unfold complement_of. cbn [item]. by rewrite decide_True. }
    unfold repulsive at 1. rewrite E, decide_True by lra. by rewrite decide_True.
  - assert (E : rho_node self local_map r c = 0).
    { unfold rho_node. rewrite Hedt; [lra |].
      unfold complement_of. cbn [item]. by rewrite decide_True. }
    unfold repulsive at 2. rewrite E, decide_True by lra. rewrite decide_True by done.
    by destruct (repulsive eta rho0 _).
Qed.

End APFRange.

(** ** Pixels before the map *)

(** [_is_navigable] answers with the pixel that numpy's indexing finds: a
    pixel index below zero, down to minus the length of the axis, counts
    from the end of the axis.  A pose before the first row or column of the
    map is thus judged by a pixel near the opposite border, not reported as
    off the map. *)
Theorem is_navigable_negative_index_wraps (self : RRTStarPNG) (pt : PointHeading)
    (px py : Z) (row : list Z) :
  _scale_x self (x pt) = Ok px -> _scale_x self (y pt) = Ok py ->
  let h := Z.of_nat (length (_map self)) in
  let w := Z.of_nat (length row) in
  (- h <= py < h)%Z -> _map self !! Z.to_nat (py `mod` h) = Some row ->
  (- w <= px < w)%Z ->
  exists v, row !! Z.to_nat (px `mod` w) = Some v /\
            _is_navigable self pt = Ok (bool_decide (v = 255%Z)).
Proof.
  intros Hx Hy h w Hpy Hrow Hpx.
  assert (Hwrap : forall n i, (- Z.of_nat n <= i < Z.of_nat n)%Z ->
                    np_axis n i = Ok (Z.to_nat (i `mod` Z.of_nat n))).
  { intros n i Hi. unfold np_axis. destruct (decide (0 <= i < Z.of_nat n)%Z).
    - by rewrite Z.mod_small.
    - rewrite decide_True by lia. do 2 f_equal.
      apply Z.mod_unique with (q := (-1)%Z); lia. }
  assert (Hlt : (Z.to_nat (px `mod` w) < length row)%nat).
  { pose proof (Z.mod_pos_bound px w). lia. }
  apply lookup_lt_is_Some_2 in Hlt as [v Hv]. exists v. split; [done |].
  unfold _is_navigable. rewrite Hx, Hy. cbn.
  unfold np_item2. rewrite (Hwrap _ py) by done. cbn. fold h. rewrite Hrow.
  rewrite (Hwrap _ px) by done. cbn. fold w. by rewrite Hv.
Qed.

(** ** Refining a path *)

Lemma finer_loop_acc pairs (acc : list PointHeading) precision resolution :
  finer_loop pairs acc precision resolution
  = (finer_loop pairs [] precision resolution ≫= fun tl => Ok (acc ++ tl)).
Proof.
  revert acc. induction pairs as [|[pt new_pt] pairs IH]; intros acc; cbn [finer_loop].
  - cbn. by rewrite app_nil_r.
  - destruct (_get_intermediate_pts pt new_pt precision resolution) as [mid| |]; cbn;
      [| done | done].
    rewrite IH. rewrite (IH (pt :: _)).
    destruct (finer_loop pairs [] precision resolution) as [tl| |]; cbn; [| done | done].
    f_equal. by rewrite <- !app_assoc.
Qed.

Lemma make_path_finer_cons (pt new_pt : PointHeading) (others : list PointHeading)
    precision resolution :
  make_path_finer (pt :: new_pt :: others) precision resolution
  = (_get_intermediate_pts pt new_pt precision resolution ≫= fun mid =>
     make_path_finer (new_pt :: others) precision resolution ≫= fun tl =>
     Ok (pt :: mid ++ new_pt :: tl)).
Proof.
  unfold make_path_finer.
  change (removelast (pt :: new_pt :: others)) with (pt :: removelast (new_pt :: others)).
  cbn [tail zip zip_with finer_loop].
  destruct (_get_intermediate_pts pt new_pt precision resolution) as [mid| |]; cbn;
    [| done | done].
  rewrite finer_loop_acc.
  destruct (finer_loop _ [] precision resolution) as [tl| |]; cbn; [| done | done].
  f_equal. by rewrite <- app_assoc.
Qed.

Lemma make_path_finer_waypoints (others : list PointHeading) :
  forall (pt new_pt : PointHeading) precision resolution fine,
    make_path_finer (pt :: new_pt :: others) precision resolution = Ok fine ->
    head fine = Some pt /\
    last fine = last (pt :: new_pt :: others) /\
    (pt :: new_pt :: others) `sublist_of` fine /\
    (2 * S (length others) <= length fine)%nat.
Proof.
  induction others as [|third others IH]; intros pt new_pt precision resolution fine;
    rewrite make_path_finer_cons;
    (destruct (_get_intermediate_pts pt new_pt precision resolution) as [mid| |];
     [rewrite bind_Ok | done | done]).
  - change (make_path_finer [new_pt] precision resolution) with (Ok (@nil PointHeading)).
    rewrite bind_Ok. intros [= <-]. split; [done |]. split; [| split].
    + by rewrite app_comm_cons, last_snoc.
    + apply sublist_skip, sublist_inserts_l. done.
    + simpl. rewrite length_app. simpl. lia.
  - destruct (make_path_finer (new_pt :: third :: others) precision resolution)
      as [tl| |] eqn:Etl; [rewrite bind_Ok | done | done].
    intros [= <-]. destruct (IH _ _ _ _ _ Etl) as (Hhead & Hlast & Hsub & Hlen).
    destruct tl as [|t0 tl]; [done |]. injection Hhead as ->.
    split; [done |]. split; [| split].
    + rewrite app_comm_cons, last_app_cons. rewrite last_cons_cons, Hlast.
      by rewrite !last_cons_cons.
    + apply sublist_skip, sublist_inserts_l, sublist_cons. done.
    + simpl in *. rewrite length_app. simpl. lia.
Qed.

(** [make_path_finer] keeps the waypoints: of a path of two poses or more
    the result, when the intermediate poses are found, begins with the first
    pose, ends with the last, holds the poses of the path in their order
    (every inner one twice, so that it is at least [2 * (len(path) - 1)]
    long); a path of one pose or none gives the empty list. *)
Theorem make_path_finer_keeps_waypoints (path : list PointHeading) (precision : Z)
    (resolution : R) :
  ((length path <= 1)%nat -> make_path_finer path precision resolution = Ok []) /\
  (forall fine,
     (2 <= length path)%nat ->
     make_path_finer path precision resolution = Ok fine ->
     head fine = head path /\ last fine = last path /\ path `sublist_of` fine /\
     (2 * (length path - 1) <= length fine)%nat).
Proof.
  split.
  - destruct path as [|pt [|new_pt others]]; simpl; [done | done | lia].
  - intros fine Hlen Hfine. destruct path as [|pt [|new_pt others]]; simpl in Hlen; try lia.
    destruct (make_path_finer_waypoints _ _ _ _ _ _ Hfine) as (H1 & H2 & H3 & H4).
    split; [done |]. split; [done |]. split; [done |]. simpl. lia.
Qed.

(** ** The info map and the navigability test *)

Lemma lookup_map {A B : Type} (f : A -> B) (l : list A) (i : nat) :
  map f l !! i = f <$> l !! i.
Proof.
  revert i. induction l as [|a l IH]; intros [|i]; simpl; try done.
Qed.

Lemma np_item2_map {A B : Type} (f : A -> B) (a : list (list A)) (i j : Z) :
  np_item2 (map (map f) a) i j
  = match np_item2 a i j with
    | Ok v => Ok (f v)
    | Raise e => Raise e
    | OutOfFuel => OutOfFuel
    end.
Proof.
  unfold np_item2. rewrite length_map.
  destruct (np_axis (length a) i) as [r| |]; cbn; [| done | done].
  rewrite lookup_map. destruct (a !! r) as [row|]; cbn; [| done].
  rewrite length_map.
  destruct (np_axis (length row) j) as [c| |]; cbn; [| done | done].
  rewrite lookup_map. by destruct (row !! c).
Qed.

Lemma init_info_map params gray self :
  RRTStarPNG_init params gray = Ok self ->
  _info_map self
  = map (map (fun v => if decide (v <> 255)%Z then 1%Z else 0%Z)) (_map self).
Proof.
  unfold RRTStarPNG_init.
  destruct (RRTStarBase_init _ _ _ _ _) as [b| |]; cbn; try done.
  destruct (decide (METERS_PER_PIXEL params = 0)) as [|Hne]; [done |].
  destruct (cv2_blur _ _) as [m| |]; cbn; try done.
  by intros [= <-].
Qed.

(** The info map that [RRTStarPNG.__init__] builds and [_is_navigable]
    agree: at the pixel of a pose the info map holds [0] or [1], and the
    pose is navigable exactly when it holds [0]; where the pixel is out of
    the bounds of the info map, the pose is not navigable. *)
Theorem info_map_agrees_with_navigable params gray self (pt : PointHeading) :
  RRTStarPNG_init params gray = Ok self ->
  exists px py,
    _scale_x self (x pt) = Ok px /\ _scale_x self (y pt) = Ok py /\
    ((exists v, np_item2 (_info_map self) py px = Ok v /\ (v = 0 \/ v = 1)%Z /\
                _is_navigable self pt = Ok (bool_decide (v = 0%Z))) \/
     (np_item2 (_info_map self) py px = Raise IndexError /\
      _is_navigable self pt = Ok false)).
Proof.
  intros Hinit. pose proof (init_scale_nonzero _ _ _ Hinit) as Hne.
  rewrite (init_info_map _ _ _ Hinit).
  unfold _is_navigable, _scale_x. rewrite !decide_False by done. cbn.
  set (px := int_of_float (x pt / meters_per_pixel self)).
  set (py := int_of_float (y pt / meters_per_pixel self)).
  exists px, py. split; [done |]. split; [done |]. rewrite np_item2_map.
  destruct (np_item2_cases (_map self) py px) as [(v & E)|E]; rewrite E.
  - left. destruct (decide (v <> 255)%Z) as [Hv|Hv].
    + exists 1%Z. split; [done |]. split; [by right |].
      by rewrite bool_decide_eq_false_2, (bool_decide_eq_false_2 (1 = 0)%Z).
    + exists 0%Z. split; [done |]. split; [by left |].
      rewrite bool_decide_eq_true_2 by lia. by rewrite bool_decide_eq_true_2.
  - by right.
Qed.

End Planner.

(** * Part III. The claims on the example planners *)

Lemma shortest_cost_nonneg (v : R) :
  0 < v ->
  forall a b return_heading consider_end_heading,
    cost_nonneg (shortest_cost_from_to v a b return_heading consider_end_heading).1.
Proof.
  intros Hv a b rh ceh. unfold cost_nonneg. simpl.
  unfold Rdiv. apply Rmult_le_pos; [apply sqrt_pos |].
  left. by apply Rinv_0_lt_compat.
Qed.

(** Two example poses with different [x] are different. *)
Ltac pose_apart :=
  let E := fresh in intros E; apply (f_equal x) in E; simpl in E; lra.

Ltac decide_poses :=
  repeat match goal with
  | |- context [@decide (?a = ?b) _] =>
      first [ rewrite (decide_True (P := a = b)) by reflexivity
            | rewrite (decide_False (P := a = b)) by pose_apart ]
  end.

Ltac eval_poses := repeat (progress (simpl; decide_poses)).

Lemma ex_start_left : ex_start <> ex_left.
Proof. pose_apart. Qed.

Lemma ex_planner_ok : planner_ok ex_planner.
Proof.
  exists ex_start, 0, 0. simpl. repeat (split; [reflexivity |]).
  split; [| split].
  - split; [| split].
    + simpl. by rewrite decide_True.
    + reflexivity.
    + intros p. destruct (decide (ex_start = p)) as [<-|Hs].
      { intros _. exists []. constructor. }
      destruct (decide (ex_left = p)) as [<-|Hl].
      { intros _. exists ([] ++ [ex_left]). econstructor; [| | constructor].
        - intros E. by apply ex_start_left.
        - simpl. rewrite decide_False by apply ex_start_left. by rewrite decide_True. }
      simpl. rewrite !decide_False by done. by intros [? ?].
  - intros q [ij Hq]. unfold bucket in Hq. simpl in Hq.
    destruct (decide (ij = (0, 0)%Z)) as [->|Hij].
    + rewrite lookup_singleton_eq in Hq. simpl in Hq.
      apply elem_of_cons in Hq as [->|Hq]; [simpl; by rewrite decide_True |].
      apply list_elem_of_singleton in Hq as ->. simpl.
      rewrite decide_False by apply ex_start_left. by rewrite decide_True.
    + rewrite lookup_singleton_ne in Hq by done. inversion Hq.
  - intros p c. simpl.
    destruct (decide (ex_start = p)); [intros [= <-]; unfold cost_nonneg; simpl; lra |].
    destruct (decide (ex_left = p)); [intros [= <-]; unfold cost_nonneg; simpl; lra | done].
Qed.

Lemma floordiv_small (a b : R) : 0 < b -> 0 <= a < b -> floordiv a b = 0%Z.
Proof. intros Hb Ha. apply floordiv_eq; [done |]. simpl. lra. Qed.

Lemma pymod_small (a b : R) : 0 < b -> 0 <= a < b -> pymod a b = a.
Proof.
  intros Hb Ha. unfold pymod. fold (floordiv a b). rewrite floordiv_small by done.
  simpl. lra.
Qed.

Lemma euclid_on_row (p q : PointHeading) :
  y p = y q -> x q <= x p -> _euclid_2D p q = x p - x q.
Proof.
  intros Hy Hx. unfold _euclid_2D. rewrite Hy.
  replace ((x p - x q) ^ 2 + (y q - y q) ^ 2) with ((x p - x q) * (x p - x q)) by ring.
  apply sqrt_square. lra.
Qed.

Lemma euclid_on_row_rev (p q : PointHeading) :
  y p = y q -> x p <= x q -> _euclid_2D p q = x q - x p.
Proof.
  intros Hy Hx. unfold _euclid_2D. rewrite Hy.
  replace ((x p - x q) ^ 2 + (y q - y q) ^ 2) with ((x q - x p) * (x q - x p)) by ring.
  apply sqrt_square. lra.
Qed.

Lemma arctan2_ahead (dx : R) : 0 < dx -> arctan2 (0 - 0) dx = 0.
Proof.
  intros Hdx. unfold arctan2. rewrite decide_True by done.
  replace ((0 - 0) / dx) with 0 by (field; lra). apply atan_0.
Qed.

Lemma ex_near_pts :
  _get_near_pts 0 0 4 (grid_hash ex_planner) ex_sample_at_start = [ex_start; ex_left].
Proof.
  unfold _get_near_pts. simpl x. simpl y.
  rewrite !floordiv_small by lra. rewrite !pymod_small by lra.
  rewrite !bool_decide_eq_true_2 by lra.
  unfold bucket. simpl grid_hash.
  rewrite lookup_singleton_eq. rewrite !lookup_singleton_ne by done. reflexivity.
Qed.

Lemma ex_valid_neighbors :
  valid_neighbors open_field ex_planner 0 0 ex_sample_at_start = [ex_left].
Proof.
  unfold valid_neighbors. simpl _near_threshold. rewrite ex_near_pts.
  rewrite filter_cons, decide_False.
  2:{ intros (_ & H & _). by apply H. }
  rewrite filter_cons, decide_True.
  2:{ split; [| split].
      - rewrite euclid_on_row; simpl; lra.
      - simpl. intros [= ?]. lra.
      - reflexivity. }
  by rewrite filter_nil.
Qed.

Lemma ex_cost_from_start_left (fuel : nat)
    (cost_from_to : PointHeading -> PointHeading -> bool -> bool -> cost * R) :
  _cost_from_start cost_from_to (S (S fuel)) ex_planner ex_left
  = Ok (Fin (0 + 1), ex_planner).
Proof.
  unfold _cost_from_start, _get_path_to_start. simpl _start. cbn [require mbind result_bind].
  simpl path_loop.
  rewrite (decide_False (P := ex_left = ex_start)) by (intros E; by apply ex_start_left).
  rewrite (decide_False (P := ex_start = ex_left)) by apply ex_start_left.
  rewrite (decide_True (P := ex_left = ex_left)) by done.
  rewrite (decide_True (P := ex_start = ex_start)) by done.
  cbn [mbind result_bind]. simpl sum_edges.
  rewrite (decide_False (P := ex_start = ex_left)) by apply ex_start_left.
  rewrite (decide_True (P := ex_left = ex_left)) by done.
  reflexivity.
Qed.

(** The run of [connect] on the sample at the start: [ex_left] is the one
    valid neighbour, the heading on arrival from it is [0], and the sample
    becomes the start pose itself. *)
Lemma ex_connect_at_start (fuel : nat) :
  connect (shortest_cost_from_to 1) open_field (S (S fuel)) ex_planner ex_sample_at_start
  = Ok (Some (insert_node ex_planner 0 0 ex_start ex_left (Fin ((1 - 0) / 1)))).
Proof.
  unfold connect. simpl x_min. simpl y_min. cbn [require mbind result_bind].
  rewrite ex_valid_neighbors. simpl choose_parent.
  rewrite ex_cost_from_start_left. cbn [mbind result_bind].
  rewrite (euclid_on_row_rev ex_left ex_sample_at_start) by (simpl; lra).
  simpl x. simpl y. rewrite arctan2_ahead by lra.
  rewrite decide_True by exact I. reflexivity.
Qed.

(** C1 fails in the code: the insertion [self.tree[rand_pt] = ...] does
    not guard the start as the rewiring loop does.  The sample that lands on
    the start pose (the neighbour filter lets it pass, for its one neighbour
    is at another position) is stored under the start's key: the tree is
    left with no pose mapped to [None], and the start and its child name
    each other as parent. *)
Lemma connect_at_start_unroots_tree :
  planner_ok ex_planner /\
  exists self',
    connect (shortest_cost_from_to 1) open_field 2 ex_planner ex_sample_at_start
      = Ok (Some self') /\
    _start self' = Some ex_start /\
    tree self' = [(ex_start, Some ex_left); (ex_left, Some ex_start)] /\
    roots (tree self') = [].
Proof.
  split; [apply ex_planner_ok |].
  eexists. split; [apply (ex_connect_at_start 0) |].
  split; [reflexivity |].
  assert (E : tree (insert_node ex_planner 0 0 ex_start ex_left (Fin ((1 - 0) / 1)))
              = [(ex_start, Some ex_left); (ex_left, Some ex_start)]).
  { unfold insert_node. simpl. by rewrite decide_True. }
  rewrite E. split; reflexivity.
Qed.





Lemma tree_insert_node self xm ym rand_pt parent c :
  tree (insert_node self xm ym rand_pt parent c) = dict_set (tree self) rand_pt (Some parent).
Proof. reflexivity. Qed.

Lemma cache_insert_node self xm ym rand_pt parent c :
  _cost_from_parent (insert_node self xm ym rand_pt parent c)
  = dict_set (_cost_from_parent self) rand_pt c.
Proof. reflexivity. Qed.

Lemma ex_planner_rewire_ok : planner_ok ex_planner_rewire.
Proof.
  unfold ex_planner_rewire.
  apply planner_ok_insert; [| reflexivity | reflexivity | | | ].
  - apply planner_ok_insert; [apply ex_planner_ok | reflexivity | reflexivity | | | ].
    + cbn [tree ex_planner]. eval_poses. reflexivity.
    + cbn [tree ex_planner]. eval_poses. eauto.
    + unfold cost_nonneg. simpl. lra.
  - rewrite tree_insert_node. cbn [tree ex_planner]. eval_poses. reflexivity.
  - rewrite tree_insert_node. cbn [tree ex_planner]. eval_poses. eauto.
  - unfold cost_nonneg. simpl. lra.
Qed.

Lemma ex_rewire_tree :
  tree ex_planner_rewire
  = [(ex_start, None); (ex_left, Some ex_start); (ex_far, Some ex_left);
     (ex_new, Some ex_start)].
Proof.
  unfold ex_planner_rewire. rewrite !tree_insert_node.
  change (tree ex_planner) with [(ex_start, @None PointHeading); (ex_left, Some ex_start)].
  eval_poses. reflexivity.
Qed.

Lemma ex_rewire_cache :
  _cost_from_parent ex_planner_rewire
  = [(ex_start, Fin 0); (ex_left, Fin 1); (ex_far, Fin 3); (ex_new, Fin 1)].
Proof.
  unfold ex_planner_rewire. rewrite !cache_insert_node.
  change (_cost_from_parent ex_planner) with [(ex_start, Fin 0); (ex_left, Fin 1)].
  eval_poses. reflexivity.
Qed.

Lemma ex_walk_new : walk (tree ex_planner_rewire) ex_start ex_new ([] ++ [ex_new]).
Proof.
  rewrite ex_rewire_tree. econstructor; [pose_apart | | constructor].
  eval_poses. reflexivity.
Qed.

Lemma ex_walk_far :
  walk (tree ex_planner_rewire) ex_start ex_far (([] ++ [ex_left]) ++ [ex_far]).
Proof.
  rewrite ex_rewire_tree. econstructor; [pose_apart | | econstructor; [pose_apart | | constructor]];
    eval_poses; reflexivity.
Qed.

Lemma ex_rewire_far (fuel : nat) :
  rewire_step (shortest_cost_from_to 1) open_field (S (S (S fuel)))
    ex_planner_rewire ex_new ex_far
  = Ok (set_cost_from_parent
          (set_tree ex_planner_rewire
             (dict_set (tree ex_planner_rewire) ex_far (Some ex_new)))
          (dict_set (_cost_from_parent ex_planner_rewire) ex_far
             (shortest_cost_from_to 1 ex_new ex_far false true).1)).
Proof.
  apply (rewire_step_eval (shortest_cost_from_to 1) open_field (S (S (S fuel)))
           ex_planner_rewire ex_start ex_new ex_far
           ([] ++ [ex_new]) (([] ++ [ex_left]) ++ [ex_far])
           (Fin (0 + 1)) (Fin (0 + 1 + 3)) (_cost_from_parent ex_planner_rewire)).
  - reflexivity.
  - pose_apart.
  - apply ex_walk_new.
  - simpl. lia.
  - rewrite ex_rewire_cache. eval_poses. reflexivity.
  - apply ex_walk_far.
  - simpl. lia.
  - rewrite ex_rewire_cache. eval_poses. reflexivity.
  - unfold shortest_cost_from_to. cbn [fst cost_add cost_lt].
    rewrite (euclid_on_row_rev ex_new ex_far) by (simpl; lra).
    change (x ex_far) with 3. change (x ex_new) with 2. lra.
  - reflexivity.
Qed.

(** C3 at the example planner: rewiring [ex_far] to the new pose leaves
    [ex_far] with a cost from the start that is no higher than before. *)
Lemma rewire_never_increases_cost_example :
  planner_ok ex_planner_rewire /\
  exists (n : nat) (c c' : cost),
    (forall f, (n < f)%nat ->
       exists s, _cost_from_start (shortest_cost_from_to 1) f ex_planner_rewire ex_far
                 = Ok (c, s)) /\
    (forall f, (n < f)%nat ->
       exists s, _cost_from_start (shortest_cost_from_to 1) f
                   (set_cost_from_parent
                      (set_tree ex_planner_rewire
                         (dict_set (tree ex_planner_rewire) ex_far (Some ex_new)))
                      (dict_set (_cost_from_parent ex_planner_rewire) ex_far
                         (shortest_cost_from_to 1 ex_new ex_far false true).1)) ex_far
                 = Ok (c', s)) /\
    cost_le c' c.
Proof.
  split; [apply ex_planner_rewire_ok |].
  apply (rewire_never_increases_cost (shortest_cost_from_to 1) open_field
           (shortest_cost_nonneg 1 ltac:(lra)) 3 ex_planner_rewire ex_new ex_far).
  - apply ex_planner_rewire_ok.
  - apply (ex_rewire_far 0).
  - rewrite ex_rewire_tree. eval_poses. eauto.
Defined.

(** ** The grid hash on examples *)

Lemma bucket_empty (ij : Z * Z) : bucket (∅ : gmap (Z * Z) (list PointHeading)) ij = [].
Proof. unfold bucket. by rewrite lookup_empty. Qed.

(** C2 as stated fails: with cells of 4 m, a pose stored 3 m to the right
    of the query lies in the next column, which the half-cell rule leaves out
    for a query in the left half of its cell. *)
Lemma near_pts_miss_pose_within_threshold :
  let grid := add_to_grid_hash 0 0 4 ∅ ex_stored_next_cell in
  grid_ok 0 0 4 grid /\
  stored grid ex_stored_next_cell /\
  _euclid_2D ex_query ex_stored_next_cell <= 4 /\
  ex_stored_next_cell ∉ _get_near_pts 0 0 4 grid ex_query.
Proof.
  cbv zeta. split; [| split; [| split]].
  - apply grid_ok_add, grid_ok_empty.
  - apply stored_add.
  - rewrite euclid_on_row_rev by (simpl; lra). simpl. lra.
  - assert (Hc : cell_of 0 0 4 ex_stored_next_cell = (1, 0)%Z).
    { unfold cell_of. simpl x. simpl y.
      rewrite (floordiv_eq (4 - 0) 4 1) by (simpl; lra).
      by rewrite floordiv_small by lra. }
    unfold _get_near_pts. simpl x. simpl y.
    rewrite !floordiv_small by lra. rewrite !pymod_small by lra.
    rewrite !bool_decide_eq_true_2 by lra.
    rewrite !bucket_add, Hc. rewrite !decide_False by done.
    rewrite !bucket_empty. simpl. apply not_elem_of_nil.
Qed.

(** C2, amended, on an example: a pose stored 1 m from the query, with
    cells of 4 m, is returned. *)
Lemma near_pts_cover_half_threshold_example :
  ex_stored_close ∈ _get_near_pts 0 0 4 (add_to_grid_hash 0 0 4 ∅ ex_stored_close) ex_query.
Proof.
  apply (near_pts_cover_half_threshold 0 0 4).
  - lra.
  - apply grid_ok_add, grid_ok_empty.
  - apply stored_add.
  - rewrite euclid_on_row_rev by (simpl; lra). simpl. lra.
Defined.

(** C5 on an example: the search from [ex_query] in a grid that stores
    one pose returns a stored pose. *)
Lemma closest_tree_pt_returns_stored_example :
  exists (k : nat) (q : PointHeading),
    (forall fuel, (k < fuel)%nat ->
       _closest_tree_pt 0 0 4 fuel (add_to_grid_hash 0 0 4 ∅ ex_stored_next_cell) ex_query
       = Ok q) /\
    stored (add_to_grid_hash 0 0 4 ∅ ex_stored_next_cell) q.
Proof.
  destruct (closest_tree_pt_returns_stored 0 0 4
              (add_to_grid_hash 0 0 4 ∅ ex_stored_next_cell) ex_query)
    as (k & q & H1 & H2 & _).
  - lra.
  - exists ex_stored_next_cell. apply stored_add.
  - exists k, q. split; [exact H1 | exact H2].
Defined.

(** ** The raster adapter on an example *)

(** C10 on an example: the planner for the 1x1 map is constructed, and a
    pose five metres off the map is reported as not navigable. *)
Lemma is_navigable_total_example :
  exists self,
    RRTStarPNG_init ex_blur ex_params ex_gray = Ok self /\
    exists (b : bool) (px py : Z),
      _scale_x self (x ex_off_map) = Ok px /\
      _scale_x self (y ex_off_map) = Ok py /\
      _is_navigable self ex_off_map = Ok b.
Proof.
  assert (Hinit : exists self, RRTStarPNG_init ex_blur ex_params ex_gray = Ok self).
  { unfold RRTStarPNG_init, RRTStarBase_init. cbn [NEAR_THRESHOLD MAX_DISTANCE ex_params].
    rewrite decide_True by lra. rewrite bind_Ok.
    cbn [METERS_PER_PIXEL ex_params]. rewrite decide_False by lra.
    unfold ex_blur. rewrite bind_Ok. eauto. }
  destruct Hinit as (self & Hinit). exists self. split; [exact Hinit |].
  destruct (is_navigable_total ex_blur ex_params ex_gray self ex_off_map Hinit)
    as (b & px & py & H1 & H2 & H3 & _).
  exists b, px, py. done.
Defined.

(** ** The sampler on a planner without output directory *)

Lemma ex_init_png : RRTStarPNG_init ex_blur ex_params ex_gray = Ok ex_png.
Proof.
  unfold RRTStarPNG_init, RRTStarBase_init. cbn [NEAR_THRESHOLD MAX_DISTANCE ex_params].
  rewrite decide_True by lra. rewrite bind_Ok.
  cbn [METERS_PER_PIXEL ex_params]. rewrite decide_False by lra.
  unfold ex_blur. rewrite bind_Ok. cbn [_near_threshold].
  replace (floordiv (4 * 1.2) 1) with 4%Z.
  2:{ symmetry. apply floordiv_eq; [lra |]. simpl. lra. }
  reflexivity.
Qed.

Lemma ex_window_centre_unmasked :
  U_total ex_edt ex_png ex_window (0, 0) (9, 0) 0.5 1 1 1 1 0.5 (2%nat, 2%nat) <> Inf.
Proof.
  unfold U_total. cbn [fst snd].
  assert (Hd : dist_to_center ex_png (0, 0) 2 2 = 0).
  { unfold dist_to_center, x_coords, y_coords, map_origin. cbn [fst snd ex_png _local_map_size _cell_size].
    change (4 `div` 2)%Z with 2%Z. simpl INR.
    replace ((0 - 2 * 1 + (1 + 1) * 1 - 0) ^ 2 + (0 - 2 * 1 + (1 + 1) * 1 - 0) ^ 2) with 0 by ring.
    apply sqrt_0. }
  rewrite Hd. cbn [ex_png base _max_distance]. rewrite decide_False by lra.
  unfold repulsive, attractive, rho_obs, rho_node, ex_edt. cbn [ex_png _cell_size].
  rewrite !(decide_False (P := 3 * 1 <= _)) by lra.
  by destruct (decide (_ <= 1)).
Qed.

(** C6 at the planner without output directory: on the first iteration,
    a visualization tick, the sampler does not return the position of the
    cell of least potential of the free window; it raises the [TypeError]
    of [osp.join(None, "fields")]. *)
Lemma sample_without_directory_raises :
  RRTStarPNG_init ex_blur ex_params ex_gray = Ok ex_png /\
  _directory (base ex_png) = None /\
  _sample_point_by_local_map ex_edt ex_png ex_window (0, 0) (9, 0) 0.5 1 1 1 1 0.5
  = Raise TypeError.
Proof.
  split; [apply ex_init_png |]. split; [reflexivity |].
  apply sample_dump_without_directory; [reflexivity | done | reflexivity |].
  exists (2%nat, 2%nat). split; [| apply ex_window_centre_unmasked].
  unfold row_major. simpl.
  repeat first [apply list_elem_of_here | apply list_elem_of_further].
Qed.

(** ** Checkpoints of the example planner *)

Lemma wrap_heading_0 : wrap_heading 0 = 0.
Proof.
  unfold wrap_heading.
  replace (Zfloor ((PI - 0) / (2 * PI))) with 0%Z; [simpl; lra |].
  symmetry. apply Zfloor_eq. pose proof PI_RGT_0. simpl.
  replace ((PI - 0) / (2 * PI)) with (1 / 2) by (field; lra). lra.
Qed.

Lemma ex_float_str_IZR (v : Z) :
  ex_float_str (IZR v) = DecimalString.NilZero.string_of_int (Z.to_int v).
Proof. unfold ex_float_str. by rewrite ZfloorZ. Qed.

(** The key of a pose with integer coordinates and heading [0] is read
    back as the pose, once its four fields are. *)
Lemma ex_key_ok (a b c : Z) :
  (let str := fun v => DecimalString.NilZero.string_of_int (Z.to_int v) in
   let num := fun s => Z.of_int <$> DecimalString.NilZero.int_of_string s in
   match split_on "_"%char []
           (str a +:+ "_" +:+ str b +:+ "_" +:+ str c +:+ "_" +:+ str 0%Z) with
   | [sx; sy; sz; sh] =>
       num sx = Some a /\ num sy = Some b /\ num sz = Some c /\ num sh = Some 0%Z
   | _ => False
   end) ->
  key_ok ex_float_str ex_float_of_str (mkPointHeading (IZR a) (IZR b) (IZR c) 0).
Proof.
  cbv zeta. intros H. unfold key_ok, _str_key. simpl x. simpl y. simpl z. simpl heading.
  rewrite !ex_float_str_IZR. unfold _str_to_pt.
  destruct (split_on _ _ _) as [|sx [|sy [|sz [|sh [|? ?]]]]]; try done.
  destruct H as (Hx & Hy & Hz & Hh). unfold ex_float_of_str.
  destruct (DecimalString.NilZero.int_of_string sx); [| done].
  destruct (DecimalString.NilZero.int_of_string sy); [| done].
  destruct (DecimalString.NilZero.int_of_string sz); [| done].
  destruct (DecimalString.NilZero.int_of_string sh); [| done].
  simpl in Hx, Hy, Hz, Hh. injection Hx as ->. injection Hy as ->.
  injection Hz as ->. injection Hh as ->.
  rewrite !bind_Ok. unfold new_PointHeading. by rewrite wrap_heading_0.
Qed.

Lemma ex_key_ok_start : key_ok ex_float_str ex_float_of_str ex_start.
Proof. apply (ex_key_ok 1 0 0). vm_compute. done. Qed.

Lemma ex_key_ok_new : key_ok ex_float_str ex_float_of_str ex_new.
Proof. apply (ex_key_ok 2 0 0). vm_compute. done. Qed.

Lemma ex_key_ok_goal : key_ok ex_float_str ex_float_of_str ex_goal.
Proof. apply (ex_key_ok 9 0 0). vm_compute. done. Qed.

Lemma ex_saved_rooted : tree_ok (tree ex_saved) ex_start.
Proof.
  split; [| split].
  - simpl. by rewrite decide_True.
  - reflexivity.
  - intros p. destruct (decide (ex_start = p)) as [<-|Hs].
    { intros _. exists []. constructor. }
    destruct (decide (ex_new = p)) as [<-|Hl].
    { intros _. exists ([] ++ [ex_new]). econstructor; [| | constructor].
      - pose_apart.
      - simpl. rewrite decide_False by pose_apart. by rewrite decide_True. }
    simpl. rewrite !decide_False by done. by intros [? ?].
Qed.

Lemma ex_saved_keys p :
  is_Some (dict_get (tree ex_saved) p) -> key_ok ex_float_str ex_float_of_str p.
Proof.
  simpl. destruct (decide (ex_start = p)) as [<-|]; [intros _; apply ex_key_ok_start |].
  destruct (decide (ex_new = p)) as [<-|]; [intros _; apply ex_key_ok_new |].
  by intros [? ?].
Qed.

Lemma ex_saved_nodup : NoDup (tree ex_saved).*1.
Proof.
  simpl. apply NoDup_cons. split; [| apply NoDup_singleton].
  intros H. apply list_elem_of_singleton in H. revert H. pose_apart.
Qed.

Lemma ex_saved_best b :
  _best_goal_node ex_saved = Some b -> is_Some (dict_get (tree ex_saved) b).
Proof.
  intros [= <-]. simpl. rewrite decide_False by pose_apart.
  rewrite decide_True by done. eauto.
Qed.

Lemma ex_saved_non_root : non_root ex_start (tree ex_saved) = [(ex_new, Some ex_start)].
Proof.
  unfold non_root. simpl tree. rewrite filter_cons_False by (simpl; auto).
  rewrite filter_cons_True by (simpl; pose_apart). by rewrite filter_nil.
Qed.

(** C7 as it is stated fails at the example planner: its checkpoint is
    written and read into a planner as [__init__] leaves it, and the tree
    that was read has no entry for the start, which the tree that was
    written maps to [None]. *)
Lemma reload_into_fresh_planner_drops_root :
  exists (fuel : nat) (doc : list (string * json)) (self1 new' : RRTStarBase),
    _string_tree (shortest_cost_from_to 1) ex_float_str fuel ex_saved = Ok (doc, self1) /\
    _load_tree_from_json ex_float_of_str (fun _ => Ok doc) ex_num_iterations ex_offsets
      ex_fresh (Some "7_graph.json"%string) [] = Ok new' /\
    dict_get (tree ex_saved) ex_start = Some None /\
    dict_get (tree new') ex_start = None /\
    tree new' <> tree ex_saved.
Proof.
  destruct (string_tree_doc (shortest_cost_from_to 1) ex_float_str ex_float_of_str
              ex_saved ex_start ex_goal eq_refl eq_refl ex_saved_rooted ex_saved_nodup
              ex_saved_keys ex_saved_best) as (k & best_cost & raw & Hdoc).
  destruct (Hdoc (S k)) as [self1 Hwrite]; [lia |].
  destruct (load_checkpoint_doc ex_float_str ex_float_of_str
              (fun _ => Ok (checkpoint_doc ex_float_str ex_start ex_goal
                              (_best_goal_node ex_saved) best_cost raw (tree ex_saved)))
              ex_num_iterations ex_offsets ex_fresh ex_start ex_goal
              (_best_goal_node ex_saved) best_cost raw (tree ex_saved)
              "7_graph.json"%string [] 7%Z)
    as (new' & Hread & Htree & _);
    [apply ex_saved_rooted | apply ex_saved_nodup | apply ex_saved_keys
    | apply ex_key_ok_goal | apply ex_saved_best | done | done | done | done
    | by left | done | done |].
  eexists (S k), _, self1, new'. split; [exact Hwrite |]. split; [exact Hread |].
  rewrite Htree, ex_saved_non_root. split; [| split].
  - simpl. by rewrite decide_True.
  - simpl. by rewrite decide_False by pose_apart.
  - simpl. intros E. discriminate E.
Qed.

(** C7, amended, at the example planner: its checkpoint is written, and
    read into a planner as [__init__] leaves it the document gives the
    start, the goal, the best goal node and the entry of [ex_new]. *)
Lemma checkpoint_round_trip_example :
  exists (fuel : nat) (doc : list (string * json)) (self1 new' : RRTStarBase),
    _string_tree (shortest_cost_from_to 1) ex_float_str fuel ex_saved = Ok (doc, self1) /\
    _load_tree_from_json ex_float_of_str (fun _ => Ok doc) ex_num_iterations ex_offsets
      ex_fresh (Some "7_graph.json"%string) [] = Ok new' /\
    tree new' = [(ex_new, Some ex_start)] /\
    _start new' = Some ex_start /\
    _goal new' = Some ex_goal /\
    _best_goal_node new' = Some ex_new /\
    _start_iteration new' = 8%Z.
Proof.
  pose proof (fun json_load =>
    checkpoint_round_trip (shortest_cost_from_to 1) ex_float_str ex_float_of_str
      json_load ex_num_iterations ex_offsets ex_saved ex_fresh ex_start ex_goal
      "7_graph.json"%string [] 7%Z eq_refl eq_refl ex_saved_rooted ex_saved_nodup
      ex_saved_keys ex_key_ok_goal ex_saved_best eq_refl eq_refl eq_refl eq_refl
      (or_introl eq_refl) eq_refl) as H.
  destruct (H (fun _ => Raise JSONDecodeError)) as [(k & Hwrite) _].
  destruct (Hwrite (S k)) as (doc & self1 & Hdoc); [lia |].
  destruct (H (fun _ => Ok doc)) as [_ Hread].
  destruct (Hread (S k) doc self1 Hdoc eq_refl) as (new' & Hload & Ht & Hs & Hg & Hb & Hi).
  exists (S k), doc, self1, new'. rewrite ex_saved_non_root in Ht. done.
Defined.

(** ** A checkpoint that cannot be read *)


(** ** Steering and heading errors on examples *)

(** [max_point_steers] on the example planner, whose step is one metre:
    the sample two metres from the start is pulled in. *)
Lemma max_point_steers_example :
  _euclid_2D ex_start (_max_point ex_planner ex_start ex_sample_right).1 <= 1 /\
  (_max_point ex_planner ex_start ex_sample_right).2 = true.
Proof.
  destruct (max_point_steers ex_planner ex_start ex_sample_right) as (H1 & _ & H3).
  - simpl. lra.
  - split; [exact H1 |]. apply H3. simpl _max_distance.
    rewrite (euclid_on_row_rev ex_start ex_sample_right) by (simpl; lra). simpl. lra.
Defined.

(** [heading_error_in_range] between the headings [0] and [PI]. *)
Lemma heading_error_in_range_example :
  - PI <= _get_heading_error 0 PI <= PI.
Proof.
  pose proof PI_RGT_0.
  destruct (heading_error_in_range 0 PI) as (H1 & _); [lra | lra | exact H1].
Defined.

(** ** The grid hash on examples *)

(** [near_pts_in_block] for the pose stored one metre from the query. *)
Lemma near_pts_in_block_example :
  Rabs (x ex_stored_close - x ex_query) < 1.5 * 4.
Proof.
  destruct (near_pts_in_block 0 0 4 (add_to_grid_hash 0 0 4 ∅ ex_stored_close)
              ex_query ex_stored_close) as (_ & H & _).
  - lra.
  - apply grid_ok_add, grid_ok_empty.
  - apply (near_pts_cover_half_cell 0 0 4).
    + lra.
    + apply grid_ok_add, grid_ok_empty.
    + apply stored_add.
    + simpl. rewrite Rabs_right; lra.
    + simpl. rewrite Rabs_right; lra.
  - exact H.
Defined.

(** [closest_tree_pt_empty_never_returns] on the empty grid hash. *)
Lemma closest_tree_pt_empty_never_returns_example :
  _closest_tree_pt 0 0 4 100 ∅ ex_query = OutOfFuel.
Proof.
  apply closest_tree_pt_empty_never_returns; [lra | apply bucket_empty].
Defined.

(** [closest_tree_pt_of_stored] for the one pose of a grid hash. *)
Lemma closest_tree_pt_of_stored_example :
  exists q,
    _closest_tree_pt 0 0 4 1 (add_to_grid_hash 0 0 4 ∅ ex_stored_close) ex_stored_close = Ok q /\
    _euclid_2D ex_stored_close q = 0.
Proof.
  destruct (closest_tree_pt_of_stored 0 0 4 (add_to_grid_hash 0 0 4 ∅ ex_stored_close)
              ex_stored_close) with (fuel := 0%nat) as (q & H1 & _ & H2).
  - rewrite bucket_add, decide_True by done. apply elem_of_app. right. apply list_elem_of_here.
  - by exists q.
Defined.

(** ** Paths and costs on the example planner *)

(** [cost_from_start_is_memoised] for the pose below the start. *)
Lemma cost_from_start_is_memoised_example :
  _cost_from_start (shortest_cost_from_to 1) 2 ex_planner ex_left
  = Ok (Fin (0 + 1), ex_planner) /\
  tree ex_planner = tree ex_planner.
Proof.
  split; [apply (ex_cost_from_start_left 0) |].
  destruct (cost_from_start_is_memoised (shortest_cost_from_to 1) 2 ex_planner ex_planner
              ex_start ex_left (Fin (0 + 1)) eq_refl
              (ex_cost_from_start_left 0 (shortest_cost_from_to 1))) as (H & _).
  exact H.
Defined.

(** [get_path_to_start_follows_parents] on the example planner: the path
    of the start is the start alone. *)
Lemma get_path_to_start_follows_parents_example :
  _get_path_to_start 1 ex_planner ex_start = Ok [ex_start].
Proof.
  destruct (get_path_to_start_follows_parents 0 ex_planner ex_start ex_left eq_refl)
    as (_ & H & _).
  exact H.
Defined.

(** [cost_from_start_adds_edges] for the pose below the start, whose edge
    costs [1]. *)
Lemma cost_from_start_adds_edges_example :
  exists self2,
    _cost_from_start (shortest_cost_from_to 1) 2 ex_planner ex_left
    = Ok (cost_add (Fin 0)
            (edge_cost (shortest_cost_from_to 1) (_cost_from_parent ex_planner)
               ex_start ex_left), self2).
Proof.
  destruct (cost_from_start_adds_edges (shortest_cost_from_to 1) 1 ex_planner ex_planner
              ex_start ex_left ex_start (Fin 0) eq_refl) as (_ & H).
  apply H.
  - intros E. by apply ex_start_left.
  - simpl. rewrite decide_False by apply ex_start_left. by rewrite decide_True.
  - unfold _cost_from_start, _get_path_to_start. simpl _start.
    cbn [require mbind result_bind]. simpl path_loop. rewrite decide_True by done.
    reflexivity.
Defined.

(** ** Parent choice, insertion and rewiring on the example planners *)

Lemma ex_choose_parent (fuel : nat) :
  exists mc best self',
    choose_parent (shortest_cost_from_to 1) (S (S fuel)) ex_planner ex_sample_at_start
      [ex_left] 0 Inf None = Ok (mc, best, self').
Proof.
  simpl choose_parent. rewrite ex_cost_from_start_left. cbn [mbind result_bind].
  rewrite (euclid_on_row_rev ex_left ex_sample_at_start) by (simpl; lra).
  simpl x. simpl y. rewrite decide_True by exact I. eauto.
Qed.

(** [choose_parent_picks_cheapest] for the sample at the start, whose one
    valid neighbour is [ex_left]. *)
Lemma choose_parent_picks_cheapest_example :
  exists mc best self',
    choose_parent (shortest_cost_from_to 1) 2 ex_planner ex_sample_at_start
      [ex_left] 0 Inf None = Ok (mc, best, self') /\
    tree self' = tree ex_planner.
Proof.
  destruct (ex_choose_parent 0) as (mc & best & self' & H).
  exists mc, best, self'. split; [exact H |].
  destruct (choose_parent_picks_cheapest (shortest_cost_from_to 1) 2 ex_planner self'
              ex_start ex_sample_at_start [ex_left] mc best eq_refl H) as (Ht & _).
  exact Ht.
Defined.

(** [rewire_only_reparents] for the rewiring of [ex_far] below [ex_new]. *)
Lemma rewire_only_reparents_example :
  exists self',
    rewire (shortest_cost_from_to 1) open_field 3 ex_planner_rewire ex_new [ex_far]
    = Ok self' /\
    grid_hash self' = grid_hash ex_planner_rewire.
Proof.
  assert (H : exists self',
            rewire (shortest_cost_from_to 1) open_field 3 ex_planner_rewire ex_new [ex_far]
            = Ok self').
  { cbn [rewire]. rewrite (ex_rewire_far 0). cbn [mbind result_bind]. eauto. }
  destruct H as (self' & H). exists self'. split; [exact H |].
  destruct (rewire_only_reparents (shortest_cost_from_to 1) open_field 3 ex_planner_rewire
              self' ex_start ex_new [ex_far] eq_refl H) as (_ & _ & Hg & _).
  exact Hg.
Defined.

(** [connect_inserts_below_neighbour] for the sample at the start. *)
Lemma connect_inserts_below_neighbour_example :
  exists parent,
    parent ∈ valid_neighbors open_field ex_planner 0 0 ex_sample_at_start /\
    _euclid_2D ex_sample_at_start parent < _near_threshold ex_planner.
Proof.
  destruct (connect_inserts_below_neighbour (shortest_cost_from_to 1) open_field 2
              ex_planner _ ex_start 0 0 ex_sample_at_start eq_refl eq_refl eq_refl
              (ex_connect_at_start 0)) as (parent & H1 & _ & H2 & _).
  exists parent. split; [exact H1 | exact H2].
Defined.

(** ** The prologue, pose keys and checkpoints on examples *)

(** [generate_tree_prologue_roots_tree] for the planner [ex_fresh]. *)
Lemma generate_tree_prologue_roots_tree_example :
  RRTStarBase_init 1 1 4 1 (Some "out"%string) = Ok ex_fresh /\
  planner_ok (root_tree ex_fresh (1, 0, 0) 0 (9, 0, 0) (0, 0)).
Proof.
  assert (Hinit : RRTStarBase_init 1 1 4 1 (Some "out"%string) = Ok ex_fresh).
  { unfold RRTStarBase_init. by rewrite decide_True by lra. }
  split; [exact Hinit |].
  destruct (generate_tree_prologue_roots_tree 1 1 4 1 (Some "out"%string) ex_fresh
              (1, 0, 0) (9, 0, 0) 0 (0, 0) Hinit ltac:(lra))
    as (start & _ & _ & _ & _ & _ & Hok).
  exact Hok.
Defined.

(** [str_to_pt_needs_four_fields] for a key of two fields. *)
Lemma str_to_pt_needs_four_fields_example :
  _str_to_pt ex_float_of_str "1_2" = Raise ValueError.
Proof.
  apply str_to_pt_needs_four_fields. vm_compute. lia.
Defined.

(** [load_picks_latest_checkpoint] for two files of iteration 7: the
    planner loads one of them. *)
Lemma load_picks_latest_checkpoint_example :
  exists p : string,
    p ∈ ["7_a.json"; "7_b.json"]%string /\
    _load_tree_from_json ex_float_of_str (fun _ => Raise JSONDecodeError) ex_num_iterations
      ex_offsets ex_fresh None ["7_a.json"; "7_b.json"]%string
    = _load_tree_from_json ex_float_of_str (fun _ => Raise JSONDecodeError) ex_num_iterations
        ex_offsets ex_fresh (Some p) ["7_a.json"; "7_b.json"]%string.
Proof.
  destruct (load_picks_latest_checkpoint ex_float_of_str (fun _ => Raise JSONDecodeError)
              ex_num_iterations ex_offsets ex_fresh "7_a.json"%string ["7_b.json"%string])
    as (p & n & l1 & l2 & Hsplit & _ & _ & _ & H).
  - by eexists.
  - repeat constructor; by exists 7%Z.
  - exists p. split; [| exact H]. rewrite Hsplit. apply elem_of_app. right.
    apply list_elem_of_here.
Defined.

(** [get_best_path_ends_at_goal] for the planner without best goal node. *)
Lemma get_best_path_ends_at_goal_example : _get_best_path 1 ex_planner = Ok [].
Proof.
  destruct (get_best_path_ends_at_goal 1 ex_planner ex_start (mkPointHeading 9 0 0 0)
              eq_refl eq_refl) as [H _].
  by apply H.
Defined.

(** [resume_restores_tree] for the checkpoint of [ex_saved], loaded into
    the planner that holds the start. *)
Lemma resume_restores_tree_example :
  exists new',
    _load_tree_from_json ex_float_of_str
      (fun _ => Ok (checkpoint_doc ex_float_str ex_start ex_goal (Some ex_new) (Fin 2) []
                      (tree ex_saved)))
      ex_num_iterations ex_offsets ex_rooted (Some "7_graph.json"%string) [] = Ok new' /\
    tree new' = tree ex_saved /\
    _best_goal_node new' = Some ex_new.
Proof.
  destruct (resume_restores_tree ex_float_str ex_float_of_str
              (fun _ => Ok (checkpoint_doc ex_float_str ex_start ex_goal (Some ex_new) (Fin 2)
                              [] (tree ex_saved)))
              ex_num_iterations ex_offsets ex_rooted ex_start ex_goal (Some ex_new) (Fin 2) []
              [(ex_new, Some ex_start)] "7_graph.json"%string [] 7%Z)
    as (new' & H1 & H2 & H3 & _);
    [apply ex_saved_rooted | apply ex_saved_nodup | apply ex_saved_keys
    | apply ex_saved_best | done | by eexists | by eexists | by eexists | done | done
    | done | done |].
  exists new'. split; [exact H1 |]. split; [exact H2 | exact H3].
Defined.

(** ** The best goal node on an example *)

Lemma ex_update_best_goal :
  exists self',
    update_best_goal (shortest_cost_from_to 1) open_field 2 ex_planner_near_goal 0 500
    = Ok self'.
Proof.
  unfold update_best_goal. rewrite decide_True by reflexivity. cbn [mbind result_bind].
  change (_goal ex_planner_near_goal) with (Some ex_sample_at_start).
  change (x_min ex_planner_near_goal) with (Some 0).
  change (y_min ex_planner_near_goal) with (Some 0).
  cbn [require mbind result_bind].
  change (_near_threshold ex_planner_near_goal) with 4.
  change (grid_hash ex_planner_near_goal) with (grid_hash ex_planner).
  rewrite ex_near_pts. cbn [goal_costs].
  change (_near_threshold ex_planner_near_goal) with 4.
  assert (E0 : _euclid_2D ex_start ex_sample_at_start = 0).
  { rewrite euclid_on_row by (simpl; lra). simpl. lra. }
  rewrite E0. rewrite bool_decide_eq_true_2 by lra. cbn [open_field andb].
  destruct (_cost_from_start (shortest_cost_from_to 1) 2 ex_planner_near_goal ex_start)
    as [[c1 s1]| |] eqn:E1.
  2,3: (unfold _cost_from_start, _get_path_to_start in E1; simpl _start in E1;
        cbn [require mbind result_bind] in E1; simpl path_loop in E1;
        rewrite decide_True in E1 by done; discriminate E1).
  cbn [mbind result_bind].
  pose proof E1 as [cache1 ->]%cost_from_start_state.
  change (_near_threshold (set_cost_from_parent ex_planner_near_goal cache1)) with 4.
  assert (E2 : _euclid_2D ex_left ex_sample_at_start = 1).
  { rewrite euclid_on_row_rev by (simpl; lra). simpl. lra. }
  rewrite E2. rewrite bool_decide_eq_true_2 by lra. cbn [open_field andb].
  destruct (_cost_from_start (shortest_cost_from_to 1) 2
              (set_cost_from_parent ex_planner_near_goal cache1) ex_left)
    as [[c2 s2]| |] eqn:E2'.
  2,3: (unfold _cost_from_start, _get_path_to_start in E2'; simpl _start in E2';
        cbn [require mbind result_bind] in E2'; simpl tree in E2'; simpl path_loop in E2';
        rewrite (decide_False (P := ex_left = ex_start)) in E2'
          by (intros E; by apply ex_start_left);
        rewrite (decide_False (P := ex_start = ex_left)) in E2' by apply ex_start_left;
        rewrite (decide_True (P := ex_left = ex_left)) in E2' by done;
        rewrite (decide_True (P := ex_start = ex_start)) in E2' by done;
        cbn [mbind result_bind] in E2';
        destruct (sum_edges _ _ _ _ _) in E2'; discriminate E2').
  cbn [mbind result_bind]. eauto.
Qed.

(** [update_best_goal_picks_cheapest] on iteration [0] of the planner whose
    goal lies at the start: the tree is as it was. *)
Lemma update_best_goal_picks_cheapest_example :
  exists self',
    update_best_goal (shortest_cost_from_to 1) open_field 2 ex_planner_near_goal 0 500
    = Ok self' /\
    tree self' = tree ex_planner_near_goal.
Proof.
  destruct ex_update_best_goal as [self' H]. exists self'. split; [exact H |].
  destruct (update_best_goal_picks_cheapest (shortest_cost_from_to 1) open_field 2
              ex_planner_near_goal self' ex_start ex_sample_at_start 0 0 0 500
              eq_refl eq_refl eq_refl eq_refl H) as (Ht & _).
  exact Ht.
Defined.

(** ** The local map on the one-pixel map *)

Lemma ex_png_scale : _scale_x ex_png 0 = Ok 0%Z /\ _scale_y ex_png 0 = Ok 0%Z.
Proof.
  assert (E : int_of_float (0 / 1) = 0%Z).
  { unfold int_of_float. replace (0 / 1) with 0 by field.
    rewrite decide_True by lra. apply (ZfloorZ 0). }
  unfold _scale_x, _scale_y. simpl meters_per_pixel.
  rewrite !decide_False by lra. by rewrite E.
Qed.

Lemma ex_png_rectangular : rectangular (_info_map ex_png).
Proof. repeat constructor. Qed.

(** [get_local_map_cells] around the one pixel of the map [ex_gray]. *)
Lemma get_local_map_cells_example :
  exists a, _get_local_map ex_png (0, 0) = Ok a /\ @shape0 Z a = 4%nat.
Proof.
  destruct (get_local_map_cells ex_png (0, 0)) as (a & sx & sy & _ & _ & H & H0 & _).
  - simpl. lra.
  - simpl. lia.
  - apply ex_png_rectangular.
  - exists a. split; [exact H | exact H0].
Defined.

Lemma ex_png_add_node :
  exists self', _add_node_in_info_map ex_png (0, 0) = Ok self'.
Proof.
  destruct ex_png_scale as [Hx Hy].
  unfold _add_node_in_info_map. cbn [fst snd]. rewrite Hx, Hy. cbn. eauto.
Qed.

(** [marked_node_is_centre_of_local_map] for a node at the one pixel. *)
Lemma marked_node_is_centre_of_local_map_example :
  exists self' a,
    _add_node_in_info_map ex_png (0, 0) = Ok self' /\
    _get_local_map self' (0, 0) = Ok a /\
    @item Z a 2%nat 2%nat = 2%Z.
Proof.
  destruct ex_png_scale as [Hx Hy]. destruct ex_png_add_node as [self' Hadd].
  destruct (marked_node_is_centre_of_local_map ex_png self' (0, 0) 0 0) as (a & H1 & H2).
  - apply ex_png_rectangular.
  - simpl. lia.
  - exact Hx.
  - exact Hy.
  - simpl. lia.
  - unfold shape_1. simpl. lia.
  - exact Hadd.
  - exists self', a. split; [exact Hadd |]. split; [exact H1 | exact H2].
Defined.

(** ** The sampler, the navigability test and the refined path on examples *)

Lemma ex_window_centre_reachable :
  U_total ex_edt_zero ex_png_iteration_1 ex_window (0, 0) (9, 0) 0.5 1 1 1 1 0.5
    (2%nat, 2%nat) <> Inf.
Proof.
  unfold U_total. cbn [fst snd].
  assert (Hd : dist_to_center ex_png_iteration_1 (0, 0) 2 2 = 0).
  { unfold dist_to_center, x_coords, y_coords, map_origin.
    cbn [fst snd ex_png_iteration_1 ex_png _local_map_size _cell_size].
    change (4 `div` 2)%Z with 2%Z. simpl INR.
    replace ((0 - 2 * 1 + (1 + 1) * 1 - 0) ^ 2 + (0 - 2 * 1 + (1 + 1) * 1 - 0) ^ 2)
      with 0 by ring.
    apply sqrt_0. }
  rewrite Hd. cbn [ex_png_iteration_1 ex_png base _max_distance].
  rewrite decide_False by lra.
  unfold repulsive, attractive, rho_obs, rho_node, ex_edt_zero, complement_of, ex_window.
  cbn [item ex_png_iteration_1 ex_png _cell_size].
  rewrite !(decide_False (P := (0 = _)%Z)) by done.
  rewrite !(decide_False (P := (1 = 0)%Z)) by done.
  rewrite !(decide_False (P := 3 * 1 <= _)) by lra.
  by destruct (decide (_ <= 1)).
Qed.

Lemma ex_sample_iteration_1 :
  exists pos,
    _sample_point_by_local_map ex_edt_zero ex_png_iteration_1 ex_window (0, 0) (9, 0)
      0.5 1 1 1 1 0.5 = Ok pos.
Proof.
  destruct (sample_argmin ex_edt_zero ex_png_iteration_1 ex_window (0, 0) (9, 0)
              0.5 1 1 1 1 0.5) as (before & r & c & after & _ & _ & _ & Hs).
  { exists (2%nat, 2%nat). split; [| apply ex_window_centre_reachable].
    apply elem_of_row_major. simpl. lia. }
  assert (Hdump : dump_field ex_png_iteration_1 = Ok ()).
  { unfold dump_field. cbn [ex_png_iteration_1 ex_png _visualize_iterations _iteration_count].
    rewrite decide_False by lia. by rewrite decide_False. }
  rewrite Hdump, bind_Ok in Hs. eauto.
Qed.

(** [sample_within_max_distance] on the free window, on an iteration that
    is no visualization tick. *)
Lemma sample_within_max_distance_example :
  exists pos,
    _sample_point_by_local_map ex_edt_zero ex_png_iteration_1 ex_window (0, 0) (9, 0)
      0.5 1 1 1 1 0.5 = Ok pos /\
    (pos = (0, 0) \/ sqrt ((pos.1 - 0) ^ 2 + (pos.2 - 0) ^ 2) <= 1).
Proof.
  destruct ex_sample_iteration_1 as [pos Hpos]. exists pos. split; [exact Hpos |].
  destruct (sample_within_max_distance ex_edt_zero ex_png_iteration_1 ex_window (0, 0) (9, 0)
              0.5 1 1 1 1 0.5 pos Hpos) as [[_ H]|(r & c & _ & _ & _ & H)].
  - by left.
  - right. exact H.
Defined.

(** [sample_avoids_marked_cells] on the free window. *)
Lemma sample_avoids_marked_cells_example :
  exists pos,
    _sample_point_by_local_map ex_edt_zero ex_png_iteration_1 ex_window (0, 0) (9, 0)
      0.5 1 1 1 1 0.5 = Ok pos /\
    (pos = (0, 0) \/
     exists r c,
       pos = (x_coords ex_png_iteration_1 (0, 0) c, y_coords ex_png_iteration_1 (0, 0) r) /\
       @item Z ex_window r c <> 1%Z /\ @item Z ex_window r c <> 2%Z).
Proof.
  destruct ex_sample_iteration_1 as [pos Hpos]. exists pos. split; [exact Hpos |].
  destruct (sample_avoids_marked_cells ex_edt_zero ex_png_iteration_1 ex_window (0, 0) (9, 0)
              0.5 1 1 1 1 0.5 pos) as [[_ H]|(r & c & _ & _ & H)].
  - intros a r c H. unfold ex_edt_zero. by rewrite decide_True.
  - lra.
  - lra.
  - lra.
  - lra.
  - exact Hpos.
  - by left.
  - right. exists r, c. exact H.
Defined.

(** [is_navigable_negative_index_wraps] on the one-pixel map: the pose one
    metre before the map is reported as navigable. *)
Lemma is_navigable_negative_index_wraps_example :
  _is_navigable ex_png ex_before_map = Ok true.
Proof.
  assert (Hx : _scale_x ex_png (x ex_before_map) = Ok 0%Z) by apply ex_png_scale.
  assert (Hy : _scale_x ex_png (y ex_before_map) = Ok (-1)%Z).
  { unfold _scale_x, int_of_float. cbn [ex_png ex_before_map meters_per_pixel y].
    rewrite decide_False by lra. rewrite decide_False by lra.
    replace (- (-1 / 1)) with 1 by field. by rewrite (ZfloorZ 1). }
  destruct (is_navigable_negative_index_wraps ex_png ex_before_map 0 (-1) [255%Z] Hx Hy)
    as (v & Hv & Hnav).
  - simpl. lia.
  - reflexivity.
  - simpl. lia.
  - rewrite Hnav. injection Hv as <-. reflexivity.
Defined.

(** [make_path_finer_keeps_waypoints] on a path of three poses, with the
    midpoint as the one intermediate pose of a segment. *)
Lemma make_path_finer_keeps_waypoints_example :
  exists fine,
    make_path_finer ex_intermediate_pts [ex_start; ex_new; ex_far] 2 0.01 = Ok fine /\
    head fine = Some ex_start /\ last fine = Some ex_far /\
    [ex_start; ex_new; ex_far] `sublist_of` fine /\
    make_path_finer ex_intermediate_pts [ex_start] 2 0.01 = Ok [].
Proof.
  destruct (make_path_finer_keeps_waypoints ex_intermediate_pts [ex_start; ex_new; ex_far]
              2 0.01) as [_ H].
  destruct (make_path_finer_keeps_waypoints ex_intermediate_pts [ex_start] 2 0.01)
    as [H1 _].
  eexists. split; [reflexivity |].
  destruct (H _ ltac:(simpl; lia) eq_refl) as (Hh & Hl & Hs & _).
  split; [exact Hh |]. split; [exact Hl |]. split; [exact Hs |].
  apply H1. simpl. lia.
Defined.

(** [info_map_agrees_with_navigable] on the planner for the one-pixel
    map. *)
Lemma info_map_agrees_with_navigable_example :
  exists px py,
    _scale_x ex_png (x ex_off_map) = Ok px /\ _scale_x ex_png (y ex_off_map) = Ok py /\
    ((exists v, np_item2 (_info_map ex_png) py px = Ok v /\ (v = 0 \/ v = 1)%Z /\
                _is_navigable ex_png ex_off_map = Ok (bool_decide (v = 0%Z))) \/
     (np_item2 (_info_map ex_png) py px = Raise IndexError /\
      _is_navigable ex_png ex_off_map = Ok false)).
Proof.
  exact (info_map_agrees_with_navigable ex_blur ex_params ex_gray ex_png ex_off_map
           ex_init_png).
Defined.

(** [sample_point_by_local_map_spec] on the free window, with the default
    gains, on an iteration that is no visualization tick: the sampler
    returns the position of a cell whose potential is least. *)
Lemma sample_point_by_local_map_spec_example :
  exists r c,
    _sample_point_by_local_map ex_edt_zero ex_png_iteration_1 ex_window (0, 0) (9, 0)
      0.5 1 1 1 1 0.5
    = Ok (x_coords ex_png_iteration_1 (0, 0) c, y_coords ex_png_iteration_1 (0, 0) r) /\
    forall rc, rc ∈ row_major 4 4 ->
      cost_le (U_total ex_edt_zero ex_png_iteration_1 ex_window (0, 0) (9, 0)
                 0.5 1 1 1 1 0.5 (r, c))
              (U_total ex_edt_zero ex_png_iteration_1 ex_window (0, 0) (9, 0)
                 0.5 1 1 1 1 0.5 rc).
Proof.
  destruct (sample_point_by_local_map_spec ex_edt_zero ex_png_iteration_1 ex_window
              (0, 0) (9, 0) 0.5 1 1 1 1 0.5) as (_ & _ & Hmin); [lra | lra | lra | lra |].
  destruct Hmin as (before & r & c & after & _ & _ & Hle & Hs).
  { exists (2%nat, 2%nat). split; [| apply ex_window_centre_reachable].
    apply elem_of_row_major. simpl. lia. }
  exists r, c. split; [| exact Hle]. rewrite Hs.
  unfold dump_field. cbn [ex_png_iteration_1 ex_png _visualize_iterations _iteration_count].
  rewrite decide_False by lia. by rewrite decide_False.
Defined.
